(** * G8SMovielib: the hybrid taste-profile recommender

    A shallow embedding of [MovieRecommender] (the recommender module),
    of [User.getRecommendations] with the [topGenre] of [User.getStats],
    and of the choice of suggestions in [showRecommendations] (app.js),
    together with the properties the specification states about them.

    Conventions of the embedding.
    - JavaScript numbers that carry weights, ratings and scores are real
      numbers ([R]): the rounding of IEEE doubles is not modelled.
      Counters and indices are [nat], integer results are [Z].
      [cosineSimilarity] is given a second time on binary64 doubles
      ([Binary64.cosineSimilarity]), for what rounding does to its result.
    - A JavaScript object used as a dictionary is an association list in
      insertion order, [obj A].  Every key the recommender writes contains
      a colon, so no key is an array index or a property of
      [Object.prototype], and [Object.keys] / [Object.entries] enumerate in
      insertion order.
    - Strings are [string]; a missing field is the empty string; [trim]
      and [toLowerCase] act on the ASCII range.
    - Methods that read or write [this] are computations of the state monad
      [M] over the record [engine]; the [async] methods run in the state
      monad [G], which also threads the log of the requests sent to the
      remote service, whose answers are a parameter.
    - [Math.random()] is a parameter of the methods that call it.
    - Console output, the URL of the service and the rendering of messages
      are left out; a message is kept as its template and arguments. *)

From Stdlib Require Import Reals Lra Lia List String Ascii ZArith Bool.
From Stdlib Require Import DecimalString.
From Stdlib Require Floats.
Import ListNotations.

Local Open Scope string_scope.
Local Open Scope list_scope.

(** ** Strings *)

Module Str.

Definition is_space (c : ascii) : bool :=
  let n := nat_of_ascii c in
  ((9 <=? n) && (n <=? 13) || (n =? 32))%nat.

Definition lower_ascii (c : ascii) : ascii :=
  let n := nat_of_ascii c in
  if ((65 <=? n) && (n <=? 90))%nat then ascii_of_nat (n + 32) else c.

(** [s.toLowerCase()] *)
Fixpoint toLowerCase (s : string) : string :=
  match s with
  | EmptyString => EmptyString
  | String c r => String (lower_ascii c) (toLowerCase r)
  end.

Fixpoint trimStart (s : string) : string :=
  match s with
  | EmptyString => EmptyString
  | String c r => if is_space c then trimStart r else s
  end.

Fixpoint rev (s : string) : string :=
  match s with
  | EmptyString => EmptyString
  | String c r => rev r ++ String c EmptyString
  end.

Definition trimEnd (s : string) : string := rev (trimStart (rev s)).

(** [s.trim()] *)
Definition trim (s : string) : string := trimEnd (trimStart s).

(** [s.split(sep)] for a one-character separator: never the empty list. *)
Fixpoint split (sep : ascii) (s : string) : list string :=
  match s with
  | EmptyString => [EmptyString]
  | String c r =>
      if Ascii.eqb c sep then EmptyString :: split sep r
      else match split sep r with
           | [] => [String c EmptyString]
           | h :: t => String c h :: t
           end
  end.

(** A string is truthy when it is not empty. *)
Definition truthy (s : string) : bool :=
  match s with EmptyString => false | _ => true end.

Definition digit_val (c : ascii) : option Z :=
  let n := nat_of_ascii c in
  if ((48 <=? n) && (n <=? 57))%nat then Some (Z.of_nat (n - 48)) else None.

Definition hex_val (c : ascii) : option Z :=
  let n := nat_of_ascii c in
  if ((48 <=? n) && (n <=? 57))%nat then Some (Z.of_nat (n - 48))
  else if ((97 <=? n) && (n <=? 102))%nat then Some (Z.of_nat (n - 87))
  else if ((65 <=? n) && (n <=? 70))%nat then Some (Z.of_nat (n - 55))
  else None.

(** The longest prefix of digits in the given radix, read as a number;
    [None] when the prefix is empty. *)
Fixpoint digits (val : ascii -> option Z) (radix : Z) (acc : option Z)
    (s : string) : option Z :=
  match s with
  | EmptyString => acc
  | String c r =>
      match val c with
      | Some d =>
          digits val radix
            (Some (match acc with Some a => a * radix + d | None => d end)%Z) r
      | None => acc
      end
  end.

Definition unsigned (s : string) : option Z :=
  match s with
  | String "0" (String "x" r) | String "0" (String "X" r) =>
      digits hex_val 16 None r
  | _ => digits digit_val 10 None s
  end.

(** [parseInt(s)]; [None] is NaN. *)
Definition parseInt (s : string) : option Z :=
  match trimStart s with
  | String "-" r => option_map Z.opp (unsigned r)
  | String "+" r => unsigned r
  | r => unsigned r
  end.

(** The text a template literal gives for an integer. *)
Definition ofZ (z : Z) : string := NilZero.string_of_int (Z.to_int z).

End Str.

(** ** JavaScript objects used as dictionaries *)

Definition obj (A : Type) : Type := list (string * A).

Section Obj.
Context {A : Type}.

(** [o[k]]; [None] is [undefined]. *)
Fixpoint get (k : string) (o : obj A) : option A :=
  match o with
  | [] => None
  | (k', v) :: r => if String.eqb k k' then Some v else get k r
  end.

(** [o[k] = v]: an existing key keeps its place, a new one goes last. *)
Fixpoint set (k : string) (v : A) (o : obj A) : obj A :=
  match o with
  | [] => [(k, v)]
  | (k', v') :: r =>
      if String.eqb k k' then (k', v) :: r else (k', v') :: set k v r
  end.

(** [Object.keys(o)] *)
Definition keys (o : obj A) : list string := map fst o.

(** [Object.keys(o).length === 0] *)
Definition is_empty (o : obj A) : bool :=
  match o with [] => true | _ => false end.
End Obj.

(** ** Numbers *)

Local Open Scope R_scope.

Definition Rgeb (x y : R) : bool := if Rge_dec x y then true else false.
Definition Rgtb (x y : R) : bool := if Rgt_dec x y then true else false.

(** [x || d] on a number that may be [undefined]: 0 is falsy. *)
Definition or_else (x : option R) (d : R) : R :=
  match x with
  | Some v => if Req_dec_T v 0 then d else v
  | None => d
  end.

(** [n || 0] on a counter that may be [undefined]. *)
Definition or_zero (x : option nat) : nat :=
  match x with Some n => n | None => O end.

(** [Math.round(x)]: the nearest integer, halves towards plus infinity. *)
Definition round (x : R) : Z := Int_part (x + / 2).

(** ** Items *)

Record movie : Type := Movie {
  title : string;
  genre : string;
  director : string;
  actors : string;
  year : string;
  rating : R;
  mood : string;
  imdbID : string
}.

(** ** The local pipeline: feature extraction *)

(** [names.forEach(n => features[`${prefix}${n}`] = w)] *)
Definition assign_all (prefix : string) (w : R) (names : list string)
    (features : obj R) : obj R :=
  fold_left (fun f n => set (prefix ++ n) w f) names features.

(** [field.split(',').map(x => x.trim().toLowerCase())] *)
Definition names_of (field : string) : list string :=
  map (fun x => Str.toLowerCase (Str.trim x)) (Str.split "," field).

Definition decade_of (y : string) : string :=
  match Str.parseInt y with
  | Some n => Str.ofZ (n / 10 * 10)
  | None => "NaN"
  end.

Definition bucket_of (r : R) : string :=
  if Rgeb r 4 then "high" else if Rgeb r 2.5 then "mid" else "low".

Definition extractFeatures (m : movie) : obj R :=
  let features : obj R := [] in
  let features :=
    if Str.truthy (genre m)
    then assign_all "genre:" 2.0 (names_of (genre m)) features
    else features in
  let features :=
    if Str.truthy (director m)
       && negb (String.eqb (director m) "N/A")
       && negb (String.eqb (director m) "Unknown")
    then assign_all "director:" 1.5 (names_of (director m)) features
    else features in
  let features :=
    if Str.truthy (actors m) && negb (String.eqb (actors m) "N/A")
    then assign_all "actor:" 1.0 (firstn 3 (names_of (actors m))) features
    else features in
  let features :=
    if Str.truthy (year m)
    then set ("decade:" ++ decade_of (year m) ++ "s") 0.8 features
    else features in
  let features :=
    if Rgtb (rating m) 0
    then set ("rating:" ++ bucket_of (rating m)) 0.5 features
    else features in
  let features :=
    if Str.truthy (mood m)
    then set ("mood:" ++ mood m) 1.0 features
    else features in
  features.

(** ** Engine state and its monad *)

Record engine : Type := Engine {
  serverAvailable : option bool;   (* null = unchecked, true/false = cached *)
  idfCache : obj R;
  userProfile : obj R
}.

(** [new MovieRecommender()] *)
Definition constructor : engine := Engine None [] [].

Definition set_serverAvailable (b : option bool) (e : engine) : engine :=
  Engine b (idfCache e) (userProfile e).
Definition set_idfCache (i : obj R) (e : engine) : engine :=
  Engine (serverAvailable e) i (userProfile e).
Definition set_userProfile (p : obj R) (e : engine) : engine :=
  Engine (serverAvailable e) (idfCache e) p.

(** The state monad; [M] is its instance at the engine, for the
    synchronous methods. *)
Definition State (S A : Type) : Type := S -> A * S.
Definition M : Type -> Type := State engine.

Definition ret {S A} (a : A) : State S A := fun s => (a, s).
Definition bind {S A B} (m : State S A) (f : A -> State S B) : State S B :=
  fun s => let (a, s') := m s in f a s'.
Definition gets {S A} (f : S -> A) : State S A := fun s => (f s, s).
Definition modify {S} (f : S -> S) : State S unit := fun s => (tt, f s).

Declare Scope monad_scope.
Delimit Scope monad_scope with monad.
Notation "x <- m ;; k" := (bind m (fun x => k))
  (at level 61, m at next level, right associativity) : monad_scope.
Notation "m ;; k" := (bind m (fun _ => k))
  (at level 61, right associativity) : monad_scope.
Local Open Scope monad_scope.

(** [xs.forEach(x => ...)] where the body updates local variables [acc]
    and may touch [this]. *)
Fixpoint forEach {S A B} (xs : list A) (body : B -> A -> State S B) (acc : B)
    : State S B :=
  match xs with
  | [] => ret acc
  | x :: r => acc' <- body acc x ;; forEach r body acc'
  end.

(** ** The local pipeline: IDF, profile, similarity, score *)

(** The body of [collection.forEach] in [computeIDF]. *)
Definition count_terms (termDocCount : obj nat) (m : movie) : obj nat :=
  let features := extractFeatures m in
  snd (fold_left
         (fun (st : list string * obj nat) term =>
            let (seenTerms, tdc) := st in
            if existsb (String.eqb term) seenTerms then st
            else (term :: seenTerms,
                  set term (or_zero (get term tdc) + 1)%nat tdc))
         (keys features) ([], termDocCount)).

Definition computeIDF (collection : list movie) : M (obj R) :=
  let docCount := List.length collection in
  let termDocCount := fold_left count_terms collection [] in
  let idf :=
    fold_left
      (fun (idf : obj R) (e : string * nat) =>
         let (term, count) := e in
         set term (ln (INR docCount / INR count) + 1) idf)
      termDocCount [] in
  modify (set_idfCache idf) ;;
  ret idf.

Definition applyTFIDF (features : obj R) : M (obj R) :=
  forEach features
    (fun (weighted : obj R) (e : string * R) =>
       let (term, tf) := e in
       cache <- gets idfCache ;;
       let idf := or_else (get term cache) 1 in
       ret (set term (tf * idf) weighted))
    [].

Definition ratingBoost_of (m : movie) : R :=
  if Rgeb (rating m) 4 then 1.5 else if Rgeb (rating m) 3 then 1.0 else 0.7.

(** [profile[term] /= count]; [term] is one of the own keys of [profile]. *)
Definition divide_entry (count : nat) (profile : obj R) (term : string)
    : obj R :=
  match get term profile with
  | Some v => set term (v / INR count) profile
  | None => profile
  end.

(** The body of [collection.forEach] in [_buildUserProfileJS]; the local
    variables [profile] and [count] are the accumulator. *)
Definition accumulate (st : obj R * nat) (m : movie) : M (obj R * nat) :=
  let (profile, count) := st in
  let features := extractFeatures m in
  weighted <- applyTFIDF features ;;
  let ratingBoost := ratingBoost_of m in
  let profile :=
    fold_left
      (fun (profile : obj R) (e : string * R) =>
         let (term, value) := e in
         set term (or_else (get term profile) 0 + value * ratingBoost)
           profile)
      weighted profile in
  ret (profile, S count).

Definition _buildUserProfileJS (collection : list movie) : M (obj R) :=
  if (List.length collection =? 0)%nat then
    modify (set_userProfile []) ;;
    ret []
  else
    computeIDF collection ;;
    st <- forEach collection accumulate ([], O) ;;
    let (profile, count) := st in
    let profile := fold_left (divide_entry count) (keys profile) profile in
    modify (set_userProfile profile) ;;
    ret profile.

(** [new Set(xs)] enumerated: first occurrences, in order. *)
Definition distinct (xs : list string) : list string :=
  fold_left
    (fun seen x => if existsb (String.eqb x) seen then seen else seen ++ [x])
    xs [].

(** [cosineSimilarity] without rounding, as the scores are modelled. *)
Definition cosineSimilarity (vecA vecB : obj R) : R :=
  let allTerms := distinct (keys vecA ++ keys vecB) in
  let sums :=
    fold_left
      (fun (acc : R * R * R) term =>
         let '(dotProduct, magnitudeA, magnitudeB) := acc in
         let a := or_else (get term vecA) 0 in
         let b := or_else (get term vecB) 0 in
         (dotProduct + a * b, magnitudeA + a * a, magnitudeB + b * b))
      allTerms (0, 0, 0) in
  let '(dotProduct, magnitudeA, magnitudeB) := sums in
  let magnitudeA := sqrt magnitudeA in
  let magnitudeB := sqrt magnitudeB in
  if Req_dec_T magnitudeA 0 then 0
  else if Req_dec_T magnitudeB 0 then 0
  else dotProduct / (magnitudeA * magnitudeB).

(** [cosineSimilarity] as JavaScript computes it, on binary64 doubles with
    the rounding of every operation. *)
Module Binary64.
Import PrimFloat.
Local Open Scope float_scope.

(** [x || d] on a number that may be [undefined]: 0, -0 and NaN are
    falsy. *)
Definition or_else (x : option float) (d : float) : float :=
  match x with
  | Some v => if (v =? 0) || is_nan v then d else v
  | None => d
  end.

Definition cosineSimilarity (vecA vecB : obj float) : float :=
  let allTerms := distinct (keys vecA ++ keys vecB) in
  let sums :=
    fold_left
      (fun (acc : float * float * float) term =>
         let '(dotProduct, magnitudeA, magnitudeB) := acc in
         let a := or_else (get term vecA) 0 in
         let b := or_else (get term vecB) 0 in
         (dotProduct + a * b, magnitudeA + a * a, magnitudeB + b * b))
      allTerms (0, 0, 0) in
  let '(dotProduct, magnitudeA, magnitudeB) := sums in
  let magnitudeA := sqrt magnitudeA in
  let magnitudeB := sqrt magnitudeB in
  if (magnitudeA =? 0) || (magnitudeB =? 0) then 0
  else dotProduct / (magnitudeA * magnitudeB).

End Binary64.

Definition scoreMovie (m : movie) : M Z :=
  profile <- gets userProfile ;;
  if is_empty profile then ret 0%Z
  else
    let features := extractFeatures m in
    weighted <- applyTFIDF features ;;
    profile <- gets userProfile ;;
    let similarity := cosineSimilarity profile weighted in
    ret (round (similarity * 100)).

(** ** The local pipeline: ranked suggestions *)

(** The message templates, with the values they interpolate. *)
Inductive message : Type :=
| FavorsGenre (value : option string) (weight : R)
| EnjoysStyle (value : option string)
| EnjoysActor (value : option string)
| LoveGenre (topGenre : string)
| EnjoyWork (name : string)
| LovedTitle (title : string)
| Text (s : string).

Record suggestion : Type := Suggestion {
  type : string;
  msg : message;
  searchTerm : option string;      (* None = undefined *)
  confidence : option Z            (* None = no such field *)
}.

Definition has_type (t : string) (s : suggestion) : bool :=
  String.eqb (type s) t.

(** [xs.sort((a, b) => b[1] - a[1])]: stable, descending on the second
    component; [gt] decides "strictly greater". *)
Section Sort.
Context {K V : Type} (gt : V -> V -> bool).

Fixpoint insert_desc (x : K * V) (l : list (K * V)) : list (K * V) :=
  match l with
  | [] => [x]
  | y :: r => if gt (snd y) (snd x) then y :: insert_desc x r else x :: l
  end.

Definition sort_desc (l : list (K * V)) : list (K * V) :=
  fold_right insert_desc [] l.
End Sort.

Definition confidence_of (weight : R) : Z := Z.min (round (weight * 20)) 99.

(** The body of [topFeatures.forEach] in [getSmartSuggestions]. *)
Definition suggest (suggestions : list suggestion) (e : string * R)
    : list suggestion :=
  let (term, weight) := e in
  let parts := Str.split ":" term in
  let type := hd "" parts in
  let value := nth_error parts 1 in
  let suggestions :=
    if String.eqb type "genre"
       && negb (existsb (has_type "genre") suggestions)
    then suggestions ++
         [Suggestion "genre" (FavorsGenre value weight) value
            (Some (confidence_of weight))]
    else suggestions in
  let suggestions :=
    if String.eqb type "director"
       && negb (existsb (has_type "director") suggestions)
    then suggestions ++
         [Suggestion "director" (EnjoysStyle value) value
            (Some (confidence_of weight))]
    else suggestions in
  let suggestions :=
    if String.eqb type "actor"
       && (List.length (filter (has_type "actor") suggestions) <? 2)%nat
    then suggestions ++
         [Suggestion "actor" (EnjoysActor value) value
            (Some (confidence_of weight))]
    else suggestions in
  suggestions.

(** The ranking that [getSmartSuggestions] runs on the profile it built. *)
Definition rank (profile : obj R) : list suggestion :=
  let topFeatures := firstn 10 (sort_desc Rgtb profile) in
  let suggestions := fold_left suggest topFeatures [] in
  firstn 5 suggestions.

Definition getSmartSuggestions (collection : list movie)
    : M (list suggestion) :=
  if (List.length collection <? 2)%nat then ret []
  else
    _buildUserProfileJS collection ;;
    profile <- gets userProfile ;;
    ret (rank profile).

(** ** The remote service *)

(** [_serializeMovie]: every field of the model already has its default. *)
Definition _serializeMovie (m : movie) : movie :=
  Movie (title m) (genre m) (director m) (actors m) (year m) (rating m)
    (mood m) (imdbID m).

Definition _serializeCollection (collection : list movie) : list movie :=
  map _serializeMovie collection.

Inductive request : Type :=
| GetHealth
| PostProfile (collection : list movie)
| PostScore (m : movie)
| PostRecommend (collection : list movie).

(** What [await fetch(...)] followed by [await response.json()] gives:
    an exception (network error, abort by timeout, a body that is not
    JSON), the JSON value [null], or an object in the endpoint's schema,
    where a field the object lacks is [None] or [false]. *)
Inductive outcome (A : Type) : Type :=
| Rejected
| JsonNull
| Body (body : A).
Arguments Rejected {A}.
Arguments JsonNull {A}.
Arguments Body {A} body.

Record profile_body : Type := ProfileBody {
  p_success : bool;
  p_top_traits : option (list (string * R))
}.

Record score_body : Type := ScoreBody {
  s_success : bool;
  s_score : option R               (* None = null *)
}.

Record recommend_body : Type := RecommendBody {
  r_success : bool;
  r_suggestions : list suggestion;
  r_top_traits : option (list string)
}.

(** The service answers each request knowing the requests sent before. *)
Record service : Type := Service {
  health : list request -> outcome (option string);
  profile : list request -> list movie -> outcome profile_body;
  score : list request -> movie -> outcome score_body;
  recommend : list request -> list movie -> outcome recommend_body
}.

(** The engine together with the log of the requests it has sent. *)
Record world : Type := World {
  eng : engine;
  sent : list request
}.

Definition G : Type -> Type := State world.

(** A synchronous method called from an [async] one. *)
Definition lift {A} (m : M A) : G A :=
  fun w => let (a, e) := m (eng w) in (a, World e (sent w)).

Definition fetch {A} (answer : list request -> outcome A) (q : request)
    : G (outcome A) :=
  fun w => (answer (sent w), World (eng w) (sent w ++ [q])).

(** What [buildUserProfile] resolves to. *)
Inductive profile_result : Type :=
| RemoteProfile (result : profile_body)
| LocalProfile (profile : obj R).

Definition is_true (b : option bool) : bool :=
  match b with Some true => true | _ => false end.

(** The body of [result.topTraits.forEach((t, i) => ...)]. *)
Fixpoint assign_traits (i : nat) (traits : list string) (p : obj R) : obj R :=
  match traits with
  | [] => p
  | t :: r => assign_traits (S i) r (set t (1.0 - INR i * 0.1) p)
  end.

Section Gateway.
Variable net : service.

Definition checkServer : G bool :=
  cached <- lift (gets serverAvailable) ;;
  match cached with
  | Some b => ret b
  | None =>
      data <- fetch (health net) GetHealth ;;
      let b :=
        match data with
        | Body (Some status) => String.eqb status "ok"
        | _ => false
        end in
      lift (modify (set_serverAvailable (Some b))) ;;
      ret b
  end.

(** [None] is [null]. *)
Definition buildUserProfilePython (collection : list movie)
    : G (option profile_body) :=
  let body := _serializeCollection collection in
  data <- fetch (fun log => profile net log body) (PostProfile body) ;;
  match data with
  | Rejected =>
      lift (modify (set_serverAvailable (Some false))) ;;
      ret None
  | JsonNull => ret None
  | Body b => ret (Some b)
  end.

(** [None] is [null]. *)
Definition scoreMoviePython (m : movie) : G (option R) :=
  let body := _serializeMovie m in
  data <- fetch (fun log => score net log body) (PostScore body) ;;
  match data with
  | Body b => ret (if s_success b then s_score b else Some 0)
  | _ =>
      lift (modify (set_serverAvailable (Some false))) ;;
      ret None
  end.

(** [None] is [null]. *)
Definition getSmartSuggestionsPython (collection : list movie)
    : G (option (list suggestion * option (list string))) :=
  let body := _serializeCollection collection in
  data <- fetch (fun log => recommend net log body) (PostRecommend body) ;;
  match data with
  | Body b =>
      ret (if r_success b then Some (r_suggestions b, r_top_traits b)
           else None)
  | _ =>
      lift (modify (set_serverAvailable (Some false))) ;;
      ret None
  end.

Definition buildUserProfile (collection : list movie) : G profile_result :=
  let fallback :=
    p <- lift (_buildUserProfileJS collection) ;;
    ret (LocalProfile p) in
  checkServer ;;
  available <- lift (gets serverAvailable) ;;
  if is_true available then
    result <- buildUserProfilePython collection ;;
    match result with
    | Some b =>
        if p_success b then
          lift (modify (set_userProfile [])) ;;
          match p_top_traits b with
          | Some traits =>
              lift (forEach traits
                      (fun (_ : unit) (t : string * R) =>
                         let (feature, weight) := t in
                         p <- gets userProfile ;;
                         modify (set_userProfile (set feature weight p)))
                      tt)
          | None => ret tt
          end ;;
          ret (RemoteProfile b)
        else fallback
    | None => fallback
    end
  else fallback.

Definition scoreMovieAsync (m : movie) : G R :=
  let fallback :=
    s <- lift (scoreMovie m) ;;
    ret (IZR s) in
  checkServer ;;
  available <- lift (gets serverAvailable) ;;
  if is_true available then
    score <- scoreMoviePython m ;;
    match score with
    | Some x => ret x
    | None => fallback
    end
  else fallback.

Definition getSmartSuggestionsAsync (collection : list movie)
    : G (list suggestion) :=
  let fallback := lift (getSmartSuggestions collection) in
  checkServer ;;
  available <- lift (gets serverAvailable) ;;
  if is_true available then
    result <- getSmartSuggestionsPython collection ;;
    match result with
    | Some (suggestions, topTraits) =>
        lift (modify (set_userProfile [])) ;;
        match topTraits with
        | Some traits =>
            p <- lift (gets userProfile) ;;
            lift (modify (set_userProfile (assign_traits 0 traits p)))
        | None => ret tt
        end ;;
        ret suggestions
    | None => fallback
    end
  else fallback.
End Gateway.

(** ** The simple recommendations of [User] *)

Definition gt_nat (a b : nat) : bool := (b <? a)%nat.

(** [o[k] = (o[k] || 0) + 1] *)
Definition bump (k : string) (o : obj nat) : obj nat :=
  set k (or_zero (get k o) + 1)%nat o.

(** [getStats().topGenre] *)
Definition topGenre (collection : list movie) : string :=
  let genres := fold_left (fun o m => bump (genre m) o) collection [] in
  match sort_desc gt_nat genres with
  | (g, _) :: _ => g
  | [] => "None"
  end.

Definition genreKeywords : obj (list string) :=
  [("Action", ["action thriller"; "superhero"; "martial arts"]);
   ("Comedy", ["comedy romance"; "funny"; "sitcom movie"]);
   ("Drama", ["drama oscar"; "biographical"; "emotional"]);
   ("Horror", ["horror scary"; "ghost"; "psychological thriller"])].

(** [xs[Math.floor(r * xs.length)]] where [r] is what [Math.random()]
    returned. *)
Definition pick {A} (r : R) (xs : list A) : option A :=
  nth_error xs (Z.to_nat (Int_part (r * INR (List.length xs)))).

(** [r1] and [r2] are the values of [Math.random()] at the keyword pick and
    at the pick among the highly rated items. *)
Definition getRecommendations (collection : list movie) (r1 r2 : R)
    : list suggestion :=
  let suggestions : list suggestion := [] in
  let top := topGenre collection in
  let suggestions :=
    if negb (String.eqb top "None") then
      let keywords :=
        match get top genreKeywords with Some l => l | None => [] end in
      if (0 <? List.length keywords)%nat
      then suggestions ++
           [Suggestion "genre" (LoveGenre top) (pick r1 keywords) None]
      else suggestions
    else suggestions in
  let directorCount :=
    fold_left
      (fun o m =>
         if Str.truthy (director m)
            && negb (String.eqb (director m) "Unknown")
         then bump (Str.trim (hd "" (Str.split "," (director m)))) o
         else o)
      collection [] in
  let suggestions :=
    match sort_desc gt_nat directorCount with
    | (name, n) :: _ =>
        if (2 <=? n)%nat
        then suggestions ++
             [Suggestion "director" (EnjoyWork name) (Some name) None]
        else suggestions
    | [] => suggestions
    end in
  let highRated := filter (fun m => Rgeb (rating m) 4) collection in
  let suggestions :=
    if (0 <? List.length highRated)%nat then
      match pick r2 highRated with
      | Some random =>
          suggestions ++
          [Suggestion "similar" (LovedTitle (title random))
             (Some (Str.toLowerCase (genre random))) None]
      | None => suggestions
      end
    else suggestions in
  suggestions.

(** The suggestions [showRecommendations] displays. *)
Definition allSuggestions (net : service) (collection : list movie)
    (r1 r2 : R) : G (list suggestion) :=
  mlSuggestions <- getSmartSuggestionsAsync net collection ;;
  let basicSuggestions := getRecommendations collection r1 r2 in
  ret (if (0 <? List.length mlSuggestions)%nat then mlSuggestions
       else basicSuggestions).

From Stdlib Require Import Permutation Sorted.

(** * The event bus ([EventEmitter])

    A callback of the application is known by its identity, a number; the
    closure [once] makes has an identity of its own, the number of closures
    made before it, and remembers the event and the callback it wraps.
    What a callback of the application does when called is a parameter,
    [act]: any change of the bus, and whether it threw.  Event names are
    taken not to be array indices or properties of [Object.prototype];
    console output is left out. *)

Inductive listener : Type :=
| Plain (f : nat)
| OnceWrapper (w : nat) (eventName : string) (callback : nat).

(** [a === b] on functions. *)
Definition same_listener (a b : listener) : bool :=
  match a, b with
  | Plain f, Plain g => Nat.eqb f g
  | OnceWrapper w _ _, OnceWrapper v _ _ => Nat.eqb w v
  | _, _ => false
  end.

Record bus : Type := Bus {
  _events : obj (list listener);
  allocated : nat                  (* closures made by [once] so far *)
}.

(** [new EventEmitter()] *)
Definition new_bus : bus := Bus [] 0.

Definition on (eventName : string) (callback : listener) (b : bus) : bus :=
  let events :=
    match get eventName (_events b) with
    | None => set eventName [] (_events b)
    | Some _ => _events b
    end in
  let listeners :=
    match get eventName events with Some l => l | None => [] end in
  Bus (set eventName (listeners ++ [callback]) events) (allocated b).

Definition off (eventName : string) (callback : listener) (b : bus) : bus :=
  match get eventName (_events b) with
  | None => b
  | Some l =>
      Bus (set eventName
             (filter (fun cb => negb (same_listener cb callback)) l)
             (_events b))
        (allocated b)
  end.

Definition once (eventName : string) (callback : nat) (b : bus) : bus :=
  let wrapper := OnceWrapper (allocated b) eventName callback in
  on eventName wrapper (Bus (_events b) (S (allocated b))).

Definition eventNames (b : bus) : list string := keys (_events b).

Definition listenerCount (eventName : string) (b : bus) : nat :=
  match get eventName (_events b) with
  | Some l => List.length l
  | None => O
  end.

Section Emit.
Variable D : Type.

(** What calling callback [f] with [data] does to the bus, and whether the
    call threw. *)
Variable act : nat -> D -> bus -> bus * bool.

(** Calling a listener: the closure of [once] calls its callback and then,
    unless that threw, removes itself. *)
Definition invoke (l : listener) (data : D) (b : bus) : bus * bool :=
  match l with
  | Plain f => act f data b
  | OnceWrapper _ eventName f =>
      let (b', threw) := act f data b in
      if threw then (b', true) else (off eventName l b', false)
  end.

(** [emit]: the listeners registered when it starts are called in order,
    an exception of one is caught and does not stop the others. *)
Definition emit (eventName : string) (data : D) (b : bus) : bool * bus :=
  match get eventName (_events b) with
  | None => (false, b)
  | Some l => (true, fold_left (fun b cb => fst (invoke cb data b)) l b)
  end.
End Emit.

(** * The library of a user ([User])

    A movie of the library is the item the recommender reads together with
    its reviews and the date it was added.  [saveToStorage] and the events
    sent to the application bus are recorded as the effects of a method, in
    order; what the listeners then do is outside the method.  The texts of
    the messages are kept as their template and arguments. *)

Module User.

Record review : Type := Review {
  review_rating : R;
  review_date : string
}.

Record entry : Type := Entry {
  item : movie;
  reviews : list review;
  dateAdded : string
}.

Record user : Type := Build {
  collection : list entry;
  watchlist : list entry
}.

Inductive effect : Type :=
| SaveToStorage
| Emit (eventName : string) (m : entry).

Inductive notice : Type :=
| AlreadyInCollection
| AddedToCollection (title : string)
| NotInCollection
| RemovedFromCollection (title : string)
| AlreadyInWatchlist
| AddedToWatchlist (title : string)
| NotInWatchlist
| RemovedFromWatchlist (title : string)
| NotInWatchlistShort
| MovedToCollection (title : string).

Record status : Type := Status {
  success : bool;
  message : notice
}.

(** [m.imdbID === id] *)
Definition has_id (id : string) (m : entry) : bool :=
  String.eqb (imdbID (item m)) id.

(** [l.findIndex(p)] followed by [l.splice(index, 1)[0]]: the first element
    that satisfies [p] and the list without it; [None] when the index
    is -1. *)
Fixpoint take_first (p : entry -> bool) (l : list entry)
    : option (entry * list entry) :=
  match l with
  | [] => None
  | x :: r =>
      if p x then Some (x, r)
      else match take_first p r with
           | Some (y, r') => Some (y, x :: r')
           | None => None
           end
  end.

Definition addMovie (m : entry) (u : user) : status * user * list effect :=
  let exists_ := existsb (has_id (imdbID (item m))) (collection u) in
  if exists_ then (Status false AlreadyInCollection, u, [])
  else
    let u' := Build (collection u ++ [m]) (watchlist u) in
    (Status true (AddedToCollection (title (item m))), u',
     [SaveToStorage; Emit "movie:added" m]).

Definition removeMovie (id : string) (u : user)
    : status * user * list effect :=
  match take_first (has_id id) (collection u) with
  | None => (Status false NotInCollection, u, [])
  | Some (removed, rest) =>
      (Status true (RemovedFromCollection (title (item removed))),
       Build rest (watchlist u),
       [SaveToStorage; Emit "movie:removed" removed])
  end.

(** [None] is [null]. *)
Definition getMovie (id : string) (u : user) : option entry :=
  find (has_id id) (collection u).

Definition addToWatchlist (m : entry) (u : user)
    : status * user * list effect :=
  let inCollection := existsb (has_id (imdbID (item m))) (collection u) in
  if inCollection then (Status false AlreadyInCollection, u, [])
  else
    let inWatchlist := existsb (has_id (imdbID (item m))) (watchlist u) in
    if inWatchlist then (Status false AlreadyInWatchlist, u, [])
    else
      (Status true (AddedToWatchlist (title (item m))),
       Build (collection u) (watchlist u ++ [m]),
       [SaveToStorage; Emit "watchlist:added" m]).

Definition removeFromWatchlist (id : string) (u : user)
    : status * user * list effect :=
  match take_first (has_id id) (watchlist u) with
  | None => (Status false NotInWatchlist, u, [])
  | Some (removed, rest) =>
      (Status true (RemovedFromWatchlist (title (item removed))),
       Build (collection u) rest, [SaveToStorage])
  end.

(** [now] is [new Date().toISOString()]. *)
Definition moveToCollection (id : string) (now : string) (u : user)
    : status * user * list effect :=
  match take_first (has_id id) (watchlist u) with
  | None => (Status false NotInWatchlistShort, u, [])
  | Some (m, rest) =>
      let m := Entry (item m) (reviews m) now in
      (Status true (MovedToCollection (title (item m))),
       Build (collection u ++ [m]) rest,
       [SaveToStorage; Emit "movie:added" m])
  end.

(** [r] is what [Math.random()] returned; [None] is [null]. *)
Definition getRandomMovie (r : R) (u : user) : option entry :=
  if (List.length (collection u) =? 0)%nat then None
  else pick r (collection u).

Definition named_genres : list string :=
  ["Action"; "Comedy"; "Drama"; "Horror"].

Definition filterByGenre (g : string) (u : user) : list entry :=
  if String.eqb g "all" then collection u
  else if String.eqb g "Other" then
    filter (fun m => negb (existsb (String.eqb (genre (item m))) named_genres))
      (collection u)
  else filter (fun m => String.eqb (genre (item m)) g) (collection u).

Definition getMoodStats (u : user) : obj nat :=
  fold_left
    (fun moods m =>
       if Str.truthy (mood (item m)) then bump (mood (item m)) moods
       else moods)
    (collection u) [].

End User.

(** * Achievements ([Achievement], [ACHIEVEMENTS], [AchievementManager])

    An achievement keeps its identifier, its title and its condition; the
    description, the icon and the HTML of [display] are left out.  The
    private fields [#unlocked] and [#unlockedDate] are fields of the
    record; [None] is [null]. *)

Module Achievement.

Record achievement : Type := Make {
  id : string;
  title : string;
  condition : User.user -> bool;
  unlocked : bool;
  unlockedDate : option string
}.

(** [new Achievement(id, title, description, icon, condition)] *)
Definition create (id title : string) (condition : User.user -> bool)
    : achievement :=
  Make id title condition false None.

(** [check(user)]; [now] is [new Date().toISOString()]. *)
Definition check (now : string) (user : User.user) (a : achievement)
    : bool * achievement :=
  if unlocked a then (false, a)
  else if condition a user
       then (true, Make (id a) (title a) (condition a) true (Some now))
       else (false, a).

Definition forceUnlock (date : option string) (a : achievement)
    : achievement :=
  Make (id a) (title a) (condition a) true date.

Record saved : Type := Saved {
  saved_id : string;
  saved_unlocked : bool;
  saved_unlockedDate : option string
}.

Definition toJSON (a : achievement) : saved :=
  Saved (id a) (unlocked a) (unlockedDate a).

(** [user.collection.reduce((sum, m) => sum + m.reviews.length, 0)] *)
Definition review_total (user : User.user) : nat :=
  fold_left (fun sum m => (sum + List.length (User.reviews m))%nat)
    (User.collection user) O.

(** [user.collection.filter(m => m.genre === g).length >= 3] *)
Definition fan_of (g : string) (user : User.user) : bool :=
  (3 <=? List.length
           (filter (fun m => String.eqb (genre (User.item m)) g)
              (User.collection user)))%nat.

Definition ACHIEVEMENTS : list achievement :=
  [create "first_movie" "First Steps"
     (fun user => (1 <=? List.length (User.collection user))%nat);
   create "five_movies" "Getting Started"
     (fun user => (5 <=? List.length (User.collection user))%nat);
   create "ten_movies" "Movie Buff"
     (fun user => (10 <=? List.length (User.collection user))%nat);
   create "twenty_movies" "Cinephile"
     (fun user => (20 <=? List.length (User.collection user))%nat);
   create "first_review" "Critic Debut"
     (fun user =>
        existsb (fun m => (0 <? List.length (User.reviews m))%nat)
          (User.collection user));
   create "five_reviews" "Seasoned Critic"
     (fun user => (5 <=? review_total user)%nat);
   create "ten_reviews" "Movie Critic"
     (fun user => (10 <=? review_total user)%nat);
   create "action_fan" "Action Hero" (fan_of "Action");
   create "comedy_fan" "Comedy King" (fan_of "Comedy");
   create "horror_fan" "Fearless" (fan_of "Horror");
   create "drama_fan" "Drama Lover" (fan_of "Drama");
   create "diverse" "Genre Explorer"
     (fun user =>
        let genres :=
          distinct (map (fun m => genre (User.item m))
                      (User.collection user)) in
        (4 <=? List.length genres)%nat);
   create "five_star" "Perfection"
     (fun user =>
        existsb
          (fun m =>
             existsb
               (fun r =>
                  if Req_dec_T (User.review_rating r) 5 then true else false)
               (User.reviews m))
          (User.collection user));
   create "watchlist_starter" "Planning Ahead"
     (fun user => (1 <=? List.length (User.watchlist user))%nat);
   create "mood_tracker" "Mood Mapper"
     (fun user =>
        (3 <=? List.length
                 (filter (fun m => Str.truthy (mood (User.item m)))
                    (User.collection user)))%nat)].

(** [achievements.find(a => a.id === i)] followed by a change of the
    achievement found: the first one with the identifier is changed. *)
Fixpoint change_first (i : string) (f : achievement -> achievement)
    (achievements : list achievement) : list achievement :=
  match achievements with
  | [] => []
  | a :: r =>
      if String.eqb (id a) i then f a :: r
      else a :: change_first i f r
  end.

(** [AchievementManager.loadState]; [None] is a falsy argument. *)
Definition loadState (savedAchievements : option (list saved))
    (achievements : list achievement) : list achievement :=
  match savedAchievements with
  | None => achievements
  | Some l =>
      fold_left
        (fun achievements s =>
           if saved_unlocked s
           then change_first (saved_id s)
                  (forceUnlock (saved_unlockedDate s)) achievements
           else achievements)
        l achievements
  end.

(** [AchievementManager.checkAll]: the newly unlocked achievements and the
    achievements after the pass; [now i] is the time when the achievement
    at index [i] is checked. *)
Fixpoint checkAll_from (i : nat) (now : nat -> string) (user : User.user)
    (achievements : list achievement)
    : list achievement * list achievement :=
  match achievements with
  | [] => ([], [])
  | a :: r =>
      let (fresh, a') := check (now i) user a in
      let (newlyUnlocked, r') := checkAll_from (S i) now user r in
      (if fresh then a' :: newlyUnlocked else newlyUnlocked, a' :: r')
  end.

Definition checkAll (now : nat -> string) (user : User.user)
    (achievements : list achievement)
    : list achievement * list achievement :=
  checkAll_from 0 now user achievements.

(** [AchievementManager.toJSON] *)
Definition toJSON_all (achievements : list achievement) : list saved :=
  map toJSON achievements.

Record progress : Type := Progress {
  total : nat;
  unlocked_count : nat;
  percentage : Z
}.

Definition getProgress (achievements : list achievement) : progress :=
  let total := List.length achievements in
  let unlocked := List.length (filter unlocked achievements) in
  Progress total unlocked (round (INR unlocked / INR total * 100)).

End Achievement.


(** * Accounts (the static methods of [User] over [localStorage])

    [localStorage] holds the accounts under [movieLibraryUsers], an object
    keyed by e-mail, and the e-mail of the session under
    [movieLibraryCurrentUser]; the stored JSON is taken to be well formed,
    so that reading it back gives the object written.  A user object and
    its stored form have the same fields and share the record [account];
    a missing string field is the empty string, a missing [achievements]
    is [None].  No e-mail is taken to be an array index or [__proto__].
    The movies of a library are stored and read back as they are.
    The state of [AchievementManager], which [toJSON] reads and [fromJSON]
    writes, is passed to the methods and returned by them. *)

Module Accounts.

Record account : Type := Account {
  name : string;
  email : string;
  password : string;
  securityQuestion : string;
  securityAnswer : string;
  library : User.user;
  joinDate : string;
  achievements : option (list Achievement.saved);
  theme : string
}.

Record storage : Type := Storage {
  movieLibraryUsers : obj account;
  movieLibraryCurrentUser : option string;
  movieLibraryRememberMe : option string
}.

Inductive notice : Type :=
| AccountExists
| NoAccountFound
| IncorrectPassword.

(** [{ success: false, message }] or [{ success: true, user }] *)
Inductive reply : Type :=
| Failure (message : notice)
| Success (user : account).

(** [new User(name, email, password, securityQuestion, securityAnswer)];
    [now] is [new Date().toISOString()]. *)
Definition constructor (name email password securityQuestion
    securityAnswer now : string) : account :=
  Account name (Str.trim (Str.toLowerCase email)) password securityQuestion
    (Str.trim (Str.toLowerCase securityAnswer)) (User.Build [] []) now
    (Some []) "dark".

Definition toJSON (manager : list Achievement.achievement) (u : account)
    : account :=
  Account (name u) (email u) (password u) (securityQuestion u)
    (securityAnswer u) (library u) (joinDate u)
    (Some (Achievement.toJSON_all manager)) (theme u).

Definition saveToStorage (manager : list Achievement.achievement)
    (u : account) (s : storage) : storage :=
  let userData := toJSON manager u in
  let allUsers := movieLibraryUsers s in
  Storage (set (email u) userData allUsers) (Some (email u))
    (movieLibraryRememberMe s).

(** [User.fromJSON(data)]: the user, and the achievements after
    [AchievementManager.loadState]. *)
Definition fromJSON (data : account) (now : string)
    (manager : list Achievement.achievement)
    : account * list Achievement.achievement :=
  let user :=
    constructor (name data) (email data) (password data)
      (securityQuestion data) (securityAnswer data) now in
  let user :=
    Account (name user) (email user) (password user)
      (securityQuestion user) (securityAnswer user) (library data)
      (joinDate data) (achievements user)
      (if Str.truthy (theme data) then theme data else "dark") in
  (user,
   match achievements data with
   | Some l => Achievement.loadState (Some l) manager
   | None => manager
   end).

(** [Object.keys(allUsers).find(k => k.toLowerCase() === cleanEmail)];
    [None] is [undefined]. *)
Definition find_key (cleanEmail : string) (allUsers : obj account)
    : option string :=
  find (fun k => String.eqb (Str.toLowerCase k) cleanEmail) (keys allUsers).

(** The property name that a key, possibly [undefined], stands for. *)
Definition property (key : option string) : string :=
  match key with
  | Some k => k
  | None => "undefined"
  end.

(** [delete o[k]] *)
Definition delete (k : string) (o : obj account) : obj account :=
  filter (fun kv => negb (String.eqb (fst kv) k)) o.

Definition signup (name email password securityQuestion securityAnswer
    now : string) (manager : list Achievement.achievement) (s : storage)
    : reply * storage :=
  let cleanEmail := Str.trim (Str.toLowerCase email) in
  let allUsers := movieLibraryUsers s in
  let existingKey := find_key cleanEmail allUsers in
  if match existingKey with Some k => Str.truthy k | None => false end
  then (Failure AccountExists, s)
  else
    let user :=
      constructor name cleanEmail password securityQuestion securityAnswer
        now in
    (Success user, saveToStorage manager user s).

Definition login (email password' now : string)
    (manager : list Achievement.achievement) (s : storage)
    : reply * storage * list Achievement.achievement :=
  let cleanEmail := Str.trim (Str.toLowerCase email) in
  let allUsers := movieLibraryUsers s in
  let userKey := find_key cleanEmail allUsers in
  match get (property userKey) allUsers with
  | None => (Failure NoAccountFound, s, manager)
  | Some userData =>
      if negb (String.eqb (password userData) password')
      then (Failure IncorrectPassword, s, manager)
      else
        let (user, manager) := fromJSON userData now manager in
        let allUsers :=
          if match userKey with
             | Some k => negb (String.eqb k cleanEmail)
             | None => true
             end
          then delete (property userKey) (set cleanEmail userData allUsers)
          else allUsers in
        (Success user,
         Storage allUsers (Some cleanEmail) (movieLibraryRememberMe s),
         manager)
  end.

End Accounts.
(** * The vocabulary of the properties *)

(** ** Terms and document frequency *)

(** [t] is the term [prefix ++ n] of one of the [names]. *)
Definition names_term (prefix : string) (names : list string) (t : string)
    : bool :=
  existsb (fun n => String.eqb t (prefix ++ n)) names.

Definition creator_terms (m : movie) : list string :=
  filter (String.prefix "director:") (keys (extractFeatures m)).

Definition creator_present (m : movie) : Prop :=
  Str.truthy (director m) = true /\
  director m <> "N/A" /\ director m <> "Unknown".

Definition has_term (t : string) (m : movie) : bool :=
  existsb (String.eqb t) (keys (extractFeatures m)).

(** The document frequency of a term: the number of items whose feature
    vector has it. *)
Definition df (t : string) (collection : list movie) : nat :=
  List.length (filter (has_term t) collection).

(** ** Sums and the profile *)

Definition Rsum {A} (f : A -> R) (l : list A) : R :=
  fold_right (fun x acc => f x + acc) 0 l.

(** What [applyTFIDF] computes from the cached table. *)
Definition weigh (cache features : obj R) : obj R :=
  fold_left
    (fun (weighted : obj R) (e : string * R) =>
       let (term, tf) := e in
       set term (tf * or_else (get term cache) 1) weighted)
    features [].

(** The loop of [_buildUserProfileJS] reads the engine only through the
    cached table. *)
Definition accumulate_pure (cache : obj R) (st : obj R * nat) (m : movie)
    : obj R * nat :=
  let (profile, count) := st in
  (fold_left
     (fun (profile : obj R) (e : string * R) =>
        let (term, value) := e in
        set term (or_else (get term profile) 0 + value * ratingBoost_of m)
          profile)
     (weigh cache (extractFeatures m)) profile,
   S count).

(** The boosted TF-IDF weight of term [t] in item [m]; 0 when the item does
    not have the term. *)
Definition contribution (cache : obj R) (t : string) (m : movie) : R :=
  match get t (extractFeatures m) with
  | Some tf => tf * or_else (get t cache) 1 * ratingBoost_of m
  | None => 0
  end.

(** The boosted weight of term [t] in item [m] as the specification words
    it: extracted weight times IDF, the IDF being 1 for a term the table
    lacks, times the rating boost; 0 for an item without the term. *)
Definition boosted_weight (idf : obj R) (t : string) (m : movie) : R :=
  match get t (extractFeatures m) with
  | Some tf =>
      tf * match get t idf with Some i => i | None => 1 end
      * ratingBoost_of m
  | None => 0
  end.

(** ** Vectors *)

(** The weight of a term in a vector, an absent term counting as 0. *)
Definition weight_in (v : obj R) (t : string) : R :=
  match get t v with Some x => x | None => 0 end.

(** The terms of either vector, each once. *)
Definition union_terms (vecA vecB : obj R) : list string :=
  distinct (keys vecA ++ keys vecB).

Definition dot_product (vecA vecB : obj R) : R :=
  Rsum (fun t => weight_in vecA t * weight_in vecB t) (union_terms vecA vecB).

(** The magnitude of [v] over the terms [ts]. *)
Definition magnitude (v : obj R) (ts : list string) : R :=
  sqrt (Rsum (fun t => weight_in v t * weight_in v t) ts).

(** Cosine similarity as the specification words it. *)
Definition cosine (vecA vecB : obj R) : R :=
  let ts := union_terms vecA vecB in
  if Req_dec_T (magnitude vecA ts) 0 then 0
  else if Req_dec_T (magnitude vecB ts) 0 then 0
  else dot_product vecA vecB / (magnitude vecA ts * magnitude vecB ts).

Definition nonnegative (v : obj R) : Prop :=
  forall t x, get t v = Some x -> 0 <= x.

(** ** Similarity on doubles *)

Section Binary64Vocabulary.
Import PrimFloat.
Local Open Scope float_scope.

(** A sum of doubles, accumulated from the left, from 0. *)
Definition sum64 (f : string -> float) (ts : list string) : float :=
  fold_left (fun acc t => acc + f t) ts 0.

(** The weight of [t] in [v], 0 when [t] is absent. *)
Definition weight_in64 (v : obj float) (t : string) : float :=
  Binary64.or_else (get t v) 0.

Definition union_terms64 (vecA vecB : obj float) : list string :=
  distinct (keys vecA ++ keys vecB).

Definition dot_product64 (vecA vecB : obj float) : float :=
  sum64 (fun t => weight_in64 vecA t * weight_in64 vecB t)
    (union_terms64 vecA vecB).

Definition magnitude64 (v : obj float) (ts : list string) : float :=
  sqrt (sum64 (fun t => weight_in64 v t * weight_in64 v t) ts).

(** Cosine similarity as the specification words it, every operation
    rounded to a double. *)
Definition cosine64 (vecA vecB : obj float) : float :=
  let ts := union_terms64 vecA vecB in
  if (magnitude64 vecA ts =? 0) || (magnitude64 vecB ts =? 0) then 0
  else dot_product64 vecA vecB / (magnitude64 vecA ts * magnitude64 vecB ts).

(** A weight that is finite and not negative. *)
Definition weight_ok (x : float) : bool := (0 <=? x) && (x <? infinity).

Definition nonnegative64 (v : obj float) : bool :=
  forallb (fun kv => weight_ok (snd kv)) v.

(** A vector of zero magnitude: it is empty or all its weights are 0. *)
Definition all_zero (v : obj float) : bool :=
  forallb (fun kv => snd kv =? 0) v.

(** The real number a finite double stands for. *)
Definition value (x : float) : R :=
  match FloatOps.Prim2SF x with
  | SpecFloat.S754_finite s m e =>
      (if s then -1 else 1) * IZR (Zpos m) * powerRZ 2 e
  | _ => 0
  end%R.

(** The vector of the real numbers that the weights of [v] stand for. *)
Definition exact (v : obj float) : obj R :=
  map (fun kv => (fst kv, value (snd kv))) v.

(** A double whose sign bit is clear, or NaN. *)
Definition sign_ok (s : SpecFloat.spec_float) : Prop :=
  match s with
  | SpecFloat.S754_nan => True
  | SpecFloat.S754_zero b
  | SpecFloat.S754_infinity b
  | SpecFloat.S754_finite b _ _ => b = false
  end.

Definition not_negative (x : float) : Prop := sign_ok (FloatOps.Prim2SF x).

(** Three contributors of weight 1, and a vector with one weight 0. *)
Definition three_actors : obj float :=
  [("actor:a", 1); ("actor:b", 1); ("actor:c", 1)].
Definition no_signal : obj float := [("actor:a", 0)].

(** A weight whose square is beyond the largest double. *)
Definition huge : obj float := [("actor:a", 0x1p+600)].

End Binary64Vocabulary.

(** ** Rankings *)

(** The number of suggestions of kind [t]. *)
Definition kind_count (t : string) (l : list suggestion) : nat :=
  List.length (filter (has_type t) l).

(** Suggestion [s] comes from the entry [(term, weight)]: its kind and its
    search term are the two parts of the term, its confidence is
    min(round(weight * 20), 99). *)
Definition from_entry (s : suggestion) (e : string * R) : Prop :=
  type s = hd "" (Str.split ":" (fst e)) /\
  searchTerm s = nth_error (Str.split ":" (fst e)) 1 /\
  confidence s = Some (Z.min (round (snd e * 20)) 99).

(** What the specification promises of a ranking of [profile]. *)
Definition well_ranked (profile : obj R) (out : list suggestion) : Prop :=
  (List.length out <= 5)%nat /\
  (kind_count "genre" out <= 1)%nat /\
  (kind_count "director" out <= 1)%nat /\
  (kind_count "actor" out <= 2)%nat /\
  forall s, In s out -> exists e, In e profile /\ from_entry s e.

(** What the loop of [getSmartSuggestions] keeps true of [suggestions]. *)
Definition ranking (profile : obj R) (l : list suggestion) : Prop :=
  (kind_count "genre" l <= 1)%nat /\
  (kind_count "director" l <= 1)%nat /\
  (kind_count "actor" l <= 2)%nat /\
  forall s, In s l -> exists e, In e profile /\ from_entry s e.

(** ** Gateway operations *)

(** The three gateway operations and what they resolve to. *)
Inductive operation : Type :=
| BuildProfile (collection : list movie)
| ScoreItem (m : movie)
| FetchSuggestions (collection : list movie).

Inductive result : Type :=
| Profiled (r : profile_result)
| Scored (x : R)
| Suggested (l : list suggestion).

Definition run_op (net : service) (op : operation) : G result :=
  match op with
  | BuildProfile c => r <- buildUserProfile net c ;; ret (Profiled r)
  | ScoreItem m => x <- scoreMovieAsync net m ;; ret (Scored x)
  | FetchSuggestions c => l <- getSmartSuggestionsAsync net c ;; ret (Suggested l)
  end.

(** The local pipeline of each operation: the JS fallback. *)
Definition local_op (op : operation) : M result :=
  match op with
  | BuildProfile c =>
      p <- _buildUserProfileJS c ;; ret (Profiled (LocalProfile p))
  | ScoreItem m => s <- scoreMovie m ;; ret (Scored (IZR s))
  | FetchSuggestions c => l <- getSmartSuggestions c ;; ret (Suggested l)
  end.

(** A sequence of calls on one engine instance, each awaited. *)
Fixpoint run_ops (net : service) (ops : list operation) : G (list result) :=
  match ops with
  | [] => ret []
  | op :: rest =>
      r <- run_op net op ;;
      rs <- run_ops net rest ;;
      ret (r :: rs)
  end.

Fixpoint local_ops (ops : list operation) : M (list result) :=
  match ops with
  | [] => ret []
  | op :: rest =>
      r <- local_op op ;;
      rs <- local_ops rest ;;
      ret (r :: rs)
  end.

(** The request an operation sends when it tries the remote service. *)
Definition request_of (op : operation) : request :=
  match op with
  | BuildProfile c => PostProfile (_serializeCollection c)
  | ScoreItem m => PostScore (_serializeMovie m)
  | FetchSuggestions c => PostRecommend (_serializeCollection c)
  end.

(** The remote call of [op] raised: the fetch was rejected or timed out,
    the body was not JSON, or reading [data.success] off a [null] body
    threw (the profile call returns the body unread). *)
Definition threw (net : service) (log : list request) (op : operation)
    : bool :=
  match op with
  | BuildProfile c =>
      match profile net log (_serializeCollection c) with
      | Rejected => true
      | _ => false
      end
  | ScoreItem m =>
      match score net log (_serializeMovie m) with
      | Body _ => false
      | _ => true
      end
  | FetchSuggestions c =>
      match recommend net log (_serializeCollection c) with
      | Body _ => false
      | _ => true
      end
  end.

(** The remote call of [op] returned a body that does not report
    success. *)
Definition declined (net : service) (log : list request) (op : operation)
    : bool :=
  match op with
  | BuildProfile c =>
      match profile net log (_serializeCollection c) with
      | Rejected => false
      | JsonNull => true
      | Body b => negb (p_success b)
      end
  | ScoreItem m =>
      match score net log (_serializeMovie m) with
      | Body b => negb (s_success b)
      | _ => false
      end
  | FetchSuggestions c =>
      match recommend net log (_serializeCollection c) with
      | Body b => negb (r_success b)
      | _ => false
      end
  end.

(** The remote call of [op] failed, one way or the other. *)
Definition remote_failed (net : service) (log : list request)
    (op : operation) : bool :=
  threw net log op || declined net log op.

Definition is_score (op : operation) : bool :=
  match op with ScoreItem _ => true | _ => false end.

Definition demote (e : engine) : engine := set_serverAvailable (Some false) e.

(** ** Sample inputs *)

(** An item with two directors and four actors. *)
Definition two_directors : movie :=
  Movie "Heat" "Action, Crime" "A Director, B Director"
    "w, x, y, z" "1995" 5 "" "tt0113277".

Definition action_movie : movie :=
  Movie "Heat" "Action" "" "" "" 0 "" "tt0113277".

(** An engine that found the service up and holds a one-term profile. *)
Definition action_engine : engine :=
  Engine (Some true) [] [("genre:action", 2)].

(** A service that is down: every request is rejected. *)
Definition offline : service :=
  Service (fun _ => Rejected) (fun _ _ => Rejected) (fun _ _ => Rejected)
    (fun _ _ => Rejected).

(** A service that answers every call with a body that does not report
    success. *)
Definition declining : service :=
  Service (fun _ => Body (Some "ok"))
    (fun _ _ => Body (ProfileBody false None))
    (fun _ _ => Body (ScoreBody false None))
    (fun _ _ => Body (RecommendBody false [] None)).

(** A service that is up and answers /recommend with one suggestion. *)
Definition helpful : service :=
  Service (fun _ => Body (Some "ok"))
    (fun _ _ => Body (ProfileBody true None))
    (fun _ _ => Body (ScoreBody true (Some 50)))
    (fun _ _ =>
       Body (RecommendBody true
               [Suggestion "genre" (Text "More action") (Some "action")
                  (Some 90%Z)]
               None)).


(** ** Engine invariants *)

(** No cached weight is negative. *)
Definition sane (e : engine) : Prop :=
  nonnegative (userProfile e) /\ nonnegative (idfCache e).

(** ** Order of entries and suggestions *)

(** The first entry weighs at least as much as the second. *)
Definition heavier (a b : string * R) : Prop := snd b <= snd a.

(** The entries of weight [w]. *)
Definition of_weight (w : R) (l : obj R) : obj R :=
  filter (fun e => if Req_dec_T (snd e) w then true else false) l.

(** The confidence a suggestion shows; 0 when it has none. *)
Definition confidence_shown (s : suggestion) : Z :=
  match confidence s with Some c => c | None => 0%Z end.

Definition more_confident (a b : suggestion) : Prop :=
  (confidence_shown b <= confidence_shown a)%Z.

(** ** The gateway: answers and probes *)

(** The profile [buildUserProfile] caches from the traits of a /profile
    answer: a later trait of the same name overwrites an earlier one. *)
Definition traits_profile (traits : option (list (string * R))) : obj R :=
  match traits with
  | Some ts => fold_left (fun p (t : string * R) => set (fst t) (snd t) p) ts []
  | None => []
  end.

(** The profile [getSmartSuggestionsAsync] caches from the trait names of a
    /recommend answer. *)
Definition names_profile (traits : option (list string)) : obj R :=
  match traits with
  | Some ts => assign_traits 0 ts []
  | None => []
  end.

(** The number of health probes in a log. *)
Definition probes (log : list request) : nat :=
  List.length
    (filter (fun q => match q with GetHealth => true | _ => false end) log).

(** ** Simple recommendations *)

(** The number of items of genre field [g]. *)
Definition genre_count (g : string) (collection : list movie) : nat :=
  List.length (filter (fun m => String.eqb (genre m) g) collection).

Definition more_items (a b : string * nat) : Prop := (snd b <= snd a)%nat.

(** The tally of first-listed directors in [getRecommendations]. *)
Definition directorCount_of (collection : list movie) : obj nat :=
  fold_left
    (fun o m =>
       if Str.truthy (director m)
          && negb (String.eqb (director m) "Unknown")
       then bump (Str.trim (hd "" (Str.split "," (director m)))) o
       else o)
    collection [].

(** ** The event bus *)

(** The listeners of an event, none when the event is unknown. *)
Definition listeners (eventName : string) (b : bus) : list listener :=
  match get eventName (_events b) with Some l => l | None => [] end.

(** The number of registrations of [l] among [ls]. *)
Definition registrations (l : listener) (ls : list listener) : nat :=
  List.length (filter (fun cb => same_listener cb l) ls).

(** Every closure of [once] on the bus was made by this bus. *)
Definition bus_wf (b : bus) : Prop :=
  forall ev w e f,
    In (OnceWrapper w e f) (listeners ev b) -> (w < allocated b)%nat.

(** Callbacks that leave the bus as they find it. *)
Definition quiet {D} (act : nat -> D -> bus -> bus * bool) : Prop :=
  forall f d b, fst (act f d b) = b.

(** A callback that does nothing and one that only throws. *)
Definition silent (f : nat) (d : unit) (b : bus) : bus * bool := (b, false).
Definition thrower (f : nat) (d : unit) (b : bus) : bus * bool := (b, true).

(** ** The library of a user *)

(** The identifiers of a list of movies, in order. *)
Definition ids (l : list User.entry) : list string :=
  map (fun m => imdbID (User.item m)) l.

(** No identifier is twice in the collection, twice on the watchlist, or in
    both. *)
Definition library_ok (u : User.user) : Prop :=
  NoDup (ids (User.collection u)) /\
  NoDup (ids (User.watchlist u)) /\
  (forall id, In id (ids (User.watchlist u)) ->
              ~ In id (ids (User.collection u))).

(** The user a method leaves, what it reports, what it did. *)
Definition user_after (x : User.status * User.user * list User.effect)
    : User.user := snd (fst x).
Definition succeeded (x : User.status * User.user * list User.effect)
    : bool := User.success (fst (fst x)).
Definition effects_of (x : User.status * User.user * list User.effect)
    : list User.effect := snd x.

(** A sample movie of a library. *)
Definition heat : User.entry := User.Entry two_directors [] "2024-01-01".

(** The number of movies of the collection whose mood is [g]. *)
Definition mood_count (g : string) (u : User.user) : nat :=
  List.length
    (filter (fun m => String.eqb (mood (User.item m)) g) (User.collection u)).

(** A call that changed nothing and did nothing. *)
Definition nothing_done (x : User.status * User.user * list User.effect)
    (u : User.user) : Prop :=
  user_after x = u /\ effects_of x = [].

(** ** Achievements *)

(** The achievement locked again, as the constructor makes it. *)
Definition relocked (a : Achievement.achievement) : Achievement.achievement :=
  Achievement.create (Achievement.id a) (Achievement.title a)
    (Achievement.condition a).

(** A locked achievement has no date. *)
Definition dated_when_unlocked (a : Achievement.achievement) : Prop :=
  Achievement.unlocked a = false -> Achievement.unlockedDate a = None.

(** What a pass of [checkAll] makes of one achievement: it stays what it is
    when it was unlocked or its condition fails, and is unlocked
    otherwise. *)
Definition checked (user : User.user) (a a' : Achievement.achievement)
    : Prop :=
  Achievement.id a' = Achievement.id a /\
  Achievement.title a' = Achievement.title a /\
  Achievement.condition a' = Achievement.condition a /\
  Achievement.unlocked a' =
    (Achievement.unlocked a || Achievement.condition a user) /\
  (Achievement.unlocked a = true \/ Achievement.condition a user = false ->
   a' = a).

(** The achievements a pass unlocks: locked before, condition met. *)
Definition due (user : User.user) (a : Achievement.achievement) : bool :=
  negb (Achievement.unlocked a) && Achievement.condition a user.

(** A clock that always shows the same time. *)
Definition noon (i : nat) : string := "2024-03-03T12:00:00.000Z".

(** ** Accounts *)

(** An e-mail as the accounts know it: lower case, no blanks around. *)
Definition clean (email : string) : string :=
  Str.trim (Str.toLowerCase email).

(** What [login] replies, the storage it leaves, the achievements it
    leaves. *)
Definition reply_of
    (x : Accounts.reply * Accounts.storage * list Achievement.achievement)
    : Accounts.reply := fst (fst x).
Definition storage_of
    (x : Accounts.reply * Accounts.storage * list Achievement.achievement)
    : Accounts.storage := snd (fst x).
Definition manager_of
    (x : Accounts.reply * Accounts.storage * list Achievement.achievement)
    : list Achievement.achievement := snd x.

(** A browser that never saw the application. *)
Definition fresh_storage : Accounts.storage := Accounts.Storage [] None None.
(** * Properties *)

(** ** Dictionaries *)

Section ObjFacts.
Context {A : Type}.
Implicit Types (o : obj A) (k : string) (v : A).

Lemma get_set_eq k v o : get k (set k v o) = Some v.
Proof.
  induction o as [|[k' v'] r IH]; simpl.
  - now rewrite String.eqb_refl.
  - destruct (String.eqb k k') eqn:E; simpl; rewrite E; auto.
Qed.

Lemma get_set_neq k k' v o : k <> k' -> get k (set k' v o) = get k o.
Proof.
  intros Hne. induction o as [|[k2 v2] r IH]; simpl.
  - apply String.eqb_neq in Hne. now rewrite Hne.
  - destruct (String.eqb k' k2) eqn:E; simpl.
    + apply String.eqb_eq in E; subst k2.
      apply String.eqb_neq in Hne. now rewrite Hne.
    + now rewrite IH.
Qed.

Lemma get_set k k' v o :
  get k (set k' v o) = if String.eqb k k' then Some v else get k o.
Proof.
  destruct (String.eqb k k') eqn:E.
  - apply String.eqb_eq in E; subst. apply get_set_eq.
  - apply String.eqb_neq in E. now apply get_set_neq.
Qed.

Lemma get_None_iff k o : get k o = None <-> ~ In k (keys o).
Proof.
  induction o as [|[k' v'] r IH]; simpl; [tauto|].
  destruct (String.eqb k k') eqn:E.
  - apply String.eqb_eq in E; subst. split; [discriminate | tauto].
  - apply String.eqb_neq in E. rewrite IH. intuition congruence.
Qed.

Lemma get_Some_In k v o : get k o = Some v -> In k (keys o).
Proof.
  intros H. destruct (in_dec string_dec k (keys o)) as [|n]; auto.
  apply get_None_iff in n. congruence.
Qed.

Lemma In_keys_get k o : In k (keys o) -> exists v, get k o = Some v.
Proof.
  intros H. destruct (get k o) eqn:E; eauto.
  apply get_None_iff in E. tauto.
Qed.

Lemma keys_set_in k v o : In k (keys o) -> keys (set k v o) = keys o.
Proof.
  induction o as [|[k' v'] r IH]; simpl; [tauto|].
  intros [->|H].
  - now rewrite String.eqb_refl.
  - destruct (String.eqb k k'); simpl; [reflexivity|]. now rewrite IH.
Qed.

Lemma keys_set_notin k v o :
  ~ In k (keys o) -> keys (set k v o) = keys o ++ [k].
Proof.
  induction o as [|[k' v'] r IH]; simpl; [reflexivity|].
  intros H. destruct (String.eqb k k') eqn:E.
  - apply String.eqb_eq in E. subst. tauto.
  - simpl. rewrite IH; tauto.
Qed.

Lemma NoDup_keys_set k v o : NoDup (keys o) -> NoDup (keys (set k v o)).
Proof.
  intros H. destruct (in_dec string_dec k (keys o)) as [i|n].
  - now rewrite keys_set_in.
  - rewrite keys_set_notin by assumption.
    apply NoDup_app; auto.
    + repeat constructor. simpl. tauto.
    + intros x Hx [<-|[]]. tauto.
Qed.

Lemma In_keys_set k k' v o :
  In k (keys (set k' v o)) <-> k = k' \/ In k (keys o).
Proof.
  destruct (in_dec string_dec k' (keys o)) as [i|n].
  - rewrite keys_set_in by assumption. intuition congruence.
  - rewrite keys_set_notin by assumption. rewrite in_app_iff. simpl.
    intuition congruence.
Qed.
End ObjFacts.

(** ** Feature extraction *)

Lemma get_assign_all t p w names f :
  get t (assign_all p w names f) =
  if names_term p names t then Some w else get t f.
Proof.
  unfold assign_all, names_term. revert f.
  induction names as [|n r IH]; intros f; simpl; [reflexivity|].
  rewrite IH, get_set.
  destruct (existsb _ r); [now rewrite orb_true_r|].
  now rewrite orb_false_r.
Qed.

Lemma prefix_neq p t k :
  String.prefix p t = true -> String.prefix p k = false -> t <> k.
Proof. intros H1 H2 ->. congruence. Qed.

Lemma get_set_other p t k (v : R) o :
  String.prefix p t = true -> String.prefix p k = false ->
  get t (set k v o) = get t o.
Proof. intros H1 H2. apply get_set_neq. eapply prefix_neq; eauto. Qed.

Lemma names_term_other p q names t :
  String.prefix p t = true ->
  (forall n, String.prefix p (q ++ n) = false) ->
  names_term q names t = false.
Proof.
  intros H1 H2. unfold names_term.
  induction names as [|n r IH]; simpl; [reflexivity|].
  rewrite IH, orb_false_r. apply String.eqb_neq.
  eapply prefix_neq; eauto.
Qed.

Lemma get_assign_other p q t w names o :
  String.prefix p t = true ->
  (forall n, String.prefix p (q ++ n) = false) ->
  get t (assign_all q w names o) = get t o.
Proof.
  intros H1 H2. rewrite get_assign_all.
  now rewrite (names_term_other p q names t H1 H2).
Qed.

Lemma sentinel_test s x : s <> x -> negb (String.eqb s x) = true.
Proof. intros H. apply String.eqb_neq in H. now rewrite H. Qed.

Ltac other_namespace :=
  first [ rewrite (get_set_other "director:") by (assumption || reflexivity)
        | rewrite (get_set_other "actor:") by (assumption || reflexivity)
        | rewrite (get_assign_other "director:")
            by (assumption || (intros; reflexivity))
        | rewrite (get_assign_other "actor:")
            by (assumption || (intros; reflexivity)) ].

Lemma creator_weights (m : movie) (t : string) :
  creator_present m ->
  String.prefix "director:" t = true ->
  get t (extractFeatures m) =
  if names_term "director:" (names_of (director m)) t
  then Some 1.5 else None.
Proof.
  intros (Hd & Hna & Hun) Ht. unfold extractFeatures.
  rewrite Hd, (sentinel_test _ _ Hna), (sentinel_test _ _ Hun). simpl andb.
  cbv iota.
  destruct (Str.truthy (mood m)); [other_namespace|];
  (destruct (Rgtb (rating m) 0); [other_namespace|]);
  (destruct (Str.truthy (year m)); [other_namespace|]);
  (destruct (Str.truthy (actors m) && negb (String.eqb (actors m) "N/A"));
   [other_namespace|]);
  rewrite get_assign_all;
  (destruct (names_term "director:" _ t); [reflexivity|]);
  (destruct (Str.truthy (genre m)); [other_namespace|]); reflexivity.
Qed.

Lemma contributor_weights (m : movie) (t : string) :
  String.prefix "actor:" t = true ->
  get t (extractFeatures m) =
  if Str.truthy (actors m) && negb (String.eqb (actors m) "N/A")
     && names_term "actor:" (firstn 3 (names_of (actors m))) t
  then Some 1.0 else None.
Proof.
  intros Ht. unfold extractFeatures.
  destruct (Str.truthy (mood m)); [other_namespace|];
  (destruct (Rgtb (rating m) 0); [other_namespace|]);
  (destruct (Str.truthy (year m)); [other_namespace|]);
  (destruct (Str.truthy (actors m) && negb (String.eqb (actors m) "N/A"));
   simpl andb;
   [rewrite get_assign_all;
    destruct (names_term "actor:" _ t); [reflexivity|] |]);
  (destruct (Str.truthy (director m) && negb (String.eqb (director m) "N/A")
             && negb (String.eqb (director m) "Unknown"));
   [other_namespace|]);
  (destruct (Str.truthy (genre m)); [other_namespace|]); reflexivity.
Qed.

Lemma Rgtb_true x y : x > y -> Rgtb x y = true.
Proof. intros H. unfold Rgtb. destruct (Rgt_dec x y); [reflexivity|lra]. Qed.

Lemma Rgtb_false x y : x <= y -> Rgtb x y = false.
Proof. intros H. unfold Rgtb. destruct (Rgt_dec x y); [lra|reflexivity]. Qed.

Lemma Rgeb_true x y : x >= y -> Rgeb x y = true.
Proof. intros H. unfold Rgeb. destruct (Rge_dec x y); [reflexivity|lra]. Qed.

Lemma Rgeb_false x y : x < y -> Rgeb x y = false.
Proof. intros H. unfold Rgeb. destruct (Rge_dec x y); [lra|reflexivity]. Qed.

(** C2, as amended: for every item whose director is present and is
    neither "N/A" nor "Unknown", a term in the creator namespace is assigned
    exactly when it names one of the comma-separated creators (trimmed,
    lower-cased), and then at weight 1.5; a term in the contributor
    namespace is assigned exactly when the actors field is present, is not
    "N/A" and the term names one of its first three entries, and then at
    weight 1.0. *)
Theorem extract_creators_and_contributors (m : movie) (t : string) :
  creator_present m ->
  (String.prefix "director:" t = true ->
   get t (extractFeatures m) =
   if names_term "director:" (names_of (director m)) t
   then Some 1.5 else None) /\
  (String.prefix "actor:" t = true ->
   get t (extractFeatures m) =
   if Str.truthy (actors m) && negb (String.eqb (actors m) "N/A")
      && names_term "actor:" (firstn 3 (names_of (actors m))) t
   then Some 1.0 else None).
Proof.
  intros Hm. split; intros Ht.
  - now apply creator_weights.
  - now apply contributor_weights.
Qed.

Lemma two_directors_present : creator_present two_directors.
Proof. repeat split; discriminate. Qed.

Lemma extract_creators_and_contributors_witness :
  get "director:b director" (extractFeatures two_directors) = Some 1.5 /\
  get "actor:z" (extractFeatures two_directors) = None.
Proof.
  split.
  - exact (proj1 (extract_creators_and_contributors two_directors
                    "director:b director" two_directors_present)
             eq_refl).
  - exact (proj2 (extract_creators_and_contributors two_directors
                    "actor:z" two_directors_present)
             eq_refl).
Defined.

(** C2, as stated, fails: an item with two comma-separated directors gets
    two creator terms, not exactly one. *)
Lemma creator_term_not_unique :
  ~ (forall m : movie,
        creator_present m -> List.length (creator_terms m) = 1%nat).
Proof.
  intros H. specialize (H two_directors two_directors_present).
  assert (E : creator_terms two_directors =
              ["director:a director"; "director:b director"]).
  { unfold creator_terms, extractFeatures, two_directors. simpl.
    rewrite (Rgtb_true 5 0) by lra. reflexivity. }
  rewrite E in H. discriminate.
Qed.

(** ** The IDF table *)

Lemma existsb_eqb_In t l : existsb (String.eqb t) l = true <-> In t l.
Proof.
  rewrite existsb_exists. split.
  - intros (x & Hx & E). apply String.eqb_eq in E. now subst.
  - intros H. exists t. split; [assumption | apply String.eqb_refl].
Qed.

Lemma existsb_eqb_notIn t l : existsb (String.eqb t) l = false <-> ~ In t l.
Proof.
  rewrite <- existsb_eqb_In. destruct (existsb _ l); intuition congruence.
Qed.

Lemma NoDup_keys_assign_all p w names (f : obj R) :
  NoDup (keys f) -> NoDup (keys (assign_all p w names f)).
Proof.
  unfold assign_all. revert f.
  induction names as [|n r IH]; intros f H; simpl; [assumption|].
  apply IH. now apply NoDup_keys_set.
Qed.

Lemma NoDup_keys_extractFeatures m : NoDup (keys (extractFeatures m)).
Proof.
  unfold extractFeatures.
  repeat match goal with
         | |- NoDup (keys (if ?c then _ else _)) => destruct c
         | |- NoDup (keys (set _ _ _)) => apply NoDup_keys_set
         | |- NoDup (keys (assign_all _ _ _ _)) => apply NoDup_keys_assign_all
         end; constructor.
Qed.

(** The [seenTerms] test of [computeIDF] never fires: the keys of an object
    are distinct. *)
Lemma count_terms_bump tdc m :
  count_terms tdc m =
  fold_left (fun o t => bump t o) (keys (extractFeatures m)) tdc.
Proof.
  unfold count_terms.
  pose proof (NoDup_keys_extractFeatures m) as Hnd.
  assert (Hseen : forall t, In t (keys (extractFeatures m)) ->
                            ~ In t (@nil string)) by (simpl; tauto).
  revert Hnd Hseen. generalize (@nil string) as seen.
  revert tdc. generalize (keys (extractFeatures m)) as l.
  induction l as [|t r IH]; intros tdc seen Hnd Hseen; simpl; [reflexivity|].
  inversion Hnd as [|? ? Hnotin Hnd']; subst.
  assert (E : existsb (String.eqb t) seen = false).
  { apply existsb_eqb_notIn. apply Hseen. now left. }
  rewrite E. unfold bump at 2. apply IH; [assumption|].
  intros x Hx [<-|Hin]; [tauto|]. apply (Hseen x); [now right | assumption].
Qed.

Lemma get_fold_bump t l tdc :
  NoDup l ->
  get t (fold_left (fun o t => bump t o) l tdc) =
  if existsb (String.eqb t) l then Some (S (or_zero (get t tdc)))
  else get t tdc.
Proof.
  revert tdc. induction l as [|k r IH]; intros tdc Hnd; simpl;
    [reflexivity|].
  inversion Hnd as [|? ? Hnotin Hnd']; subst.
  rewrite IH by assumption. unfold bump. rewrite get_set.
  destruct (String.eqb t k) eqn:E; simpl.
  - apply String.eqb_eq in E; subst k.
    apply existsb_eqb_notIn in Hnotin. rewrite Hnotin.
    now rewrite Nat.add_1_r.
  - reflexivity.
Qed.

Lemma get_termDocCount t collection tdc :
  get t (fold_left count_terms collection tdc) =
  match df t collection with
  | O => get t tdc
  | S n => Some (or_zero (get t tdc) + S n)%nat
  end.
Proof.
  unfold df. revert tdc.
  induction collection as [|m r IH]; intros tdc; simpl; [reflexivity|].
  rewrite IH, count_terms_bump, get_fold_bump
    by apply NoDup_keys_extractFeatures.
  fold (has_term t m). destruct (has_term t m); simpl.
  - destruct (List.length (filter (has_term t) r)); f_equal; lia.
  - reflexivity.
Qed.

Lemma NoDup_keys_termDocCount collection tdc :
  NoDup (keys tdc) -> NoDup (keys (fold_left count_terms collection tdc)).
Proof.
  revert tdc. induction collection as [|m r IH]; intros tdc H; simpl;
    [assumption|].
  apply IH. rewrite count_terms_bump.
  generalize (keys (extractFeatures m)) as l. revert tdc H.
  intros tdc H l. revert tdc H.
  induction l as [|k l IHl]; intros tdc H; simpl; [assumption|].
  apply IHl. now apply NoDup_keys_set.
Qed.

Lemma get_fold_set_map {A} (f : A -> R) t (o : obj A) (acc : obj R) :
  NoDup (keys o) ->
  get t (fold_left
           (fun (idf : obj R) (e : string * A) =>
              let (term, count) := e in set term (f count) idf) o acc) =
  match get t o with
  | Some c => Some (f c)
  | None => get t acc
  end.
Proof.
  revert acc. induction o as [|[k c] r IH]; intros acc Hnd; simpl;
    [reflexivity|].
  inversion Hnd as [|? ? Hnotin Hnd']; subst.
  rewrite IH by assumption. rewrite get_set.
  destruct (String.eqb t k) eqn:E; [|reflexivity].
  apply String.eqb_eq in E; subst k.
  apply get_None_iff in Hnotin. now rewrite Hnotin.
Qed.

Lemma df_le_length t collection : (df t collection <= List.length collection)%nat.
Proof. unfold df. apply filter_length_le. Qed.

Lemma idf_value_ge_1 (n d : nat) :
  (0 < d <= n)%nat -> 1 <= ln (INR n / INR d) + 1.
Proof.
  intros [Hd Hn].
  assert (0 < INR d) by now apply lt_0_INR.
  assert (INR d <= INR n) by now apply le_INR.
  assert (Hq : 1 <= INR n / INR d).
  { apply Rmult_le_reg_r with (INR d); [assumption|].
    unfold Rdiv. rewrite Rmult_assoc, Rinv_l by lra. lra. }
  destruct Hq as [Hlt|Heq].
  - pose proof (ln_increasing 1 _ Rlt_0_1 Hlt) as Hln.
    rewrite ln_1 in Hln. lra.
  - rewrite <- Heq, ln_1. lra.
Qed.

Lemma computeIDF_table (collection : list movie) (e : engine) (t : string) :
  let idf := fst (computeIDF collection e) in
  let N := List.length collection in
  idfCache (snd (computeIDF collection e)) = idf /\
  get t idf =
    (if (df t collection =? 0)%nat then None
     else Some (ln (INR N / INR (df t collection)) + 1)) /\
  (forall v, get t idf = Some v -> 1 <= v).
Proof.
  cbv zeta. unfold computeIDF, bind, modify, ret. simpl.
  split; [reflexivity|].
  assert (E : get t
                (fold_left
                   (fun (idf : obj R) (e0 : string * nat) =>
                      let (term, count) := e0 in
                      set term
                        (ln (INR (List.length collection) / INR count) + 1)
                        idf)
                   (fold_left count_terms collection []) []) =
              if (df t collection =? 0)%nat then None
              else Some (ln (INR (List.length collection)
                             / INR (df t collection)) + 1)).
  { rewrite (get_fold_set_map
               (fun c => ln (INR (List.length collection) / INR c) + 1))
      by (apply NoDup_keys_termDocCount; constructor).
    rewrite get_termDocCount. simpl.
    destruct (df t collection); simpl; [reflexivity|].
    reflexivity. }
  split; [exact E|].
  intros v Hv. rewrite E in Hv.
  destruct (df t collection =? 0)%nat eqn:Hz; [discriminate|].
  injection Hv as <-. apply Nat.eqb_neq in Hz.
  apply idf_value_ge_1. pose proof (df_le_length t collection). lia.
Qed.

(** C4: [computeIDF] gives every term that occurs in the collection the
    value ln(N / df) + 1, where N is the size of the collection and df the
    number of items whose feature vector has the term, gives no value to
    any other term, caches the table, and every value it gives is at
    least 1. *)
Theorem computeIDF_spec (collection : list movie) (e : engine) (t : string) :
  let idf := fst (computeIDF collection e) in
  let N := List.length collection in
  idfCache (snd (computeIDF collection e)) = idf /\
  get t idf =
    (if (df t collection =? 0)%nat then None
     else Some (ln (INR N / INR (df t collection)) + 1)) /\
  (forall v, get t idf = Some v -> 1 <= v).
Proof. apply computeIDF_table. Qed.

(** ** The profile *)

(** A loop that updates one entry per entry of [w], the new value computed
    from the old one: each key of [w] is visited once. *)
Lemma get_fold_update {A B} (g : string -> option B -> A -> B) t
    (w : obj A) (p : obj B) :
  NoDup (keys w) ->
  get t (fold_left
           (fun (p : obj B) (e : string * A) =>
              let (k, v) := e in set k (g k (get k p) v) p) w p) =
  match get t w with
  | Some v => Some (g t (get t p) v)
  | None => get t p
  end.
Proof.
  revert p. induction w as [|[k c] r IH]; intros p Hnd; simpl;
    [reflexivity|].
  inversion Hnd as [|? ? Hnotin Hnd']; subst.
  rewrite IH by assumption. rewrite !get_set.
  destruct (String.eqb t k) eqn:E; [|reflexivity].
  apply String.eqb_eq in E; subst k.
  apply get_None_iff in Hnotin. now rewrite Hnotin.
Qed.

Lemma NoDup_keys_fold_update {A B} (g : string -> option B -> A -> B)
    (w : obj A) (p : obj B) :
  NoDup (keys p) ->
  NoDup (keys (fold_left
                 (fun (p : obj B) (e : string * A) =>
                    let (k, v) := e in set k (g k (get k p) v) p) w p)).
Proof.
  revert p. induction w as [|[k c] r IH]; intros p H; simpl; [assumption|].
  apply IH. now apply NoDup_keys_set.
Qed.

Lemma bind_run {S A B} (m : State S A) (f : A -> State S B) s a s' :
  m s = (a, s') -> bind m f s = f a s'.
Proof. unfold bind. now intros ->. Qed.

Lemma applyTFIDF_run features e :
  applyTFIDF features e = (weigh (idfCache e) features, e).
Proof.
  unfold applyTFIDF, weigh. generalize (@nil (string * R)) as acc.
  induction features as [|[term tf] r IH]; intros acc; simpl;
    [reflexivity|].
  unfold bind at 1. unfold bind at 1. unfold gets, ret. apply IH.
Qed.

Lemma get_weigh cache features t :
  NoDup (keys features) ->
  get t (weigh cache features) =
  option_map (fun tf => tf * or_else (get t cache) 1) (get t features).
Proof.
  intros H. unfold weigh.
  rewrite (get_fold_update (fun k _ tf => tf * or_else (get k cache) 1))
    by assumption.
  destruct (get t features); reflexivity.
Qed.

Lemma NoDup_keys_weigh cache features : NoDup (keys (weigh cache features)).
Proof.
  unfold weigh.
  apply (NoDup_keys_fold_update
           (fun k _ tf => tf * or_else (get k cache) 1)).
  constructor.
Qed.

Lemma or_else_0 x : or_else x 0 = match x with Some v => v | None => 0 end.
Proof.
  destruct x as [v|]; simpl; [|reflexivity].
  destruct (Req_dec_T v 0); congruence.
Qed.

Lemma has_term_get t m :
  has_term t m = match get t (extractFeatures m) with
                 | Some _ => true
                 | None => false
                 end.
Proof.
  unfold has_term. destruct (get t (extractFeatures m)) eqn:E.
  - apply existsb_eqb_In. eapply get_Some_In; eauto.
  - apply existsb_eqb_notIn. now apply get_None_iff.
Qed.

Lemma Rsum_contribution_absent cache t collection :
  existsb (has_term t) collection = false ->
  Rsum (contribution cache t) collection = 0.
Proof.
  induction collection as [|m r IH]; simpl; [reflexivity|].
  intros H. apply orb_false_elim in H as [Hm Hr].
  rewrite IH by assumption. unfold contribution.
  rewrite has_term_get in Hm.
  destruct (get t (extractFeatures m)); [discriminate | lra].
Qed.

Lemma accumulate_step p c m e :
  accumulate (p, c) m e =
  ((fold_left
      (fun (profile : obj R) (e0 : string * R) =>
         let (term, value) := e0 in
         set term (or_else (get term profile) 0
                   + value * ratingBoost_of m) profile)
      (weigh (idfCache e) (extractFeatures m)) p, S c), e).
Proof. unfold accumulate, bind. now rewrite applyTFIDF_run. Qed.

Lemma accumulate_run collection : forall p c e,
  NoDup (keys p) ->
  exists p',
    forEach collection accumulate (p, c) e =
      ((p', (c + List.length collection)%nat), e) /\
    NoDup (keys p') /\
    forall t,
      get t p' =
      if existsb (has_term t) collection
      then Some (or_else (get t p) 0
                 + Rsum (contribution (idfCache e) t) collection)
      else get t p.
Proof.
  induction collection as [|m r IH]; intros p c e Hp.
  - exists p. simpl. rewrite Nat.add_0_r. repeat split; auto.
  - set (p1 := fold_left
                 (fun (profile : obj R) (e0 : string * R) =>
                    let (term, value) := e0 in
                    set term (or_else (get term profile) 0
                              + value * ratingBoost_of m) profile)
                 (weigh (idfCache e) (extractFeatures m)) p).
    assert (Hp1 : NoDup (keys p1)).
    { apply (NoDup_keys_fold_update
               (fun _ old v => or_else old 0 + v * ratingBoost_of m)).
      assumption. }
    destruct (IH p1 (S c) e Hp1) as (p' & Hrun & Hnd & Hget).
    exists p'. split; [|split; [assumption|]].
    + change (forEach (m :: r) accumulate (p, c) e)
        with (let (a, s') := accumulate (p, c) m e in
              forEach r accumulate a s').
      rewrite accumulate_step.
      fold p1. rewrite Hrun. simpl. f_equal. f_equal. f_equal. lia.
    + intros t. rewrite Hget. simpl existsb. simpl Rsum.
      assert (E1 : get t p1 =
                   match get t (extractFeatures m) with
                   | Some tf =>
                       Some (or_else (get t p) 0
                             + tf * or_else (get t (idfCache e)) 1
                               * ratingBoost_of m)
                   | None => get t p
                   end).
      { unfold p1.
        rewrite (get_fold_update
                   (fun _ old v => or_else old 0 + v * ratingBoost_of m))
          by apply NoDup_keys_weigh.
        rewrite get_weigh by apply NoDup_keys_extractFeatures.
        destruct (get t (extractFeatures m)); reflexivity. }
      rewrite has_term_get, E1.
      assert (Ec : contribution (idfCache e) t m =
                   match get t (extractFeatures m) with
                   | Some tf =>
                       tf * or_else (get t (idfCache e)) 1 * ratingBoost_of m
                   | None => 0
                   end) by reflexivity.
      destruct (get t (extractFeatures m)) as [tf|]; simpl orb;
        rewrite Ec.
      * rewrite !or_else_0.
        destruct (existsb (has_term t) r) eqn:Er; f_equal.
        -- lra.
        -- rewrite Rsum_contribution_absent by assumption. lra.
      * destruct (existsb (has_term t) r); [f_equal; lra | reflexivity].
Qed.

Lemma get_divide c : forall l p t,
  NoDup l ->
  get t (fold_left (divide_entry c) l p) =
  if existsb (String.eqb t) l
  then option_map (fun v => v / INR c) (get t p)
  else get t p.
Proof.
  induction l as [|k r IH]; intros p t Hnd; simpl; [reflexivity|].
  inversion Hnd as [|? ? Hnotin Hnd']; subst.
  rewrite IH by assumption.
  assert (E : get t (divide_entry c p k) =
              if String.eqb t k
              then option_map (fun v => v / INR c) (get t p)
              else get t p).
  { unfold divide_entry. destruct (String.eqb t k) eqn:Ek.
    - apply String.eqb_eq in Ek; subst k.
      destruct (get t p) eqn:Eg; simpl; [apply get_set_eq | exact Eg].
    - apply String.eqb_neq in Ek.
      destruct (get k p); [now apply get_set_neq | reflexivity]. }
  rewrite E. destruct (String.eqb t k) eqn:Ek; simpl; [|reflexivity].
  apply String.eqb_eq in Ek; subst k.
  apply existsb_eqb_notIn in Hnotin. now rewrite Hnotin.
Qed.

Lemma get_divide_all c p t :
  NoDup (keys p) ->
  get t (fold_left (divide_entry c) (keys p) p) =
  option_map (fun v => v / INR c) (get t p).
Proof.
  intros H. rewrite get_divide by assumption.
  destruct (existsb (String.eqb t) (keys p)) eqn:E; [reflexivity|].
  apply existsb_eqb_notIn, get_None_iff in E. now rewrite E.
Qed.

(** The local profile build on a collection that is not empty. *)
Lemma _buildUserProfileJS_run collection e :
  collection <> [] ->
  exists p,
    _buildUserProfileJS collection e =
      (p, set_userProfile p
            (set_idfCache (fst (computeIDF collection e)) e)) /\
    forall t,
      get t p =
      if existsb (has_term t) collection
      then Some (Rsum (contribution (fst (computeIDF collection e)) t)
                   collection
                 / INR (List.length collection))
      else None.
Proof.
  intros Hne. unfold _buildUserProfileJS.
  destruct collection as [|m0 r0] eqn:Ec; [congruence|].
  rewrite <- Ec in *. replace (List.length collection =? 0)%nat with false
    by (subst; reflexivity).
  set (e1 := set_idfCache (fst (computeIDF collection e)) e).
  destruct (accumulate_run collection [] O e1 (NoDup_nil _))
    as (p' & Hrun & Hnd & Hget).
  exists (fold_left (divide_entry (List.length collection)) (keys p') p').
  split.
  - etransitivity.
    { apply bind_run with (a := fst (computeIDF collection e)) (s' := e1).
      reflexivity. }
    cbv beta. etransitivity.
    { apply bind_run. exact Hrun. }
    reflexivity.
  - intros t. rewrite get_divide_all by assumption. rewrite Hget.
    destruct (existsb (has_term t) collection); [|reflexivity].
    simpl. f_equal. unfold Rdiv. lra.
Qed.

Lemma contribution_boosted_weight collection e t m :
  contribution (fst (computeIDF collection e)) t m =
  boosted_weight (fst (computeIDF collection e)) t m.
Proof.
  unfold contribution, boosted_weight.
  destruct (get t (extractFeatures m)); [|reflexivity].
  destruct (computeIDF_table collection e t) as (_ & _ & Hge).
  cbv zeta in Hge.
  destruct (get t (fst (computeIDF collection e))) as [i|]; simpl;
    [|reflexivity].
  specialize (Hge i eq_refl).
  destruct (Req_dec_T i 0); [lra | reflexivity].
Qed.

Lemma Rsum_ext {A} (f g : A -> R) l :
  (forall x, f x = g x) -> Rsum f l = Rsum g l.
Proof.
  intros H. induction l as [|x r IH]; simpl; [reflexivity|].
  now rewrite H, IH.
Qed.

Lemma ratingBoost_cases m :
  (rating m >= 4 -> ratingBoost_of m = 1.5) /\
  (3 <= rating m < 4 -> ratingBoost_of m = 1.0) /\
  (rating m < 3 -> ratingBoost_of m = 0.7).
Proof.
  unfold ratingBoost_of, Rgeb.
  destruct (Rge_dec (rating m) 4), (Rge_dec (rating m) 3);
    repeat split; intros; try reflexivity; lra.
Qed.

(** C5: for every collection that is not empty, the local profile build
    caches and returns the profile that has, for each term of some item,
    the sum over all items of the boosted weights of the term divided by
    the number of items of the collection, and has no other term; the
    boost is 1.5 for a rating of at least 4, 1.0 for one of at least 3 and
    0.7 below, unrated items (rating 0) included. *)
Theorem profile_is_boosted_mean
    (collection : list movie) (e : engine) (t : string) :
  collection <> [] ->
  let idf := fst (computeIDF collection e) in
  let p := fst (_buildUserProfileJS collection e) in
  userProfile (snd (_buildUserProfileJS collection e)) = p /\
  get t p =
    (if existsb (has_term t) collection
     then Some (Rsum (boosted_weight idf t) collection
                / INR (List.length collection))
     else None) /\
  (forall m,
      (rating m >= 4 -> ratingBoost_of m = 1.5) /\
      (3 <= rating m < 4 -> ratingBoost_of m = 1.0) /\
      (rating m < 3 -> ratingBoost_of m = 0.7) /\
      (rating m = 0 -> ratingBoost_of m = 0.7)).
Proof.
  intros Hne. cbv zeta.
  destruct (_buildUserProfileJS_run collection e Hne) as (p & Hrun & Hget).
  rewrite Hrun. simpl fst. simpl snd. split; [reflexivity|]. split.
  - rewrite Hget. destruct (existsb (has_term t) collection); [|reflexivity].
    f_equal. f_equal. apply Rsum_ext. intros m.
    apply contribution_boosted_weight.
  - intros m. destruct (ratingBoost_cases m) as (H4 & H3 & H0).
    repeat split; auto. intros Hz. apply H0. lra.
Qed.

Lemma profile_is_boosted_mean_witness :
  get "genre:crime" (fst (_buildUserProfileJS [two_directors] constructor)) =
  Some (Rsum (boosted_weight
                (fst (computeIDF [two_directors] constructor)) "genre:crime")
          [two_directors] / INR 1).
Proof.
  assert (Hne : [two_directors] <> []) by discriminate.
  pose proof (profile_is_boosted_mean [two_directors] constructor
                "genre:crime" Hne) as H.
  cbv zeta in H. destruct H as (_ & H & _). rewrite H.
  assert (E : has_term "genre:crime" two_directors = true).
  { rewrite has_term_get. unfold extractFeatures, two_directors. simpl.
    rewrite (Rgtb_true 5 0) by lra. reflexivity. }
  simpl existsb. rewrite E. reflexivity.
Defined.

(** ** Cosine similarity *)

Lemma distinct_spec xs :
  NoDup (distinct xs) /\ forall t, In t (distinct xs) <-> In t xs.
Proof.
  unfold distinct.
  assert (G : forall xs seen,
             NoDup seen ->
             NoDup (fold_left
                      (fun seen x =>
                         if existsb (String.eqb x) seen then seen
                         else seen ++ [x]) xs seen) /\
             forall t,
               In t (fold_left
                       (fun seen x =>
                          if existsb (String.eqb x) seen then seen
                          else seen ++ [x]) xs seen) <->
               In t seen \/ In t xs).
  { clear xs. induction xs as [|x r IH]; intros seen Hnd; simpl.
    - split; [assumption | intros t; tauto].
    - destruct (existsb (String.eqb x) seen) eqn:E.
      + destruct (IH seen Hnd) as [H1 H2]. split; [assumption|].
        intros t. rewrite H2. apply existsb_eqb_In in E.
        intuition (subst; auto).
      + apply existsb_eqb_notIn in E.
        assert (Hnd' : NoDup (seen ++ [x])).
        { apply NoDup_app; auto.
          - repeat constructor. simpl. tauto.
          - intros a Ha [<-|[]]. tauto. }
        destruct (IH _ Hnd') as [H1 H2]. split; [assumption|].
        intros t. rewrite H2, in_app_iff. simpl. tauto. }
  destruct (G xs [] (NoDup_nil _)) as [H1 H2]. split; [assumption|].
  intros t. rewrite H2. simpl. tauto.
Qed.

Lemma union_terms_spec vecA vecB :
  NoDup (union_terms vecA vecB) /\
  forall t, In t (union_terms vecA vecB) <->
            In t (keys vecA) \/ In t (keys vecB).
Proof.
  unfold union_terms.
  destruct (distinct_spec (keys vecA ++ keys vecB)) as [H1 H2].
  split; [assumption|]. intros t. now rewrite H2, in_app_iff.
Qed.

Lemma sums_run (vecA vecB : obj R) ts : forall d ma mb,
  fold_left
    (fun (acc : R * R * R) term =>
       let '(dotProduct, magnitudeA, magnitudeB) := acc in
       let a := or_else (get term vecA) 0 in
       let b := or_else (get term vecB) 0 in
       (dotProduct + a * b, magnitudeA + a * a, magnitudeB + b * b))
    ts (d, ma, mb) =
  (d + Rsum (fun t => weight_in vecA t * weight_in vecB t) ts,
   ma + Rsum (fun t => weight_in vecA t * weight_in vecA t) ts,
   mb + Rsum (fun t => weight_in vecB t * weight_in vecB t) ts).
Proof.
  induction ts as [|t r IH]; intros d ma mb; simpl.
  - now rewrite !Rplus_0_r.
  - rewrite IH, !or_else_0. fold (weight_in vecA t) (weight_in vecB t).
    f_equal; [f_equal|]; lra.
Qed.

Lemma cosineSimilarity_cosine vecA vecB :
  cosineSimilarity vecA vecB = cosine vecA vecB.
Proof.
  unfold cosineSimilarity, cosine, magnitude, dot_product.
  fold (union_terms vecA vecB). rewrite sums_run, !Rplus_0_l. reflexivity.
Qed.

Lemma Rsum_square_nonneg {A} (f : A -> R) l : 0 <= Rsum (fun x => f x * f x) l.
Proof.
  induction l as [|x r IH]; simpl; [lra|].
  pose proof (Rle_0_sqr (f x)) as H. unfold Rsqr in H. lra.
Qed.

Lemma Rsum_product_nonneg {A} (f g : A -> R) l :
  (forall x, 0 <= f x) -> (forall x, 0 <= g x) ->
  0 <= Rsum (fun x => f x * g x) l.
Proof.
  intros Hf Hg. induction l as [|x r IH]; simpl; [lra|].
  pose proof (Rmult_le_pos _ _ (Hf x) (Hg x)). lra.
Qed.

Lemma cross_term_bound A B D x y :
  0 <= A -> 0 <= B -> D * D <= A * B ->
  2 * (x * y) * D <= x * x * B + A * (y * y).
Proof.
  intros HA HB HD.
  pose proof (sqrt_pos A) as HsA. pose proof (sqrt_pos B) as HsB.
  pose proof (sqrt_sqrt A HA) as EA. pose proof (sqrt_sqrt B HB) as EB.
  set (a := sqrt A) in *. set (b := sqrt B) in *.
  assert (Hab : 0 <= a * b) by now apply Rmult_le_pos.
  assert (HD' : D * D <= (a * b) * (a * b)).
  { replace (a * b * (a * b)) with ((a * a) * (b * b)) by ring.
    now rewrite EA, EB. }
  assert (Hup : D <= a * b) by nra.
  assert (Hlo : - (a * b) <= D) by nra.
  rewrite <- EA, <- EB.
  destruct (Rle_dec 0 (x * y)) as [Hxy|Hxy].
  - apply Rle_trans with (2 * (x * y) * (a * b)); [nra|].
    pose proof (Rle_0_sqr (x * b - y * a)) as Hs. unfold Rsqr in Hs. nra.
  - apply Rle_trans with (2 * (- (x * y)) * (a * b)); [nra|].
    pose proof (Rle_0_sqr (x * b + y * a)) as Hs. unfold Rsqr in Hs. nra.
Qed.

(** Cauchy-Schwarz for the sums of the loop. *)
Lemma Rsum_cauchy_schwarz {A} (f g : A -> R) l :
  Rsum (fun x => f x * g x) l * Rsum (fun x => f x * g x) l <=
  Rsum (fun x => f x * f x) l * Rsum (fun x => g x * g x) l.
Proof.
  induction l as [|x r IH]; simpl; [lra|].
  pose proof (Rsum_square_nonneg f r) as HA.
  pose proof (Rsum_square_nonneg g r) as HB.
  pose proof (cross_term_bound _ _ _ (f x) (g x) HA HB IH) as Hc.
  set (D := Rsum (fun x => f x * g x) r) in *.
  set (SA := Rsum (fun x => f x * f x) r) in *.
  set (SB := Rsum (fun x => g x * g x) r) in *.
  nra.
Qed.

Lemma weight_in_nonneg v t : nonnegative v -> 0 <= weight_in v t.
Proof.
  intros H. unfold weight_in. destruct (get t v) eqn:E; [|lra].
  eapply H; eauto.
Qed.

Lemma cosine_range vecA vecB :
  nonnegative vecA -> nonnegative vecB -> 0 <= cosine vecA vecB <= 1.
Proof.
  intros HA HB. unfold cosine, magnitude, dot_product.
  set (ts := union_terms vecA vecB).
  set (D := Rsum (fun t => weight_in vecA t * weight_in vecB t) ts).
  set (SA := Rsum (fun t => weight_in vecA t * weight_in vecA t) ts).
  set (SB := Rsum (fun t => weight_in vecB t * weight_in vecB t) ts).
  destruct (Req_dec_T (sqrt SA) 0) as [|Ha]; [lra|].
  destruct (Req_dec_T (sqrt SB) 0) as [|Hb]; [lra|].
  assert (HSA : 0 <= SA) by apply Rsum_square_nonneg.
  assert (HSB : 0 <= SB) by apply Rsum_square_nonneg.
  assert (HD : 0 <= D).
  { apply Rsum_product_nonneg; intros; now apply weight_in_nonneg. }
  assert (HCS : D * D <= SA * SB) by apply Rsum_cauchy_schwarz.
  pose proof (sqrt_pos SA) as Hpa. pose proof (sqrt_pos SB) as Hpb.
  assert (Hpos : 0 < sqrt SA * sqrt SB) by (apply Rmult_lt_0_compat; lra).
  assert (Hle : D <= sqrt SA * sqrt SB).
  { rewrite <- sqrt_mult by assumption.
    rewrite <- (sqrt_square D HD).
    apply sqrt_le_1; [nra | nra | assumption]. }
  split.
  - apply Rmult_le_reg_r with (sqrt SA * sqrt SB); [assumption|].
    unfold Rdiv. rewrite Rmult_assoc, Rinv_l by lra. lra.
  - apply Rmult_le_reg_r with (sqrt SA * sqrt SB); [assumption|].
    unfold Rdiv. rewrite Rmult_assoc, Rinv_l by lra. lra.
Qed.

(** *** The same function on doubles *)

Section Binary64Facts.
Import PrimFloat SpecFloat FloatOps FloatAxioms.

(** Rounding keeps a clear sign bit. *)
Lemma binary_round_aux_sign prec emax mx ex lx :
  sign_ok (binary_round_aux prec emax false mx ex lx).
Proof.
  unfold binary_round_aux.
  destruct (shr_fexp prec emax mx ex lx) as [mrs e'].
  destruct (shr_fexp prec emax _ e' loc_Exact) as [mrs' e''].
  destruct (shr_m mrs'); simpl; [reflexivity| |exact I].
  destruct (Z.leb e'' (emax - prec)); reflexivity.
Qed.

Lemma binary_round_sign prec emax m e :
  sign_ok (binary_round prec emax false m e).
Proof.
  unfold binary_round. destruct (shl_align _ _ _) as [mz ez].
  apply binary_round_aux_sign.
Qed.

Lemma mul_not_negative x y :
  not_negative x -> not_negative y -> not_negative (x * y)%float.
Proof.
  unfold not_negative. rewrite mul_spec. unfold SF64mul, SFmul.
  destruct (Prim2SF x) as [sx|sx| |sx mx ex], (Prim2SF y) as [sy|sy| |sy my ey];
    intros Hx Hy; simpl in Hx, Hy; subst; try reflexivity; try exact I.
  apply binary_round_aux_sign.
Qed.

Lemma add_not_negative x y :
  not_negative x -> not_negative y -> not_negative (x + y)%float.
Proof.
  unfold not_negative. rewrite add_spec. unfold SF64add, SFadd.
  destruct (Prim2SF x) as [sx|sx| |sx mx ex], (Prim2SF y) as [sy|sy| |sy my ey];
    intros Hx Hy; simpl in Hx, Hy; subst; try reflexivity; try exact I.
  apply binary_round_sign.
Qed.

Lemma sqrt_not_negative x : not_negative x -> not_negative (sqrt x).
Proof.
  unfold not_negative. rewrite sqrt_spec. unfold SF64sqrt, SFsqrt.
  destruct (Prim2SF x) as [sx|sx| |sx mx ex]; intros Hx; simpl in Hx; subst;
    try reflexivity; try exact I.
  destruct (SFsqrt_core_binary _ _ _ _) as [[mz ez] lz].
  apply binary_round_aux_sign.
Qed.

Lemma div_not_negative x y :
  not_negative x -> not_negative y -> not_negative (x / y)%float.
Proof.
  unfold not_negative. rewrite div_spec. unfold SF64div, SFdiv.
  destruct (Prim2SF x) as [sx|sx| |sx mx ex], (Prim2SF y) as [sy|sy| |sy my ey];
    intros Hx Hy; simpl in Hx, Hy; subst; try reflexivity; try exact I.
  destruct (SFdiv_core_binary _ _ _ _ _ _) as [[mz ez] lz].
  apply binary_round_aux_sign.
Qed.

(** A double with a clear sign bit, or NaN, is not less than 0. *)
Lemma not_negative_ltb x : not_negative x -> (x <? 0)%float = false.
Proof.
  unfold not_negative. rewrite ltb_spec.
  change (Prim2SF 0%float) with (S754_zero false).
  destruct (Prim2SF x) as [sx|sx| |sx mx ex]; intros Hx; simpl in Hx; subst;
    reflexivity.
Qed.

(** A finite weight that is not negative, read through [|| 0]. *)
Lemma or_else_not_negative x :
  weight_ok x = true -> not_negative (Binary64.or_else (Some x) 0%float).
Proof.
  unfold weight_ok, Binary64.or_else, is_nan, not_negative.
  rewrite !eqb_spec, leb_spec, ltb_spec.
  change (Prim2SF 0%float) with (S754_zero false).
  change (Prim2SF infinity) with (S754_infinity false).
  destruct (Prim2SF x) as [sx|sx| |sx mx ex] eqn:E; simpl.
  - intros _. reflexivity.
  - destruct sx; simpl; discriminate.
  - discriminate.
  - destruct sx; simpl; [discriminate|]. intros _.
    match goal with |- context [if ?c then _ else _] => destruct c end;
      [reflexivity | now rewrite E].
Qed.

Lemma weight_in64_not_negative v t :
  nonnegative64 v = true -> not_negative (weight_in64 v t).
Proof.
  unfold nonnegative64, weight_in64.
  induction v as [|[k x] v IH]; simpl; [intros _; reflexivity|].
  intros H. apply andb_prop in H. destruct H as [Hx Hv].
  destruct (String.eqb t k); [now apply or_else_not_negative | now apply IH].
Qed.

Lemma sum64_not_negative f ts :
  (forall t, not_negative (f t)) -> not_negative (sum64 f ts).
Proof.
  intros Hf. unfold sum64.
  assert (G : forall acc,
             not_negative acc ->
             not_negative (fold_left (fun acc t => acc + f t)%float ts acc)).
  { induction ts as [|t ts IH]; simpl; intros acc Ha; [assumption|].
    apply IH. now apply add_not_negative. }
  apply G. reflexivity.
Qed.

(** The loop of [cosineSimilarity] keeps three independent sums. *)
Lemma sums_run64 vecA vecB ts d a b :
  fold_left
    (fun (acc : float * float * float) term =>
       let '(dotProduct, magnitudeA, magnitudeB) := acc in
       let x := Binary64.or_else (get term vecA) 0%float in
       let y := Binary64.or_else (get term vecB) 0%float in
       (dotProduct + x * y, magnitudeA + x * x, magnitudeB + y * y)%float)
    ts (d, a, b) =
  (fold_left
     (fun acc t => acc + weight_in64 vecA t * weight_in64 vecB t)%float ts d,
   fold_left
     (fun acc t => acc + weight_in64 vecA t * weight_in64 vecA t)%float ts a,
   fold_left
     (fun acc t => acc + weight_in64 vecB t * weight_in64 vecB t)%float ts b).
Proof.
  revert d a b. induction ts as [|t ts IH]; intros d a b; simpl; [reflexivity|].
  apply IH.
Qed.

Lemma cosineSimilarity_cosine64 vecA vecB :
  Binary64.cosineSimilarity vecA vecB = cosine64 vecA vecB.
Proof.
  unfold Binary64.cosineSimilarity, cosine64, magnitude64, dot_product64, sum64.
  fold (union_terms64 vecA vecB). rewrite sums_run64. reflexivity.
Qed.

Lemma cosine64_not_negative vecA vecB :
  nonnegative64 vecA = true -> nonnegative64 vecB = true ->
  not_negative (cosine64 vecA vecB).
Proof.
  intros HA HB. unfold cosine64.
  destruct (_ || _); [reflexivity|].
  apply div_not_negative.
  - apply sum64_not_negative. intros t.
    apply mul_not_negative; now apply weight_in64_not_negative.
  - apply mul_not_negative; apply sqrt_not_negative, sum64_not_negative;
      intros t; apply mul_not_negative; now apply weight_in64_not_negative.
Qed.

Lemma weight_in64_all_zero v t :
  all_zero v = true -> weight_in64 v t = 0%float.
Proof.
  unfold all_zero, weight_in64.
  induction v as [|[k x] v IH]; simpl; [reflexivity|].
  intros H. apply andb_prop in H. destruct H as [Hx Hv].
  destruct (String.eqb t k); [|now apply IH].
  simpl. now rewrite Hx.
Qed.

(** The squares of zeros add up to 0 exactly, and its root is 0. *)
Lemma magnitude64_all_zero v ts :
  all_zero v = true -> magnitude64 v ts = 0%float.
Proof.
  intros H. unfold magnitude64, sum64.
  assert (G : fold_left
                (fun acc t => acc + weight_in64 v t * weight_in64 v t)%float
                ts 0%float = 0%float).
  { induction ts as [|t ts IH]; simpl; [reflexivity|].
    rewrite (weight_in64_all_zero v t H). exact IH. }
  now rewrite G.
Qed.

Lemma cosine64_all_zero vecA vecB :
  all_zero vecA = true \/ all_zero vecB = true ->
  cosine64 vecA vecB = 0%float.
Proof.
  intros [H|H]; unfold cosine64;
    rewrite (magnitude64_all_zero _ (union_terms64 vecA vecB) H).
  - reflexivity.
  - now rewrite orb_true_r.
Qed.

Lemma value_nonneg x : weight_ok x = true -> 0 <= value x.
Proof.
  unfold weight_ok, value. rewrite leb_spec, ltb_spec.
  change (Prim2SF 0%float) with (S754_zero false).
  destruct (Prim2SF x) as [sx|sx| |sx mx ex]; simpl; try (intros _; lra).
  destruct sx; [discriminate|]. intros _.
  assert (0 < powerRZ 2 ex) by (apply powerRZ_lt; lra).
  assert (0 < IZR (Z.pos mx)) by (apply IZR_lt; lia).
  nra.
Qed.

Lemma get_exact t v : get t (exact v) = option_map value (get t v).
Proof.
  unfold exact. induction v as [|[k x] v IH]; simpl; [reflexivity|].
  destruct (String.eqb t k); [reflexivity | exact IH].
Qed.

Lemma exact_nonnegative v : nonnegative64 v = true -> nonnegative (exact v).
Proof.
  unfold nonnegative64. intros H t y. rewrite get_exact.
  induction v as [|[k x] v IH]; simpl; [discriminate|].
  simpl in H. apply andb_prop in H. destruct H as [Hx Hv].
  destruct (String.eqb t k); [|now apply IH].
  simpl. intros [= <-]. now apply value_nonneg.
Qed.

(** C7: for vectors whose weights are finite doubles that are not negative,
    [cosineSimilarity] returns the dot product over the terms of either
    vector, absent terms counting as 0, divided by the product of the two
    magnitudes, every operation rounded to a double; the double returned
    is never less than 0; it is exactly 0 when either vector is empty or
    has only zero weights; and the real number that the same quotient
    gives on the weights without rounding lies in [0, 1]. *)
Theorem cosineSimilarity_binary64_spec (vecA vecB : obj float) :
  nonnegative64 vecA = true -> nonnegative64 vecB = true ->
  let ts := union_terms64 vecA vecB in
  let similarity := Binary64.cosineSimilarity vecA vecB in
  similarity =
    (if (magnitude64 vecA ts =? 0) || (magnitude64 vecB ts =? 0) then 0
     else dot_product64 vecA vecB
          / (magnitude64 vecA ts * magnitude64 vecB ts))%float /\
  (NoDup ts /\
   forall t, In t ts <-> In t (keys vecA) \/ In t (keys vecB)) /\
  (similarity <? 0)%float = false /\
  (all_zero vecA = true \/ all_zero vecB = true -> similarity = 0%float) /\
  0 <= cosine (exact vecA) (exact vecB) <= 1.
Proof.
  intros HA HB ts similarity. unfold similarity.
  rewrite cosineSimilarity_cosine64.
  split; [reflexivity|].
  split.
  { destruct (distinct_spec (keys vecA ++ keys vecB)) as [Hn Hi].
    split; [exact Hn|]. intros t. unfold ts, union_terms64.
    rewrite Hi. apply in_app_iff. }
  split; [now apply not_negative_ltb, cosine64_not_negative|].
  split; [apply cosine64_all_zero|].
  apply cosine_range; now apply exact_nonnegative.
Qed.

Lemma cosineSimilarity_binary64_spec_witness :
  (Binary64.cosineSimilarity three_actors three_actors <? 0)%float = false /\
  Binary64.cosineSimilarity no_signal three_actors = 0%float.
Proof.
  split.
  - exact (proj1 (proj2 (proj2
             (cosineSimilarity_binary64_spec three_actors three_actors
                eq_refl eq_refl)))).
  - exact (proj1 (proj2 (proj2 (proj2
             (cosineSimilarity_binary64_spec no_signal three_actors
                eq_refl eq_refl)))) (or_introl eq_refl)).
Defined.

(** The double returned can exceed 1: three weights of 1 against themselves
    give 3 / (sqrt 3 * sqrt 3), and sqrt 3 * sqrt 3 rounds to
    2.9999999999999996. *)
Lemma cosineSimilarity_exceeds_one :
  nonnegative64 three_actors = true /\
  (Binary64.cosineSimilarity three_actors three_actors <=? 1)%float = false.
Proof. split; vm_compute; reflexivity. Qed.

(** When the sums overflow, the quotient is infinity by infinity: NaN, which
    is not less than 0 either. *)
Example cosineSimilarity_overflow :
  is_nan (Binary64.cosineSimilarity huge huge) = true /\
  (Binary64.cosineSimilarity huge huge <? 0)%float = false.
Proof. split; vm_compute; reflexivity. Qed.

End Binary64Facts.

(** ** Ranked suggestions *)

Lemma kind_count_app t l x :
  kind_count t (l ++ [x]) =
  (kind_count t l + if has_type t x then 1 else 0)%nat.
Proof.
  unfold kind_count. rewrite filter_app, length_app. simpl.
  now destruct (has_type t x).
Qed.

Lemma kind_count_absent t l :
  existsb (has_type t) l = false -> kind_count t l = O.
Proof.
  unfold kind_count. induction l as [|x r IH]; simpl; [reflexivity|].
  destruct (has_type t x); simpl; [discriminate | assumption].
Qed.

Lemma kind_count_firstn t n l :
  (kind_count t (firstn n l) <= kind_count t l)%nat.
Proof.
  unfold kind_count. revert n.
  induction l as [|x r IH]; intros [|n]; simpl; try lia.
  specialize (IH n). destruct (has_type t x); simpl; lia.
Qed.

Lemma In_firstn {A} (x : A) n l : In x (firstn n l) -> In x l.
Proof.
  revert n. induction l as [|y r IH]; intros [|n]; simpl; try tauto.
  intros [H|H]; [now left | right; eauto].
Qed.

Lemma In_insert_desc {K V} (gt : V -> V -> bool) (x y : K * V) l :
  In y (insert_desc gt x l) <-> y = x \/ In y l.
Proof.
  induction l as [|z r IH]; simpl; [intuition congruence|].
  destruct (gt (snd z) (snd x)); simpl; [rewrite IH|];
    intuition congruence.
Qed.

Lemma In_sort_desc {K V} (gt : V -> V -> bool) (y : K * V) l :
  In y (sort_desc gt l) <-> In y l.
Proof.
  unfold sort_desc. induction l as [|x r IH]; simpl; [tauto|].
  rewrite In_insert_desc, IH. intuition congruence.
Qed.

Lemma ranking_push profile l s e :
  In e profile -> from_entry s e ->
  (kind_count "genre" l + (if has_type "genre" s then 1 else 0) <= 1)%nat ->
  (kind_count "director" l
   + (if has_type "director" s then 1 else 0) <= 1)%nat ->
  (kind_count "actor" l + (if has_type "actor" s then 1 else 0) <= 2)%nat ->
  ranking profile l -> ranking profile (l ++ [s]).
Proof.
  intros He Hs Hg Hd Ha (_ & _ & _ & Hin).
  unfold ranking. rewrite !kind_count_app. repeat split; try assumption.
  intros s' H. apply in_app_iff in H as [H|[<-|[]]]; eauto.
Qed.

Lemma suggest_ranking profile l e :
  In e profile -> ranking profile l -> ranking profile (suggest l e).
Proof.
  intros He H. destruct e as [term weight]. unfold suggest.
  set (parts := Str.split ":" term).
  assert (H1 : ranking profile
                 (if String.eqb (hd "" parts) "genre"
                     && negb (existsb (has_type "genre") l)
                  then l ++ [Suggestion "genre"
                                (FavorsGenre (nth_error parts 1) weight)
                                (nth_error parts 1)
                                (Some (confidence_of weight))]
                  else l)).
  { destruct (String.eqb (hd "" parts) "genre") eqn:Et; simpl;
      [|assumption].
    destruct (existsb (has_type "genre") l) eqn:Ex; simpl; [assumption|].
    apply String.eqb_eq in Et. apply kind_count_absent in Ex.
    destruct H as (Hg & Hd & Ha & Hin).
    apply ranking_push with (e := (term, weight)); simpl;
      try lia; try assumption; [|repeat split; assumption].
    repeat split; simpl; auto. }
  revert H1. generalize
    (if String.eqb (hd "" parts) "genre"
        && negb (existsb (has_type "genre") l)
     then l ++ [Suggestion "genre" (FavorsGenre (nth_error parts 1) weight)
                  (nth_error parts 1) (Some (confidence_of weight))]
     else l) as l1.
  intros l1 H1.
  assert (H2 : ranking profile
                 (if String.eqb (hd "" parts) "director"
                     && negb (existsb (has_type "director") l1)
                  then l1 ++ [Suggestion "director"
                                 (EnjoysStyle (nth_error parts 1))
                                 (nth_error parts 1)
                                 (Some (confidence_of weight))]
                  else l1)).
  { destruct (String.eqb (hd "" parts) "director") eqn:Et; simpl;
      [|assumption].
    destruct (existsb (has_type "director") l1) eqn:Ex; simpl;
      [assumption|].
    apply String.eqb_eq in Et. apply kind_count_absent in Ex.
    destruct H1 as (Hg & Hd & Ha & Hin).
    apply ranking_push with (e := (term, weight)); simpl;
      try lia; try assumption; [|repeat split; assumption].
    repeat split; simpl; auto. }
  revert H2. generalize
    (if String.eqb (hd "" parts) "director"
        && negb (existsb (has_type "director") l1)
     then l1 ++ [Suggestion "director" (EnjoysStyle (nth_error parts 1))
                   (nth_error parts 1) (Some (confidence_of weight))]
     else l1) as l2.
  intros l2 H2.
  destruct (String.eqb (hd "" parts) "actor") eqn:Et; simpl; [|assumption].
  destruct (List.length (filter (has_type "actor") l2) <? 2)%nat eqn:Ex;
    [|assumption].
  apply String.eqb_eq in Et. apply Nat.ltb_lt in Ex.
  fold (kind_count "actor" l2) in Ex.
  destruct H2 as (Hg & Hd & Ha & Hin).
  apply ranking_push with (e := (term, weight)); simpl;
    try lia; try assumption; [|repeat split; assumption].
  repeat split; simpl; auto.
Qed.

Lemma fold_suggest_ranking profile entries : forall l,
  (forall e, In e entries -> In e profile) ->
  ranking profile l -> ranking profile (fold_left suggest entries l).
Proof.
  induction entries as [|e r IH]; intros l Hsub H; simpl; [assumption|].
  apply IH; [intros; apply Hsub; now right|].
  apply suggest_ranking; [apply Hsub; now left | assumption].
Qed.

Lemma rank_well_ranked profile : well_ranked profile (rank profile).
Proof.
  unfold rank.
  assert (H : ranking profile
                (fold_left suggest (firstn 10 (sort_desc Rgtb profile)) [])).
  { apply fold_suggest_ranking.
    - intros e He. apply In_firstn in He. now apply In_sort_desc in He.
    - do 3 (split; [unfold kind_count; simpl; lia|]). intros s []. }
  destruct H as (Hg & Hd & Ha & Hin).
  unfold well_ranked. repeat split.
  - apply firstn_le_length.
  - etransitivity; [apply kind_count_firstn | assumption].
  - etransitivity; [apply kind_count_firstn | assumption].
  - etransitivity; [apply kind_count_firstn | assumption].
  - intros s Hs. apply Hin. eapply In_firstn; eauto.
Qed.

(** ** The synchronous methods as state transformers *)

Lemma _buildUserProfileJS_empty e :
  _buildUserProfileJS [] e = ([], set_userProfile [] e).
Proof. reflexivity. Qed.

Lemma _buildUserProfileJS_state collection e :
  let (p, e') := _buildUserProfileJS collection e in
  userProfile e' = p /\ serverAvailable e' = serverAvailable e.
Proof.
  destruct collection as [|m r] eqn:Ec.
  - rewrite _buildUserProfileJS_empty. split; reflexivity.
  - rewrite <- Ec.
    assert (Hne : collection <> []) by (subst; discriminate).
    destruct (_buildUserProfileJS_run collection e Hne) as (p & -> & _).
    split; reflexivity.
Qed.

Lemma scoreMovie_run m e :
  scoreMovie m e =
  ((if is_empty (userProfile e) then 0%Z
    else round (cosineSimilarity (userProfile e)
                  (weigh (idfCache e) (extractFeatures m)) * 100)), e).
Proof.
  unfold scoreMovie, bind, gets. simpl.
  destruct (is_empty (userProfile e)); [reflexivity|].
  now rewrite applyTFIDF_run.
Qed.

Lemma getSmartSuggestions_run collection e :
  getSmartSuggestions collection e =
  if (List.length collection <? 2)%nat then ([], e)
  else (rank (fst (_buildUserProfileJS collection e)),
        snd (_buildUserProfileJS collection e)).
Proof.
  unfold getSmartSuggestions.
  destruct (List.length collection <? 2)%nat; [reflexivity|].
  pose proof (_buildUserProfileJS_state collection e) as H.
  unfold bind, gets, ret.
  destruct (_buildUserProfileJS collection e) as [p e'].
  destruct H as [-> _]. reflexivity.
Qed.

Lemma getSmartSuggestions_state collection e :
  serverAvailable (snd (getSmartSuggestions collection e)) =
  serverAvailable e.
Proof.
  rewrite getSmartSuggestions_run.
  destruct (List.length collection <? 2)%nat; [reflexivity|].
  pose proof (_buildUserProfileJS_state collection e) as H.
  destruct (_buildUserProfileJS collection e) as [p e']. simpl. tauto.
Qed.

(** C6: the ranking of any profile, and so every result of
    [getSmartSuggestions], has at most 5 suggestions, at most one of kind
    genre, at most one of kind director and at most two of kind actor, and
    each suggestion has the confidence min(round(weight * 20), 99) of an
    entry (term, weight) of the profile whose term gives its kind and its
    search term. *)
Theorem ranked_suggestions_spec :
  (forall profile : obj R, well_ranked profile (rank profile)) /\
  (forall (collection : list movie) (e : engine),
      well_ranked (userProfile (snd (getSmartSuggestions collection e)))
        (fst (getSmartSuggestions collection e))).
Proof.
  split; [apply rank_well_ranked|].
  intros collection e. rewrite getSmartSuggestions_run.
  destruct (List.length collection <? 2)%nat.
  - simpl. unfold well_ranked, kind_count. simpl.
    repeat (split; [lia|]). intros s [].
  - pose proof (_buildUserProfileJS_state collection e) as H.
    destruct (_buildUserProfileJS collection e) as [p e']. simpl.
    destruct H as [-> _]. apply rank_well_ranked.
Qed.

(** C8: on the empty collection the local profile build returns and caches
    the empty profile and the suggestion operation returns the empty list;
    with an empty cached profile, the score of every item is 0.  The three
    methods are total functions of the model: none of these calls has an
    exceptional outcome. *)
Theorem empty_input_is_neutral (e : engine) (m : movie) :
  _buildUserProfileJS [] e = ([], set_userProfile [] e) /\
  fst (getSmartSuggestions [] e) = [] /\
  (userProfile e = [] -> fst (scoreMovie m e) = 0%Z).
Proof.
  split; [reflexivity|]. split; [reflexivity|].
  intros H. rewrite scoreMovie_run, H. reflexivity.
Qed.

Lemma empty_input_is_neutral_witness :
  fst (scoreMovie two_directors constructor) = 0%Z.
Proof.
  exact (proj2 (proj2 (empty_input_is_neutral constructor two_directors))
           eq_refl).
Defined.

(** C10: [scoreMovie] leaves the engine as it found it: the cached
    profile, the cached IDF table and the availability flag are those of
    before the call. *)
Theorem scoreMovie_read_only (m : movie) (e : engine) :
  let e' := snd (scoreMovie m e) in
  e' = e /\
  userProfile e' = userProfile e /\
  idfCache e' = idfCache e /\
  serverAvailable e' = serverAvailable e.
Proof.
  cbv zeta. rewrite scoreMovie_run. simpl. repeat split.
Qed.

(** ** The gateway *)

Lemma local_op_flag op e :
  serverAvailable (snd (local_op op e)) = serverAvailable e.
Proof.
  destruct op as [c|m|c]; simpl; unfold bind, ret.
  - pose proof (_buildUserProfileJS_state c e) as H.
    destruct (_buildUserProfileJS c e) as [p e']. simpl. tauto.
  - rewrite scoreMovie_run. reflexivity.
  - pose proof (getSmartSuggestions_state c e) as H.
    destruct (getSmartSuggestions c e) as [l e']. exact H.
Qed.

Lemma checkServer_cached net w b :
  serverAvailable (eng w) = Some b -> checkServer net w = (b, w).
Proof.
  intros H. unfold checkServer, bind, lift, gets. simpl. rewrite H.
  destruct w. reflexivity.
Qed.

Lemma lift_run {A} (m : M A) w :
  lift m w = (fst (m (eng w)), World (snd (m (eng w))) (sent w)).
Proof. unfold lift. now destruct (m (eng w)). Qed.

Lemma buildUserProfile_unavailable net c w :
  serverAvailable (eng w) = Some false ->
  buildUserProfile net c w =
  (LocalProfile (fst (_buildUserProfileJS c (eng w))),
   World (snd (_buildUserProfileJS c (eng w))) (sent w)).
Proof.
  intros H. unfold buildUserProfile.
  unfold bind at 1. rewrite (checkServer_cached net w false H).
  unfold bind at 1. rewrite lift_run. unfold gets at 1. simpl fst.
  simpl snd.
  cbn [fst]. rewrite H. cbn [is_true].
  unfold bind, ret. rewrite lift_run. reflexivity.
Qed.

Lemma scoreMovieAsync_unavailable net m w :
  serverAvailable (eng w) = Some false ->
  scoreMovieAsync net m w =
  (IZR (fst (scoreMovie m (eng w))),
   World (snd (scoreMovie m (eng w))) (sent w)).
Proof.
  intros H. unfold scoreMovieAsync.
  unfold bind at 1. rewrite (checkServer_cached net w false H).
  unfold bind at 1. rewrite lift_run. unfold gets at 1. simpl fst.
  simpl snd. cbn [fst]. rewrite H. cbn [is_true].
  unfold bind, ret. rewrite lift_run. reflexivity.
Qed.

Lemma getSmartSuggestionsAsync_unavailable net c w :
  serverAvailable (eng w) = Some false ->
  getSmartSuggestionsAsync net c w =
  (fst (getSmartSuggestions c (eng w)),
   World (snd (getSmartSuggestions c (eng w))) (sent w)).
Proof.
  intros H. unfold getSmartSuggestionsAsync.
  unfold bind at 1. rewrite (checkServer_cached net w false H).
  unfold bind at 1. rewrite lift_run. unfold gets at 1. simpl fst.
  simpl snd. cbn [fst]. rewrite H. cbn [is_true].
  rewrite lift_run. reflexivity.
Qed.

(** With the flag at [false], an operation is its local pipeline and sends
    nothing. *)
Lemma run_op_unavailable net op w :
  serverAvailable (eng w) = Some false ->
  run_op net op w =
  (fst (local_op op (eng w)), World (snd (local_op op (eng w))) (sent w)).
Proof.
  intros H. destruct op as [c|m|c]; simpl; unfold bind, ret.
  - rewrite (buildUserProfile_unavailable net c w H).
    now destruct (_buildUserProfileJS c (eng w)).
  - rewrite (scoreMovieAsync_unavailable net m w H).
    now destruct (scoreMovie m (eng w)).
  - rewrite (getSmartSuggestionsAsync_unavailable net c w H).
    now destruct (getSmartSuggestions c (eng w)).
Qed.

Lemma run_ops_unavailable net ops : forall w,
  serverAvailable (eng w) = Some false ->
  run_ops net ops w =
  (fst (local_ops ops (eng w)), World (snd (local_ops ops (eng w))) (sent w))
  /\ serverAvailable (snd (local_ops ops (eng w))) = Some false.
Proof.
  induction ops as [|op rest IH]; intros w H; simpl.
  - unfold ret. simpl. destruct w. split; [reflexivity | assumption].
  - unfold bind, ret. rewrite (run_op_unavailable net op w H).
    pose proof (local_op_flag op (eng w)) as Hf. rewrite H in Hf.
    destruct (local_op op (eng w)) as [r e1]. simpl in Hf. simpl fst.
    simpl snd.
    destruct (IH (World e1 (sent w)) Hf) as [Hrun Hflag].
    simpl in Hrun, Hflag. rewrite Hrun.
    destruct (local_ops rest e1) as [rs e2]. simpl in *.
    split; [reflexivity | assumption].
Qed.

(** C9: once the cached flag is [false], whatever the service would answer
    and whatever the sequence of gateway operations, every operation
    returns what its local pipeline returns, no request is sent (the
    service is not probed again), and the flag is still [false] at the
    end. *)
Theorem unavailable_is_sticky
    (net : service) (ops : list operation) (w : world) :
  serverAvailable (eng w) = Some false ->
  let (results, w') := run_ops net ops w in
  serverAvailable (eng w') = Some false /\
  sent w' = sent w /\
  results = fst (local_ops ops (eng w)) /\
  eng w' = snd (local_ops ops (eng w)).
Proof.
  intros H. destruct (run_ops_unavailable net ops w H) as [-> Hflag].
  simpl. repeat split. assumption.
Qed.

Lemma unavailable_is_sticky_witness :
  let (results, w') :=
    run_ops offline [ScoreItem two_directors; FetchSuggestions []]
      (World (demote constructor) []) in
  serverAvailable (eng w') = Some false /\ sent w' = [].
Proof.
  pose proof (unavailable_is_sticky offline
                [ScoreItem two_directors; FetchSuggestions []]
                (World (demote constructor) []) eq_refl) as H.
  destruct (run_ops offline [ScoreItem two_directors; FetchSuggestions []]
              (World (demote constructor) [])) as [results w'].
  destruct H as (H1 & H2 & _). split; assumption.
Defined.

(** A health probe that raises or does not answer "ok" sets the flag to
    [false]. *)
Lemma checkServer_probe net w :
  serverAvailable (eng w) = None ->
  checkServer net w =
  (match health net (sent w) with
   | Body (Some status) => String.eqb status "ok"
   | _ => false
   end,
   World (set_serverAvailable
            (Some match health net (sent w) with
                  | Body (Some status) => String.eqb status "ok"
                  | _ => false
                  end) (eng w))
     (sent w ++ [GetHealth])).
Proof.
  intros H. unfold checkServer, bind, lift, gets, fetch, modify, ret. simpl.
  rewrite H. reflexivity.
Qed.

(** *** Failures of the remote call while the flag is [true] *)

(** Past [checkServer] and the test of the flag, on the remote branch. *)
Ltac remote_branch H :=
  unfold bind at 1; rewrite (checkServer_cached _ _ true H);
  unfold bind at 1; rewrite lift_run; unfold gets at 1;
  cbn [fst snd]; rewrite H; cbn [is_true];
  unfold bind at 1.

Ltac received E :=
  unfold bind at 1; unfold fetch; cbn [sent eng]; rewrite E.

Lemma buildUserProfile_threw net c w :
  serverAvailable (eng w) = Some true ->
  profile net (sent w) (_serializeCollection c) = Rejected ->
  buildUserProfile net c w =
  (LocalProfile (fst (_buildUserProfileJS c (demote (eng w)))),
   World (snd (_buildUserProfileJS c (demote (eng w))))
     (sent w ++ [PostProfile (_serializeCollection c)])).
Proof.
  intros H E. unfold buildUserProfile. remote_branch H.
  unfold buildUserProfilePython. received E.
  unfold bind, ret. rewrite !lift_run. reflexivity.
Qed.

Lemma buildUserProfile_declined net c w :
  serverAvailable (eng w) = Some true ->
  declined net (sent w) (BuildProfile c) = true ->
  buildUserProfile net c w =
  (LocalProfile (fst (_buildUserProfileJS c (eng w))),
   World (snd (_buildUserProfileJS c (eng w)))
     (sent w ++ [PostProfile (_serializeCollection c)])).
Proof.
  intros H D. unfold declined in D. unfold buildUserProfile.
  remote_branch H. unfold buildUserProfilePython.
  destruct (profile net (sent w) (_serializeCollection c)) as [| |b] eqn:E;
    [discriminate| |]; received E.
  - unfold bind, ret. rewrite !lift_run. reflexivity.
  - apply negb_true_iff in D. unfold ret at 1. rewrite D.
    unfold bind, ret. rewrite !lift_run. reflexivity.
Qed.

Lemma scoreMovieAsync_threw net m w :
  serverAvailable (eng w) = Some true ->
  threw net (sent w) (ScoreItem m) = true ->
  scoreMovieAsync net m w =
  (IZR (fst (scoreMovie m (demote (eng w)))),
   World (snd (scoreMovie m (demote (eng w))))
     (sent w ++ [PostScore (_serializeMovie m)])).
Proof.
  intros H T. unfold threw in T. unfold scoreMovieAsync.
  remote_branch H. unfold scoreMoviePython.
  destruct (score net (sent w) (_serializeMovie m)) as [| |b] eqn:E;
    [| |discriminate]; received E;
    unfold bind, ret; rewrite !lift_run; reflexivity.
Qed.

(** A [/score] body that does not report success: the fixed score 0, the
    flag untouched, the local pipeline not run. *)
Lemma scoreMovieAsync_declined net m w :
  serverAvailable (eng w) = Some true ->
  declined net (sent w) (ScoreItem m) = true ->
  scoreMovieAsync net m w =
  (0, World (eng w) (sent w ++ [PostScore (_serializeMovie m)])).
Proof.
  intros H D. unfold declined in D. unfold scoreMovieAsync.
  remote_branch H. unfold scoreMoviePython.
  destruct (score net (sent w) (_serializeMovie m)) as [| |b] eqn:E;
    try discriminate. received E.
  apply negb_true_iff in D. rewrite D. reflexivity.
Qed.

Lemma getSmartSuggestionsAsync_threw net c w :
  serverAvailable (eng w) = Some true ->
  threw net (sent w) (FetchSuggestions c) = true ->
  getSmartSuggestionsAsync net c w =
  (fst (getSmartSuggestions c (demote (eng w))),
   World (snd (getSmartSuggestions c (demote (eng w))))
     (sent w ++ [PostRecommend (_serializeCollection c)])).
Proof.
  intros H T. unfold threw in T. unfold getSmartSuggestionsAsync.
  remote_branch H. unfold getSmartSuggestionsPython.
  destruct (recommend net (sent w) (_serializeCollection c)) as [| |b] eqn:E;
    [| |discriminate]; received E;
    unfold bind, ret; rewrite !lift_run; reflexivity.
Qed.

Lemma getSmartSuggestionsAsync_declined net c w :
  serverAvailable (eng w) = Some true ->
  declined net (sent w) (FetchSuggestions c) = true ->
  getSmartSuggestionsAsync net c w =
  (fst (getSmartSuggestions c (eng w)),
   World (snd (getSmartSuggestions c (eng w)))
     (sent w ++ [PostRecommend (_serializeCollection c)])).
Proof.
  intros H D. unfold declined in D. unfold getSmartSuggestionsAsync.
  remote_branch H. unfold getSmartSuggestionsPython.
  destruct (recommend net (sent w) (_serializeCollection c)) as [| |b] eqn:E;
    try discriminate. received E.
  apply negb_true_iff in D. unfold ret at 1. rewrite D.
  rewrite lift_run. reflexivity.
Qed.

Lemma forEach_accumulate collection : forall st e,
  forEach collection accumulate st e =
  (fold_left (accumulate_pure (idfCache e)) collection st, e).
Proof.
  induction collection as [|m r IH]; intros [p c] e; [reflexivity|].
  change (forEach (m :: r) accumulate (p, c) e)
    with (let (a, s') := accumulate (p, c) m e in
          forEach r accumulate a s').
  rewrite accumulate_step, IH. reflexivity.
Qed.

Lemma _buildUserProfileJS_closed collection e :
  (List.length collection =? 0)%nat = false ->
  _buildUserProfileJS collection e =
  let idf := fst (computeIDF collection e) in
  let st := fold_left (accumulate_pure idf) collection ([], O) in
  let p := fold_left (divide_entry (snd st)) (keys (fst st)) (fst st) in
  (p, set_userProfile p (set_idfCache idf e)).
Proof.
  intros Hlen. unfold _buildUserProfileJS. rewrite Hlen.
  set (idf := fst (computeIDF collection e)).
  etransitivity.
  { apply bind_run with (a := idf) (s' := set_idfCache idf e). reflexivity. }
  cbv beta. etransitivity.
  { apply bind_run.
    exact (forEach_accumulate collection ([], O) (set_idfCache idf e)). }
  cbn [idfCache set_idfCache]. cbv zeta.
  destruct (fold_left (accumulate_pure idf) collection ([], O)) as [p c].
  reflexivity.
Qed.

Lemma _buildUserProfileJS_flag collection b e :
  _buildUserProfileJS collection (set_serverAvailable b e) =
  (fst (_buildUserProfileJS collection e),
   set_serverAvailable b (snd (_buildUserProfileJS collection e))).
Proof.
  destruct (List.length collection =? 0)%nat eqn:Hlen.
  - unfold _buildUserProfileJS. rewrite Hlen. reflexivity.
  - rewrite !_buildUserProfileJS_closed by assumption. reflexivity.
Qed.

Lemma local_op_flag_independent op b e :
  local_op op (set_serverAvailable b e) =
  (fst (local_op op e), set_serverAvailable b (snd (local_op op e))).
Proof.
  destruct op as [c|m|c]; simpl; unfold bind, ret.
  - rewrite _buildUserProfileJS_flag.
    now destruct (_buildUserProfileJS c e).
  - rewrite !scoreMovie_run. reflexivity.
  - rewrite !getSmartSuggestions_run.
    destruct (List.length c <? 2)%nat; [reflexivity|].
    rewrite _buildUserProfileJS_flag. reflexivity.
Qed.

Lemma run_op_threw net op w :
  serverAvailable (eng w) = Some true ->
  threw net (sent w) op = true ->
  run_op net op w =
  (fst (local_op op (eng w)),
   World (demote (snd (local_op op (eng w)))) (sent w ++ [request_of op])).
Proof.
  intros H T.
  pose proof (local_op_flag_independent op (Some false) (eng w)) as Hd.
  fold (demote (eng w)) in Hd. fold (demote (snd (local_op op (eng w)))) in Hd.
  destruct op as [c|m|c]; simpl run_op; simpl in Hd; simpl local_op;
    simpl request_of; unfold bind, ret in *.
  - assert (E : profile net (sent w) (_serializeCollection c) = Rejected).
    { simpl in T. now destruct (profile net (sent w) (_serializeCollection c)). }
    rewrite (buildUserProfile_threw net c w H E).
    destruct (_buildUserProfileJS c (demote (eng w))) as [p1 e1].
    destruct (_buildUserProfileJS c (eng w)) as [p2 e2].
    simpl in *. now inversion Hd.
  - rewrite (scoreMovieAsync_threw net m w H T).
    destruct (scoreMovie m (demote (eng w))) as [p1 e1].
    destruct (scoreMovie m (eng w)) as [p2 e2].
    simpl in *. inversion Hd as [[Hx He]].
    apply eq_IZR in Hx. now subst.
  - rewrite (getSmartSuggestionsAsync_threw net c w H T).
    destruct (getSmartSuggestions c (demote (eng w))) as [p1 e1].
    destruct (getSmartSuggestions c (eng w)) as [p2 e2].
    simpl in *. now inversion Hd.
Qed.

Lemma run_op_declined net op w :
  serverAvailable (eng w) = Some true ->
  declined net (sent w) op = true ->
  is_score op = false ->
  run_op net op w =
  (fst (local_op op (eng w)),
   World (snd (local_op op (eng w))) (sent w ++ [request_of op])).
Proof.
  intros H D Hs.
  destruct op as [c|m|c]; [| discriminate |]; simpl run_op; simpl local_op;
    simpl request_of; unfold bind, ret.
  - rewrite (buildUserProfile_declined net c w H D).
    now destruct (_buildUserProfileJS c (eng w)).
  - rewrite (getSmartSuggestionsAsync_declined net c w H D).
    now destruct (getSmartSuggestions c (eng w)).
Qed.

(** C1, as amended: while the cached flag is [true], a remote call that
    raises (network error, timeout, a body that is not JSON, or a [null]
    body of /score or /recommend) makes the operation demote the flag to
    [false] at once and return what its local pipeline returns; a /profile
    or /recommend body that does not report success makes the operation
    return what its local pipeline returns and leaves the flag [true]. *)
Theorem remote_failure_falls_back
    (net : service) (op : operation) (w : world) :
  serverAvailable (eng w) = Some true ->
  (threw net (sent w) op = true ->
   fst (run_op net op w) = fst (local_op op (eng w)) /\
   serverAvailable (eng (snd (run_op net op w))) = Some false) /\
  (declined net (sent w) op = true -> is_score op = false ->
   fst (run_op net op w) = fst (local_op op (eng w)) /\
   serverAvailable (eng (snd (run_op net op w))) = Some true).
Proof.
  intros H. split.
  - intros T. rewrite (run_op_threw net op w H T). simpl.
    split; reflexivity.
  - intros D Hs. rewrite (run_op_declined net op w H D Hs). simpl.
    split; [reflexivity|]. now rewrite local_op_flag.
Qed.

Lemma remote_failure_falls_back_witness :
  (fst (run_op offline (ScoreItem action_movie) (World action_engine [])) =
   fst (local_op (ScoreItem action_movie) action_engine) /\
   serverAvailable
     (eng (snd (run_op offline (ScoreItem action_movie)
                  (World action_engine [])))) = Some false) /\
  (fst (run_op declining (FetchSuggestions []) (World action_engine [])) =
   fst (local_op (FetchSuggestions []) action_engine) /\
   serverAvailable
     (eng (snd (run_op declining (FetchSuggestions [])
                  (World action_engine [])))) = Some true).
Proof.
  split.
  - exact (proj1 (remote_failure_falls_back offline (ScoreItem action_movie)
                    (World action_engine []) eq_refl) eq_refl).
  - exact (proj2 (remote_failure_falls_back declining (FetchSuggestions [])
                    (World action_engine []) eq_refl) eq_refl eq_refl).
Defined.

Lemma round_integer (z : Z) (x : R) : x = IZR z -> round x = z.
Proof.
  intros ->. unfold round. symmetry. apply Int_part_spec. lra.
Qed.

Lemma action_movie_features :
  extractFeatures action_movie = [("genre:action", 2.0)].
Proof.
  unfold extractFeatures, action_movie. simpl.
  rewrite (Rgtb_false 0 0) by lra. reflexivity.
Qed.

(** The local score of [action_movie] on [action_engine] is 100. *)
Lemma action_movie_local_score :
  fst (scoreMovie action_movie action_engine) = 100%Z.
Proof.
  rewrite scoreMovie_run. simpl fst. unfold action_engine. simpl is_empty.
  cbv iota. cbn [userProfile idfCache].
  rewrite action_movie_features, cosineSimilarity_cosine.
  apply round_integer.
  unfold cosine, magnitude, dot_product, union_terms, weigh. simpl.
  unfold weight_in. simpl.
  replace (2 * 2 + 0) with (2 * 2) by lra.
  replace (2.0 * 1 * (2.0 * 1) + 0) with (2 * 2) by lra.
  rewrite sqrt_square by lra.
  destruct (Req_dec_T 2 0); lra.
Qed.

(** C1, as stated, fails: a /score body with success = false is a failure
    of the remote call, yet the operation returns the fixed score 0 where
    the local pipeline gives 100, and the flag stays [true]. *)
Lemma declined_score_is_not_local :
  ~ (forall (net : service) (op : operation) (w : world),
        serverAvailable (eng w) = Some true ->
        remote_failed net (sent w) op = true ->
        serverAvailable (eng (snd (run_op net op w))) = Some false /\
        fst (run_op net op w) = fst (local_op op (eng w))).
Proof.
  intros H.
  destruct (H declining (ScoreItem action_movie) (World action_engine [])
              eq_refl eq_refl) as [Hflag Hres].
  unfold run_op, local_op, bind, ret in Hres. cbn [eng] in Hres.
  rewrite (scoreMovieAsync_declined declining action_movie
             (World action_engine []) eq_refl eq_refl) in Hres.
  pose proof action_movie_local_score as Hs.
  destruct (scoreMovie action_movie action_engine) as [s e']. simpl in *.
  subst s. injection Hres as Hres. lra.
Qed.

(** ** Small collections *)

Lemma pick_in_range {A} (r : R) (xs : list A) :
  0 <= r < 1 -> xs <> [] -> exists x, pick r xs = Some x /\ In x xs.
Proof.
  intros [H0 H1] Hne. unfold pick.
  set (n := List.length xs).
  assert (Hn : (0 < n)%nat).
  { unfold n. destruct xs; [congruence | simpl; lia]. }
  assert (HnR : 0 < INR n) by now apply lt_0_INR.
  destruct (base_Int_part (r * INR n)) as [Hle Hgt].
  assert (Hlo : (0 <= Int_part (r * INR n))%Z).
  { assert (Hz : -1 < IZR (Int_part (r * INR n))) by nra.
    apply lt_IZR in Hz. lia. }
  assert (Hhi : (Z.to_nat (Int_part (r * INR n)) < n)%nat).
  { assert (Hz : IZR (Int_part (r * INR n)) < IZR (Z.of_nat n)).
    { rewrite <- INR_IZR_INZ. nra. }
    apply lt_IZR in Hz. lia. }
  destruct (nth_error xs (Z.to_nat (Int_part (r * INR n)))) as [x|] eqn:E.
  - exists x. split; [reflexivity|]. eapply nth_error_In; eauto.
  - apply nth_error_None in E. fold n in E. lia.
Qed.

(** A suggestion of kind "similar" of [getRecommendations] is the one made
    from the pick among the highly rated items. *)
Lemma getRecommendations_similar collection r1 r2 s :
  In s (getRecommendations collection r1 r2) ->
  type s = "similar" ->
  exists random,
    pick r2 (filter (fun m => Rgeb (rating m) 4) collection) = Some random /\
    s = Suggestion "similar" (LovedTitle (title random))
          (Some (Str.toLowerCase (genre random))) None.
Proof.
  unfold getRecommendations. intros Hin Ht.
  set (highRated := filter (fun m => Rgeb (rating m) 4) collection) in *.
  repeat match type of Hin with
         | context [if ?c then _ else _] => destruct c
         | context [match sort_desc gt_nat ?o with _ => _ end] =>
             destruct (sort_desc gt_nat o) as [|[? ?] ?]
         | context [match pick r2 highRated with _ => _ end] =>
             destruct (pick r2 highRated) as [random|] eqn:Ep
         end;
    simpl in Hin;
    repeat match type of Hin with
           | _ \/ _ => destruct Hin as [Hin|Hin]
           | False => contradiction
           end;
    subst s; try discriminate; eauto.
Qed.

Lemma getRecommendations_has_similar collection r1 r2 :
  0 <= r2 < 1 ->
  (exists m, In m collection /\ rating m >= 4) ->
  exists s, In s (getRecommendations collection r1 r2) /\ type s = "similar".
Proof.
  intros Hr (m & Hm & H4). unfold getRecommendations.
  set (highRated := filter (fun m => Rgeb (rating m) 4) collection).
  assert (Hin : In m highRated).
  { apply filter_In. split; [assumption | now apply Rgeb_true]. }
  assert (Hne : highRated <> []) by (intros E; rewrite E in Hin; inversion Hin).
  destruct (pick_in_range r2 highRated Hr Hne) as (x & Hp & _).
  assert (Hlen : (0 <? List.length highRated)%nat = true).
  { apply Nat.ltb_lt. destruct highRated; [congruence | simpl; lia]. }
  rewrite Hlen, Hp.
  eexists. split; [apply in_or_app; right; left; reflexivity | reflexivity].
Qed.

Lemma allSuggestions_unavailable net collection r1 r2 w :
  serverAvailable (eng w) = Some false ->
  (List.length collection <? 2)%nat = true ->
  allSuggestions net collection r1 r2 w =
  (getRecommendations collection r1 r2, w).
Proof.
  intros H Hlen. unfold allSuggestions, bind, ret.
  rewrite (getSmartSuggestionsAsync_unavailable net collection w H).
  rewrite getSmartSuggestions_run, Hlen. simpl. now destruct w.
Qed.

(** C3, as amended: on a collection of fewer than two items
    [getSmartSuggestions] returns the empty list and leaves the engine
    alone; [showRecommendations], on the local path, then displays the
    suggestions of [User.getRecommendations]; these include a suggestion of
    kind "similar" when some item is rated at least 4, and every such
    suggestion has as search term the lower-cased genre of an item rated at
    least 4, picked at random. *)
Theorem small_collection_falls_back
    (collection : list movie) (e : engine) (r1 r2 : R) :
  (List.length collection < 2)%nat ->
  0 <= r2 < 1 ->
  getSmartSuggestions collection e = ([], e) /\
  (forall net w,
      serverAvailable (eng w) = Some false ->
      allSuggestions net collection r1 r2 w =
      (getRecommendations collection r1 r2, w)) /\
  (forall s,
      In s (getRecommendations collection r1 r2) -> type s = "similar" ->
      exists m,
        In m collection /\ rating m >= 4 /\
        searchTerm s = Some (Str.toLowerCase (genre m))) /\
  ((exists m, In m collection /\ rating m >= 4) ->
   exists s,
     In s (getRecommendations collection r1 r2) /\ type s = "similar").
Proof.
  intros Hlen Hr. apply Nat.ltb_lt in Hlen.
  split; [|split; [|split]].
  - rewrite getSmartSuggestions_run, Hlen. reflexivity.
  - intros net w H. now apply allSuggestions_unavailable.
  - intros s Hin Ht.
    destruct (getRecommendations_similar _ _ _ _ Hin Ht) as (m & Hp & ->).
    unfold pick in Hp. apply nth_error_In, filter_In in Hp as [Hm H4].
    exists m. split; [assumption|]. split; [|reflexivity].
    unfold Rgeb in H4. now destruct (Rge_dec (rating m) 4).
  - now apply getRecommendations_has_similar.
Qed.

Lemma small_collection_falls_back_witness :
  getSmartSuggestions [two_directors] constructor = ([], constructor) /\
  exists s,
    In s (getRecommendations [two_directors] 0 0) /\ type s = "similar".
Proof.
  assert (Hlen : (List.length [two_directors] < 2)%nat) by (simpl; lia).
  assert (Hr : 0 <= 0 < 1) by lra.
  pose proof (small_collection_falls_back [two_directors] constructor 0 0
                Hlen Hr) as (H1 & _ & _ & H4).
  split; [exact H1|]. apply H4.
  exists two_directors. split; [now left | simpl; lra].
Defined.

Lemma allSuggestions_helpful r1 r2 :
  fst (allSuggestions helpful [two_directors] r1 r2 (World constructor [])) =
  [Suggestion "genre" (Text "More action") (Some "action") (Some 90%Z)].
Proof. reflexivity. Qed.

(** C3, as stated, fails, whichever operation is meant: on a one-item
    collection whose item is rated 5, [getSmartSuggestions] returns no
    suggestion at all, and [showRecommendations] displays what a service
    that is up ranked, with no suggestion of kind "similar". *)
Lemma small_collection_not_similarity :
  ~ ((forall (collection : list movie) (e : engine),
         (List.length collection < 2)%nat ->
         (exists m, In m collection /\ rating m >= 4) ->
         exists s,
           In s (fst (getSmartSuggestions collection e)) /\
           type s = "similar") \/
     (forall (net : service) (collection : list movie) (r1 r2 : R)
             (w : world),
         (List.length collection < 2)%nat ->
         (exists m, In m collection /\ rating m >= 4) ->
         0 <= r2 < 1 ->
         exists s,
           In s (fst (allSuggestions net collection r1 r2 w)) /\
           type s = "similar")).
Proof.
  assert (Hlen : (List.length [two_directors] < 2)%nat) by (simpl; lia).
  assert (Hm : exists m, In m [two_directors] /\ rating m >= 4).
  { exists two_directors. split; [now left | simpl; lra]. }
  intros [H|H].
  - destruct (H [two_directors] constructor Hlen Hm) as (s & Hin & _).
    rewrite getSmartSuggestions_run in Hin. simpl in Hin. exact Hin.
  - assert (Hr : 0 <= 0 < 1) by lra.
    destruct (H helpful [two_directors] 0 0 (World constructor [])
                Hlen Hm Hr) as (s & Hin & Ht).
    rewrite allSuggestions_helpful in Hin.
    destruct Hin as [<-|[]]. discriminate.
Qed.

(** ** Sample runs *)

Ltac decide_R :=
  repeat match goal with
         | |- context [Rgtb ?a ?b] =>
             first [ rewrite (Rgtb_true a b) by lra
                   | rewrite (Rgtb_false a b) by lra ]
         | |- context [Rgeb ?a ?b] =>
             first [ rewrite (Rgeb_true a b) by lra
                   | rewrite (Rgeb_false a b) by lra ]
         end.

Example names_of_example :
  names_of " A Director ,B,  c d " = ["a director"; "b"; "c d"].
Proof. reflexivity. Qed.

Example parseInt_examples :
  Str.parseInt "1999" = Some 1999%Z /\
  Str.parseInt " 2010-2015" = Some 2010%Z /\
  Str.parseInt "-15" = Some (-15)%Z /\
  Str.parseInt "0x1f" = Some 31%Z /\
  Str.parseInt "N/A" = None.
Proof. repeat split. Qed.

Example decade_of_examples :
  decade_of "1999" = "1990" /\ decade_of "2000" = "2000" /\
  decade_of "N/A" = "NaN".
Proof. repeat split. Qed.

Example extract_two_directors :
  extractFeatures two_directors =
  [("genre:action", 2.0); ("genre:crime", 2.0);
   ("director:a director", 1.5); ("director:b director", 1.5);
   ("actor:w", 1.0); ("actor:x", 1.0); ("actor:y", 1.0);
   ("decade:1990s", 0.8); ("rating:high", 0.5)].
Proof.
  unfold extractFeatures, two_directors, bucket_of. simpl.
  decide_R. reflexivity.
Qed.

Example confidence_examples :
  confidence_of 3 = 60%Z /\ confidence_of 1.27 = 25%Z /\
  confidence_of 7 = 99%Z.
Proof.
  unfold confidence_of. repeat split.
  - rewrite (round_integer 60) by lra. reflexivity.
  - replace (round (1.27 * 20)) with 25%Z; [reflexivity|].
    unfold round. apply Int_part_spec. lra.
  - rewrite (round_integer 140) by lra. reflexivity.
Qed.

(** The top terms are taken by descending weight, first come first among
    equals; a third actor and a decade give no suggestion. *)
Example rank_example :
  rank [("actor:x", 1); ("genre:action", 3); ("actor:y", 1);
        ("decade:1990s", 5); ("actor:z", 1); ("director:d", 2)] =
  [Suggestion "genre" (FavorsGenre (Some "action") 3) (Some "action")
     (Some (confidence_of 3));
   Suggestion "director" (EnjoysStyle (Some "d")) (Some "d")
     (Some (confidence_of 2));
   Suggestion "actor" (EnjoysActor (Some "x")) (Some "x")
     (Some (confidence_of 1));
   Suggestion "actor" (EnjoysActor (Some "y")) (Some "y")
     (Some (confidence_of 1))].
Proof.
  unfold rank, sort_desc. repeat (simpl; decide_R). reflexivity.
Qed.

(** A fresh engine probes a service that is down once, then scores
    locally; the next call sends nothing. *)
Example probe_then_local :
  run_ops offline [ScoreItem action_movie; ScoreItem action_movie]
    (World constructor []) =
  ([Scored 0; Scored 0], World (demote constructor) [GetHealth]).
Proof. reflexivity. Qed.

(** A service that is up is asked for every score. *)
Example remote_scores :
  run_ops helpful [ScoreItem action_movie; ScoreItem action_movie]
    (World constructor []) =
  ([Scored 50; Scored 50],
   World (set_serverAvailable (Some true) constructor)
     [GetHealth; PostScore action_movie; PostScore action_movie]).
Proof. reflexivity. Qed.

(** * Further properties of the recommender *)

(** ** Feature vectors *)

Lemma get_assign_all_value t p w names (f : obj R) x :
  get t (assign_all p w names f) = Some x -> x = w \/ get t f = Some x.
Proof.
  rewrite get_assign_all. destruct (names_term p names t).
  - intros [= <-]. now left.
  - now right.
Qed.

Lemma get_set_value t k (w : R) (f : obj R) x :
  get t (set k w f) = Some x -> x = w \/ get t f = Some x.
Proof.
  rewrite get_set. destruct (String.eqb t k).
  - intros [= <-]. now left.
  - now right.
Qed.

Lemma extractFeatures_weight m t x :
  get t (extractFeatures m) = Some x ->
  x = 2.0 \/ x = 1.5 \/ x = 1.0 \/ x = 0.8 \/ x = 0.5.
Proof.
  unfold extractFeatures. intros H.
  repeat match type of H with
         | get _ (if ?c then _ else _) = _ => destruct c
         | get _ (set _ _ _) = _ =>
             apply get_set_value in H; destruct H as [->|H]; [tauto|]
         | get _ (assign_all _ _ _ _) = _ =>
             apply get_assign_all_value in H; destruct H as [->|H]; [tauto|]
         end; discriminate.
Qed.

Lemma extractFeatures_positive m t x :
  get t (extractFeatures m) = Some x -> 0 < x.
Proof.
  intros H.
  destruct (extractFeatures_weight m t x H) as [->|[->|[->|[->| ->]]]]; lra.
Qed.

(** X1: a feature vector never has a term twice, and every weight in it is
    one of the five constants 2.0, 1.5, 1.0, 0.8, 0.5, so it is positive. *)
Theorem extractFeatures_well_formed (m : movie) :
  NoDup (keys (extractFeatures m)) /\
  (forall t x,
      get t (extractFeatures m) = Some x ->
      (x = 2.0 \/ x = 1.5 \/ x = 1.0 \/ x = 0.8 \/ x = 0.5) /\ 0 < x).
Proof.
  split; [apply NoDup_keys_extractFeatures|].
  intros t x H. pose proof (extractFeatures_weight m t x H) as Hw.
  split; [assumption|]. destruct Hw as [->|[->|[->|[->| ->]]]]; lra.
Qed.

Lemma extractFeatures_well_formed_witness :
  get "genre:action" (extractFeatures action_movie) = Some 2.0 /\ 0 < 2.0.
Proof.
  assert (H : get "genre:action" (extractFeatures action_movie) = Some 2.0).
  { rewrite action_movie_features. reflexivity. }
  split; [exact H|].
  exact (proj2 (proj2 (extractFeatures_well_formed action_movie)
                  "genre:action" 2.0 H)).
Defined.

(** ** The IDF table *)

Lemma has_term_df_pos t m collection :
  In m collection -> has_term t m = true -> (0 < df t collection)%nat.
Proof.
  intros Hin Ht. unfold df.
  assert (H : In m (filter (has_term t) collection))
    by (apply filter_In; now split).
  destruct (filter (has_term t) collection); [inversion H | simpl; lia].
Qed.

Lemma ln_ratio_antitone (n d1 d2 : nat) :
  (0 < d1 <= d2)%nat -> (0 < n)%nat ->
  ln (INR n / INR d2) <= ln (INR n / INR d1).
Proof.
  intros [H1 H2] Hn.
  assert (Hd1 : 0 < INR d1) by now apply lt_0_INR.
  assert (Hd2 : 0 < INR d2) by (apply lt_0_INR; lia).
  assert (HnR : 0 < INR n) by now apply lt_0_INR.
  assert (Hle : INR d1 <= INR d2) by now apply le_INR.
  assert (Hq2 : 0 < INR n / INR d2) by now apply Rdiv_lt_0_compat.
  assert (Hq : INR n / INR d2 <= INR n / INR d1).
  { unfold Rdiv. apply Rmult_le_compat_l; [lra|].
    now apply Rinv_le_contravar. }
  destruct Hq as [Hlt|Heq].
  - left. now apply ln_increasing.
  - rewrite Heq. lra.
Qed.

(** X2: of two terms of the collection, the one in at least as many items
    has the IDF that is at most as large, and the IDF of a term that every
    item has is exactly 1. *)
Theorem idf_penalises_common_terms
    (collection : list movie) (e : engine) (t1 t2 : string) :
  let idf := fst (computeIDF collection e) in
  (0 < df t1 collection)%nat ->
  (df t1 collection <= df t2 collection)%nat ->
  exists v1 v2,
    get t1 idf = Some v1 /\ get t2 idf = Some v2 /\ v2 <= v1 /\
    (df t2 collection = List.length collection -> v2 = 1).
Proof.
  cbv zeta. intros Hpos Hle.
  destruct (computeIDF_table collection e t1) as (_ & E1 & _).
  destruct (computeIDF_table collection e t2) as (_ & E2 & _).
  cbv zeta in E1, E2.
  replace (df t1 collection =? 0)%nat with false in E1
    by (symmetry; apply Nat.eqb_neq; lia).
  replace (df t2 collection =? 0)%nat with false in E2
    by (symmetry; apply Nat.eqb_neq; lia).
  eexists. eexists. split; [exact E1|]. split; [exact E2|].
  pose proof (df_le_length t1 collection) as L1.
  split.
  - pose proof (ln_ratio_antitone (List.length collection)
                  (df t1 collection) (df t2 collection)) as Hln.
    assert (ln (INR (List.length collection) / INR (df t2 collection)) <=
            ln (INR (List.length collection) / INR (df t1 collection)))
      by (apply Hln; lia).
    lra.
  - intros ->. unfold Rdiv. rewrite Rinv_r.
    + rewrite ln_1. lra.
    + apply not_0_INR. lia.
Qed.

Lemma df_sample :
  df "genre:crime" [two_directors; action_movie] = 1%nat /\
  df "genre:action" [two_directors; action_movie] = 2%nat.
Proof.
  unfold df, has_term. simpl filter.
  rewrite extract_two_directors, action_movie_features. split; reflexivity.
Qed.

Lemma idf_penalises_common_terms_witness :
  exists v1 v2,
    get "genre:crime"
      (fst (computeIDF [two_directors; action_movie] constructor)) = Some v1 /\
    get "genre:action"
      (fst (computeIDF [two_directors; action_movie] constructor)) = Some v2 /\
    v2 <= v1 /\
    (df "genre:action" [two_directors; action_movie] = 2%nat -> v2 = 1).
Proof.
  apply (idf_penalises_common_terms [two_directors; action_movie]
           constructor "genre:crime" "genre:action").
  - rewrite (proj1 df_sample). lia.
  - rewrite (proj1 df_sample), (proj2 df_sample). lia.
Defined.

(** ** Scores *)

Lemma round_range (x : R) (a b : Z) :
  IZR a <= x <= IZR b -> (a <= round x <= b)%Z.
Proof.
  intros [Ha Hb]. unfold round.
  destruct (base_Int_part (x + / 2)) as [Hle Hgt].
  split.
  - assert (H : IZR (a - 1) < IZR (Int_part (x + / 2))).
    { rewrite minus_IZR. lra. }
    apply lt_IZR in H. lia.
  - assert (H : IZR (Int_part (x + / 2)) < IZR (b + 1)).
    { rewrite plus_IZR. lra. }
    apply lt_IZR in H. lia.
Qed.

Lemma or_else_nonneg x d : (forall v, x = Some v -> 0 <= v) -> 0 <= d ->
  0 <= or_else x d.
Proof.
  intros H Hd. unfold or_else. destruct x as [v|]; [|assumption].
  destruct (Req_dec_T v 0); [assumption | now apply H].
Qed.

Lemma ratingBoost_pos m : 0 < ratingBoost_of m.
Proof.
  unfold ratingBoost_of.
  destruct (Rgeb (rating m) 4); [lra|]. destruct (Rgeb (rating m) 3); lra.
Qed.


Lemma contribution_nonneg cache t m :
  nonnegative cache -> 0 <= contribution cache t m.
Proof.
  intros Hc. unfold contribution.
  destruct (get t (extractFeatures m)) as [tf|] eqn:E; [|lra].
  pose proof (extractFeatures_positive m t tf E) as Hpos.
  pose proof (ratingBoost_pos m).
  assert (0 <= or_else (get t cache) 1).
  { apply or_else_nonneg; [|lra]. intros v Hv. eapply Hc; eauto. }
  apply Rmult_le_pos; [apply Rmult_le_pos|]; lra.
Qed.

Lemma Rsum_nonneg {A} (f : A -> R) l :
  (forall x, 0 <= f x) -> 0 <= Rsum f l.
Proof.
  intros H. induction l as [|x r IH]; simpl; [lra|].
  specialize (H x). lra.
Qed.

Lemma computeIDF_nonnegative collection e :
  nonnegative (fst (computeIDF collection e)).
Proof.
  intros t x H.
  destruct (computeIDF_table collection e t) as (_ & _ & Hge).
  specialize (Hge x H). lra.
Qed.

Lemma _buildUserProfileJS_sane collection e :
  nonnegative (idfCache e) -> sane (snd (_buildUserProfileJS collection e)).
Proof.
  intros Hc. destruct collection as [|m0 r0] eqn:Ec.
  - rewrite _buildUserProfileJS_empty. split; [|exact Hc].
    intros t x. discriminate.
  - rewrite <- Ec.
    assert (Hne : collection <> []) by (subst; discriminate).
    destruct (_buildUserProfileJS_run collection e Hne) as (p & -> & Hget).
    split; simpl.
    + intros t x H. rewrite Hget in H.
      destruct (existsb (has_term t) collection); [|discriminate].
      injection H as <-.
      apply Rmult_le_pos.
      * apply Rsum_nonneg. intros m. apply contribution_nonneg.
        apply (computeIDF_nonnegative collection e).
      * left. apply Rinv_0_lt_compat. apply lt_0_INR.
        destruct collection; [congruence | simpl; lia].
    + apply (computeIDF_nonnegative collection e).
Qed.


Lemma action_engine_sane : sane action_engine.
Proof.
  split; intros t x; unfold action_engine; simpl.
  - destruct (String.eqb t "genre:action"); [intros [= <-]; lra|discriminate].
  - discriminate.
Qed.


(** X4: the engine starts with no negative cached weight and every local
    operation keeps it so: a local profile build leaves only the weights
    it computed, which are sums of positive products, and the IDF values,
    which are at least 1. *)
Theorem local_ops_keep_sane (op : operation) (e : engine) :
  sane constructor /\ (sane e -> sane (snd (local_op op e))).
Proof.
  split.
  - split; intros t x; discriminate.
  - intros [Hp Hc]. destruct op as [c|m|c]; simpl; unfold bind, ret.
    + pose proof (_buildUserProfileJS_sane c e Hc) as H.
      now destruct (_buildUserProfileJS c e).
    + rewrite scoreMovie_run. now split.
    + rewrite getSmartSuggestions_run.
      destruct (List.length c <? 2)%nat; [now split|].
      simpl. now apply _buildUserProfileJS_sane.
Qed.

Lemma local_ops_keep_sane_witness :
  sane (snd (local_op (BuildProfile [two_directors; action_movie])
               action_engine)).
Proof.
  exact (proj2 (local_ops_keep_sane
                  (BuildProfile [two_directors; action_movie])
                  action_engine) action_engine_sane).
Defined.

(** ** More on cosine similarity *)

Lemma Rsum_zero {A} (f : A -> R) l :
  (forall x, In x l -> f x = 0) -> Rsum f l = 0.
Proof.
  induction l as [|y r IH]; simpl; intros H; [reflexivity|].
  rewrite (H y) by now left. rewrite IH; [lra|]. intros; apply H. now right.
Qed.

Lemma cosine_disjoint vecA vecB :
  (forall t, In t (keys vecA) -> ~ In t (keys vecB)) ->
  cosineSimilarity vecA vecB = 0.
Proof.
  intros Hd. rewrite cosineSimilarity_cosine. unfold cosine, dot_product.
  rewrite Rsum_zero.
  - destruct (Req_dec_T _ 0); [reflexivity|].
    destruct (Req_dec_T _ 0); [reflexivity|]. unfold Rdiv. ring.
  - intros t _. unfold weight_in.
    destruct (get t vecA) as [a|] eqn:Ea; [|ring].
    destruct (get t vecB) as [b|] eqn:Eb; [|ring].
    exfalso. apply (Hd t); eapply get_Some_In; eauto.
Qed.

Lemma keys_weigh_subset cache features t :
  NoDup (keys features) ->
  In t (keys (weigh cache features)) -> In t (keys features).
Proof.
  intros Hnd Hin. apply In_keys_get in Hin as [x Hx].
  rewrite get_weigh in Hx by assumption.
  destruct (get t features) eqn:E; [|discriminate].
  eapply get_Some_In; eauto.
Qed.

(** X7: two vectors with no term in common have similarity 0, and so the
    local score of an item that shares no term with the cached profile
    is 0. *)
Theorem no_common_term_scores_zero (m : movie) (e : engine) :
  (forall t, In t (keys (userProfile e)) -> has_term t m = false) ->
  cosineSimilarity (userProfile e) (weigh (idfCache e) (extractFeatures m)) = 0
  /\ fst (scoreMovie m e) = 0%Z.
Proof.
  intros H.
  assert (E : cosineSimilarity (userProfile e)
                (weigh (idfCache e) (extractFeatures m)) = 0).
  { apply cosine_disjoint. intros t Ht Hw.
    apply keys_weigh_subset in Hw; [|apply NoDup_keys_extractFeatures].
    specialize (H t Ht). unfold has_term in H.
    apply existsb_eqb_notIn in H. tauto. }
  split; [exact E|].
  rewrite scoreMovie_run. simpl fst.
  destruct (is_empty (userProfile e)); [reflexivity|].
  rewrite E. apply round_integer. simpl. lra.
Qed.

Lemma no_common_term_scores_zero_witness :
  fst (scoreMovie action_movie
         (Engine (Some false) [] [("genre:comedy", 2)])) = 0%Z.
Proof.
  refine (proj2 (no_common_term_scores_zero action_movie
                   (Engine (Some false) [] [("genre:comedy", 2)]) _)).
  intros t [<-|[]]. unfold has_term. rewrite action_movie_features.
  reflexivity.
Defined.

(** ** The profile build and the engine it finds *)

(** X8: the local profile build does not depend on what the engine held
    before: it returns the same profile from any two engines, and running
    it again on the engine it left changes nothing. *)
Theorem _buildUserProfileJS_forgets (collection : list movie)
    (e1 e2 : engine) :
  fst (_buildUserProfileJS collection e1) =
  fst (_buildUserProfileJS collection e2) /\
  _buildUserProfileJS collection (snd (_buildUserProfileJS collection e1)) =
  _buildUserProfileJS collection e1.
Proof.
  destruct (List.length collection =? 0)%nat eqn:Hlen.
  - unfold _buildUserProfileJS. rewrite Hlen. split; reflexivity.
  - rewrite !_buildUserProfileJS_closed by assumption. split; reflexivity.
Qed.

(** ** The sort and the order of the suggestions *)

Lemma insert_desc_perm (x : string * R) l :
  Permutation (x :: l) (insert_desc Rgtb x l).
Proof.
  induction l as [|y r IH]; simpl; [reflexivity|].
  destruct (Rgtb (snd y) (snd x)); [|reflexivity].
  rewrite perm_swap. now constructor.
Qed.

Lemma sort_desc_perm (l : obj R) : Permutation l (sort_desc Rgtb l).
Proof.
  unfold sort_desc. induction l as [|x r IH]; simpl; [constructor|].
  rewrite <- insert_desc_perm. now constructor.
Qed.

Lemma insert_desc_sorted (x : string * R) l :
  StronglySorted heavier l -> StronglySorted heavier (insert_desc Rgtb x l).
Proof.
  induction 1 as [|y r Hs IH Hall]; simpl.
  - repeat constructor.
  - unfold Rgtb. destruct (Rgt_dec (snd y) (snd x)) as [Hgt|Hle].
    + constructor; [assumption|].
      apply Forall_forall. intros z Hz.
      apply (Permutation_in _ (Permutation_sym (insert_desc_perm x r))) in Hz.
      destruct Hz as [<-|Hz]; [unfold heavier; lra|].
      rewrite Forall_forall in Hall. now apply Hall.
    + constructor; [now constructor|].
      constructor; [unfold heavier; lra|].
      eapply Forall_impl; [|exact Hall].
      intros z Hz. unfold heavier in *. lra.
Qed.

Lemma of_weight_insert w (x : string * R) l :
  of_weight w (insert_desc Rgtb x l) = of_weight w (x :: l).
Proof.
  unfold of_weight. induction l as [|y r IH]; [reflexivity|].
  simpl insert_desc.
  destruct (Rgtb (snd y) (snd x)) eqn:E; [|reflexivity].
  assert (Hgt : snd y > snd x).
  { unfold Rgtb in E. now destruct (Rgt_dec (snd y) (snd x)). }
  change (filter ?p (y :: ?l)) with
    (if p y then y :: filter p l else filter p l).
  cbv beta. rewrite IH. simpl filter.
  destruct (Req_dec_T (snd x) w), (Req_dec_T (snd y) w);
    try reflexivity. lra.
Qed.

Lemma sort_desc_sorted (l : obj R) :
  StronglySorted heavier (sort_desc Rgtb l).
Proof.
  unfold sort_desc. induction l as [|x r IH]; simpl.
  - constructor.
  - now apply insert_desc_sorted.
Qed.

(** X9: the sort of [getSmartSuggestions] rearranges the entries of the
    profile, puts them in non-increasing order of weight, and keeps entries
    of equal weight in the order the profile has them. *)
Theorem sort_desc_spec (profile : obj R) (w : R) :
  Permutation profile (sort_desc Rgtb profile) /\
  StronglySorted heavier (sort_desc Rgtb profile) /\
  of_weight w (sort_desc Rgtb profile) = of_weight w profile.
Proof.
  split; [apply sort_desc_perm|]. split; [apply sort_desc_sorted|].
  - unfold sort_desc. induction profile as [|x r IH]; [reflexivity|].
    simpl fold_right. rewrite of_weight_insert.
    unfold of_weight in *. simpl. now rewrite IH.
Qed.

Lemma Int_part_monotone x y : x <= y -> (Int_part x <= Int_part y)%Z.
Proof.
  intros H. destruct (base_Int_part x) as [Hx _].
  destruct (base_Int_part y) as [_ Hy].
  assert (Hz : IZR (Int_part x) < IZR (Int_part y + 1)).
  { rewrite plus_IZR. lra. }
  apply lt_IZR in Hz. lia.
Qed.

Lemma confidence_of_monotone w1 w2 :
  w1 <= w2 -> (confidence_of w1 <= confidence_of w2)%Z.
Proof.
  intros H. unfold confidence_of, round.
  apply Z.min_le_compat_r. apply Int_part_monotone. lra.
Qed.

Lemma suggest_step l e :
  suggest l e = l \/
  exists s, suggest l e = l ++ [s] /\
            confidence_shown s = confidence_of (snd e).
Proof.
  destruct e as [term weight]. unfold suggest.
  set (parts := Str.split ":" term).
  destruct (String.eqb (hd "" parts) "genre") eqn:Eg.
  - apply String.eqb_eq in Eg. rewrite Eg. simpl.
    destruct (existsb (has_type "genre") l); simpl; [now left|].
    right. eexists. split; reflexivity.
  - simpl. destruct (String.eqb (hd "" parts) "director") eqn:Ed.
    + apply String.eqb_eq in Ed. rewrite Ed. simpl.
      destruct (existsb (has_type "director") l); simpl; [now left|].
      right. eexists. split; reflexivity.
    + simpl. destruct (String.eqb (hd "" parts) "actor"); simpl;
        [|now left].
      destruct (List.length (filter (has_type "actor") l) <? 2)%nat;
        [|now left].
      right. eexists. split; reflexivity.
Qed.

Lemma StronglySorted_snoc {A} (R : A -> A -> Prop) l x :
  StronglySorted R l -> (forall y, In y l -> R y x) ->
  StronglySorted R (l ++ [x]).
Proof.
  induction 1 as [|y r Hs IH Hall]; intros H; simpl.
  - repeat constructor.
  - constructor.
    + apply IH. intros z Hz. apply H. now right.
    + apply Forall_app. split; [assumption|].
      constructor; [|constructor]. apply H. now left.
Qed.

Lemma StronglySorted_firstn {A} (R : A -> A -> Prop) n l :
  StronglySorted R l -> StronglySorted R (firstn n l).
Proof.
  intros H. revert n. induction H as [|y r Hs IH Hall]; intros [|n]; simpl;
    try constructor.
  - apply IH.
  - apply Forall_forall. intros z Hz. apply In_firstn in Hz.
    rewrite Forall_forall in Hall. now apply Hall.
Qed.

Lemma fold_suggest_sorted entries : forall l,
  StronglySorted heavier entries ->
  StronglySorted more_confident l ->
  (forall s e, In s l -> In e entries ->
               (confidence_of (snd e) <= confidence_shown s)%Z) ->
  StronglySorted more_confident (fold_left suggest entries l).
Proof.
  induction entries as [|e r IH]; intros l He Hl Hb; simpl; [assumption|].
  inversion He as [|? ? Hr Hall]; subst.
  rewrite Forall_forall in Hall.
  destruct (suggest_step l e) as [->|(s & -> & Hs)].
  - apply IH; try assumption. intros s e' Hin He'. apply Hb; auto.
    now right.
  - apply IH; try assumption.
    + apply StronglySorted_snoc; [assumption|].
      intros y Hy. unfold more_confident. rewrite Hs. apply Hb; auto.
      now left.
    + intros s' e' Hin He'. apply in_app_iff in Hin as [Hin|[<-|[]]].
      * apply Hb; auto. now right.
      * rewrite Hs. apply confidence_of_monotone. now apply Hall.
Qed.

(** X10: the ranked suggestions come in non-increasing order of
    confidence. *)
Theorem rank_descending (profile : obj R) :
  StronglySorted more_confident (rank profile).
Proof.
  unfold rank. apply StronglySorted_firstn. apply fold_suggest_sorted.
  - apply StronglySorted_firstn. apply sort_desc_sorted.
  - constructor.
  - intros s e [].
Qed.

(** ** The gateway when the service answers *)

Lemma traits_loop_run traits : forall e,
  forEach traits
    (fun (_ : unit) (t : string * R) =>
       let (feature, weight) := t in
       p <- gets userProfile ;;
       modify (set_userProfile (set feature weight p)))
    tt e =
  (tt, set_userProfile
         (fold_left (fun p (t : string * R) => set (fst t) (snd t) p)
            traits (userProfile e)) e).
Proof.
  induction traits as [|[f x] r IH]; intros e; simpl.
  - destruct e. reflexivity.
  - unfold bind at 1. unfold bind at 1. unfold gets, modify. rewrite IH.
    reflexivity.
Qed.

Lemma buildUserProfile_succeeded net c w b :
  serverAvailable (eng w) = Some true ->
  profile net (sent w) (_serializeCollection c) = Body b ->
  p_success b = true ->
  buildUserProfile net c w =
  (RemoteProfile b,
   World (set_userProfile (traits_profile (p_top_traits b)) (eng w))
     (sent w ++ [PostProfile (_serializeCollection c)])).
Proof.
  intros H E Hs. unfold buildUserProfile. remote_branch H.
  unfold buildUserProfilePython. received E. unfold ret at 1. rewrite Hs.
  unfold bind at 1. rewrite lift_run. unfold bind at 1.
  unfold traits_profile. destruct (p_top_traits b) as [ts|].
  - rewrite lift_run, traits_loop_run. reflexivity.
  - reflexivity.
Qed.

Lemma scoreMovieAsync_answered net m w b :
  serverAvailable (eng w) = Some true ->
  score net (sent w) (_serializeMovie m) = Body b ->
  s_success b = true ->
  scoreMovieAsync net m w =
  (match s_score b with
   | Some x => x
   | None => IZR (fst (scoreMovie m (eng w)))
   end,
   World (eng w) (sent w ++ [PostScore (_serializeMovie m)])).
Proof.
  intros H E Hs. unfold scoreMovieAsync. remote_branch H.
  unfold scoreMoviePython. received E. unfold ret at 1. rewrite Hs.
  destruct (s_score b) as [x|]; [reflexivity|].
  unfold bind, ret. rewrite lift_run. unfold gets.
  cbn [eng sent fst snd]. rewrite scoreMovie_run. reflexivity.
Qed.

Lemma getSmartSuggestionsAsync_succeeded net c w b :
  serverAvailable (eng w) = Some true ->
  recommend net (sent w) (_serializeCollection c) = Body b ->
  r_success b = true ->
  getSmartSuggestionsAsync net c w =
  (r_suggestions b,
   World (set_userProfile (names_profile (r_top_traits b)) (eng w))
     (sent w ++ [PostRecommend (_serializeCollection c)])).
Proof.
  intros H E Hs. unfold getSmartSuggestionsAsync. remote_branch H.
  unfold getSmartSuggestionsPython. received E. unfold ret at 1. rewrite Hs.
  unfold bind at 1. rewrite lift_run. unfold bind at 1.
  unfold names_profile. destruct (r_top_traits b) as [ts|]; reflexivity.
Qed.

(** X11: while the flag is [true], an answer that reports success is what
    the operation returns; one request is sent, the flag and the IDF table
    stay as they were, and the cached profile becomes the traits of the
    answer (a /score answer leaves the engine alone, and one whose score is
    [null] is replaced by the local score). *)
Theorem remote_answer_is_used (net : service) (w : world) :
  serverAvailable (eng w) = Some true ->
  (forall c b,
      profile net (sent w) (_serializeCollection c) = Body b ->
      p_success b = true ->
      buildUserProfile net c w =
      (RemoteProfile b,
       World (Engine (Some true) (idfCache (eng w))
                (traits_profile (p_top_traits b)))
         (sent w ++ [PostProfile (_serializeCollection c)]))) /\
  (forall m b,
      score net (sent w) (_serializeMovie m) = Body b ->
      s_success b = true ->
      scoreMovieAsync net m w =
      (match s_score b with
       | Some x => x
       | None => IZR (fst (scoreMovie m (eng w)))
       end,
       World (eng w) (sent w ++ [PostScore (_serializeMovie m)]))) /\
  (forall c b,
      recommend net (sent w) (_serializeCollection c) = Body b ->
      r_success b = true ->
      getSmartSuggestionsAsync net c w =
      (r_suggestions b,
       World (Engine (Some true) (idfCache (eng w))
                (names_profile (r_top_traits b)))
         (sent w ++ [PostRecommend (_serializeCollection c)]))).
Proof.
  intros H. repeat split.
  - intros c b E Hs. rewrite (buildUserProfile_succeeded net c w b H E Hs).
    unfold set_userProfile. now rewrite H.
  - intros m b E Hs. exact (scoreMovieAsync_answered net m w b H E Hs).
  - intros c b E Hs.
    rewrite (getSmartSuggestionsAsync_succeeded net c w b H E Hs).
    unfold set_userProfile. now rewrite H.
Qed.

Lemma remote_answer_is_used_witness :
  scoreMovieAsync helpful action_movie (World action_engine []) =
  (50, World action_engine [PostScore action_movie]).
Proof.
  exact (proj1 (proj2 (remote_answer_is_used helpful
                         (World action_engine []) eq_refl))
           action_movie (ScoreBody true (Some 50)) eq_refl eq_refl).
Defined.

(** ** The health probe *)

Lemma checkServer_flag net w :
  exists b, serverAvailable (eng (snd (checkServer net w))) = Some b /\
            fst (checkServer net w) = b /\
            sent (snd (checkServer net w)) =
            sent w ++ match serverAvailable (eng w) with
                      | None => [GetHealth]
                      | Some _ => []
                      end.
Proof.
  destruct (serverAvailable (eng w)) as [b|] eqn:E.
  - rewrite (checkServer_cached net w b E). exists b. simpl.
    now rewrite app_nil_r.
  - rewrite (checkServer_probe net w E). eexists. simpl.
    repeat split.
Qed.

Lemma checkServer_idempotent net w :
  checkServer net (snd (checkServer net w)) = checkServer net w.
Proof.
  destruct (checkServer_flag net w) as (b & Hf & Hr & _).
  rewrite (checkServer_cached net _ b Hf).
  destruct (checkServer net w) as [r w']. simpl in *. now subst.
Qed.

Lemma bind_checkServer {A} net (k : bool -> G A) w :
  bind (checkServer net) k (snd (checkServer net w)) =
  bind (checkServer net) k w.
Proof.
  unfold bind. rewrite checkServer_idempotent.
  now destruct (checkServer net w).
Qed.

Lemma run_op_after_probe net op w :
  run_op net op (snd (checkServer net w)) = run_op net op w.
Proof.
  destruct op as [c|m|c]; simpl; unfold bind at 1 2.
  - unfold buildUserProfile. cbv zeta. now rewrite bind_checkServer.
  - unfold scoreMovieAsync. cbv zeta. now rewrite bind_checkServer.
  - unfold getSmartSuggestionsAsync. cbv zeta. now rewrite bind_checkServer.
Qed.

Lemma probes_app l l' : probes (l ++ l') = (probes l + probes l')%nat.
Proof. unfold probes. now rewrite filter_app, length_app. Qed.

Lemma request_of_no_probe op : probes [request_of op] = O.
Proof. now destruct op. Qed.

(** With the flag set, an operation sends at most its own request and
    leaves the flag set. *)
Lemma run_op_checked net op w b :
  serverAvailable (eng w) = Some b ->
  exists b',
    serverAvailable (eng (snd (run_op net op w))) = Some b' /\
    sent (snd (run_op net op w)) =
    sent w ++ (if b then [request_of op] else []).
Proof.
  intros H. destruct b.
  - destruct (threw net (sent w) op) eqn:T.
    { rewrite (run_op_threw net op w H T). exists false. split; reflexivity. }
    destruct (declined net (sent w) op) eqn:D.
    { destruct (is_score op) eqn:S.
      - destruct op as [c|m|c]; try discriminate. simpl run_op.
        unfold bind, ret.
        rewrite (scoreMovieAsync_declined net m w H D).
        exists true. split; [exact H | reflexivity].
      - rewrite (run_op_declined net op w H D S). exists true. simpl.
        split; [|reflexivity]. now rewrite local_op_flag. }
    destruct op as [c|m|c]; simpl in T, D; simpl run_op; unfold bind, ret.
    + destruct (profile net (sent w) (_serializeCollection c)) as [| |pb] eqn:E;
        try discriminate.
      apply negb_false_iff in D.
      rewrite (buildUserProfile_succeeded net c w pb H E D).
      exists true. split; [exact H | reflexivity].
    + destruct (score net (sent w) (_serializeMovie m)) as [| |sb] eqn:E;
        try discriminate.
      apply negb_false_iff in D.
      rewrite (scoreMovieAsync_answered net m w sb H E D).
      exists true. split; [exact H | reflexivity].
    + destruct (recommend net (sent w) (_serializeCollection c))
        as [| |rb] eqn:E; try discriminate.
      apply negb_false_iff in D.
      rewrite (getSmartSuggestionsAsync_succeeded net c w rb H E D).
      exists true. split; [exact H | reflexivity].
  - rewrite (run_op_unavailable net op w H). exists false. simpl.
    split; [|now rewrite app_nil_r].
    now rewrite local_op_flag.
Qed.

Lemma run_op_log net op w :
  exists b',
    serverAvailable (eng (snd (run_op net op w))) = Some b' /\
    probes (sent (snd (run_op net op w))) =
    (probes (sent w) + match serverAvailable (eng w) with
                       | None => 1
                       | Some _ => 0
                       end)%nat.
Proof.
  rewrite <- run_op_after_probe.
  destruct (checkServer_flag net w) as (b & Hf & _ & Hs).
  destruct (run_op_checked net op _ b Hf) as (b' & Hf' & Hs').
  exists b'. split; [assumption|].
  rewrite Hs', Hs, !probes_app.
  assert (E : probes (if b then [request_of op] else []) = O).
  { destruct b; [apply request_of_no_probe | reflexivity]. }
  rewrite E. destruct (serverAvailable (eng w));
    [change (probes []) with O | change (probes [GetHealth]) with 1%nat];
    lia.
Qed.

(** X12: an engine probes the service at most once: a sequence of gateway
    operations sends one health probe when it starts with the flag
    unchecked and is not empty, and none otherwise; and after any
    operation the flag is checked. *)
Theorem health_probe_once (net : service) (ops : list operation) (w : world) :
  let w' := snd (run_ops net ops w) in
  probes (sent w') =
    (probes (sent w) + match serverAvailable (eng w), ops with
                       | None, _ :: _ => 1
                       | _, _ => 0
                       end)%nat /\
  (ops <> [] -> serverAvailable (eng w') <> None).
Proof.
  cbv zeta. revert w. induction ops as [|op rest IH]; intros w.
  - simpl. split; [|congruence]. destruct (serverAvailable (eng w)); lia.
  - simpl run_ops. unfold bind, ret.
    destruct (run_op_log net op w) as (b & Hf & Hp).
    destruct (run_op net op w) as [r w1]. simpl in Hf, Hp.
    destruct (IH w1) as [Hp1 Hf1]. rewrite Hf in Hp1.
    destruct rest as [|op' rest'].
    + simpl in *. split; [|congruence].
      rewrite Hp. destruct (serverAvailable (eng w)); lia.
    + remember (op' :: rest') as rest eqn:Er.
      destruct (run_ops net rest w1) as [rs w2]. simpl in *.
      split.
      * rewrite Hp1, Hp. subst rest.
        destruct (serverAvailable (eng w)); lia.
      * intros _. apply Hf1. subst rest. discriminate.
Qed.

Lemma health_probe_once_witness :
  serverAvailable
    (eng (snd (run_ops offline [ScoreItem action_movie]
                 (World constructor [])))) <> None.
Proof.
  apply (proj2 (health_probe_once offline [ScoreItem action_movie]
                  (World constructor []))).
  discriminate.
Defined.

(** ** The simple recommendations *)

Lemma get_tally {A} (key : A -> string) g (l : list A) : forall o,
  get g (fold_left (fun o x => bump (key x) o) l o) =
  match List.length (filter (fun x => String.eqb (key x) g) l) with
  | O => get g o
  | S n => Some (or_zero (get g o) + S n)%nat
  end.
Proof.
  induction l as [|x r IH]; intros o; simpl; [reflexivity|].
  rewrite IH. unfold bump. rewrite get_set, (String.eqb_sym g (key x)).
  destruct (String.eqb (key x) g) eqn:E; simpl.
  - apply String.eqb_eq in E. rewrite E.
    destruct (List.length (filter _ r)); f_equal; lia.
  - reflexivity.
Qed.

Lemma insert_desc_perm_nat (x : string * nat) l :
  Permutation (x :: l) (insert_desc gt_nat x l).
Proof.
  induction l as [|y r IH]; simpl; [reflexivity|].
  destruct (gt_nat (snd y) (snd x)); [|reflexivity].
  rewrite perm_swap. now constructor.
Qed.

Lemma sort_desc_perm_nat (l : obj nat) : Permutation l (sort_desc gt_nat l).
Proof.
  unfold sort_desc. induction l as [|x r IH]; simpl; [constructor|].
  rewrite <- insert_desc_perm_nat. now constructor.
Qed.

Lemma insert_desc_sorted_nat (x : string * nat) l :
  StronglySorted more_items l ->
  StronglySorted more_items (insert_desc gt_nat x l).
Proof.
  induction 1 as [|y r Hs IH Hall]; simpl.
  - repeat constructor.
  - destruct (gt_nat (snd y) (snd x)) eqn:E; unfold gt_nat in E.
    + apply Nat.ltb_lt in E. constructor; [assumption|].
      apply Forall_forall. intros z Hz.
      apply (Permutation_in _
               (Permutation_sym (insert_desc_perm_nat x r))) in Hz.
      destruct Hz as [<-|Hz]; [unfold more_items; lia|].
      rewrite Forall_forall in Hall. now apply Hall.
    + apply Nat.ltb_ge in E. constructor; [now constructor|].
      constructor; [unfold more_items; lia|].
      eapply Forall_impl; [|exact Hall].
      intros z Hz. unfold more_items in *. lia.
Qed.

Lemma sort_desc_sorted_nat (l : obj nat) :
  StronglySorted more_items (sort_desc gt_nat l).
Proof.
  unfold sort_desc. induction l as [|x r IH]; simpl.
  - constructor.
  - now apply insert_desc_sorted_nat.
Qed.

(** The first entry of a sorted tally has the largest count. *)
Lemma sort_desc_head_nat (l : obj nat) :
  match sort_desc gt_nat l with
  | [] => l = []
  | h :: _ => In h l /\ forall e, In e l -> (snd e <= snd h)%nat
  end.
Proof.
  pose proof (sort_desc_perm_nat l) as P.
  pose proof (sort_desc_sorted_nat l) as S.
  destruct (sort_desc gt_nat l) as [|h r].
  - now apply Permutation_nil, Permutation_sym.
  - split.
    + apply (Permutation_in _ (Permutation_sym P)). now left.
    + intros e He. apply (Permutation_in _ P) in He.
      inversion S as [|? ? _ Hall]; subst. rewrite Forall_forall in Hall.
      destruct He as [<-|He]; [lia | now apply Hall].
Qed.

Lemma NoDup_keys_tally {A} (key : A -> string) (l : list A) : forall o,
  NoDup (keys o) -> NoDup (keys (fold_left (fun o x => bump (key x) o) l o)).
Proof.
  induction l as [|x r IH]; intros o H; simpl; [assumption|].
  apply IH. unfold bump. now apply NoDup_keys_set.
Qed.

Lemma In_get {A} (k : string) (v : A) (o : obj A) :
  NoDup (keys o) -> In (k, v) o -> get k o = Some v.
Proof.
  induction o as [|[k' v'] r IH]; simpl; [tauto|].
  intros Hnd [E|Hin].
  - injection E as -> ->. now rewrite String.eqb_refl.
  - inversion Hnd as [|? ? Hnotin Hnd']; subst.
    destruct (String.eqb k k') eqn:E.
    + apply String.eqb_eq in E; subst k'. exfalso. apply Hnotin.
      change k with (fst (k, v)). now apply in_map.
    + now apply IH.
Qed.

Lemma get_In {A} (k : string) (v : A) (o : obj A) :
  get k o = Some v -> In (k, v) o.
Proof.
  induction o as [|[k' v'] r IH]; simpl; [discriminate|].
  destruct (String.eqb k k') eqn:E.
  - apply String.eqb_eq in E. intros [= ->]. subst. now left.
  - intros H. right. now apply IH.
Qed.

(** X13: on a collection that is not empty, [topGenre] is the genre field
    of one of the items, and no genre field is shared by more items. *)
Theorem topGenre_is_most_frequent (collection : list movie) :
  collection <> [] ->
  (exists m, In m collection /\ topGenre collection = genre m) /\
  (forall g,
      (genre_count g collection <=
       genre_count (topGenre collection) collection)%nat).
Proof.
  intros Hne. unfold topGenre.
  set (genres := fold_left (fun o m => bump (genre m) o) collection []).
  assert (Hnd : NoDup (keys genres))
    by (apply NoDup_keys_tally; constructor).
  assert (Hget : forall g,
             get g genres =
             match genre_count g collection with
             | O => None
             | S n => Some (S n)
             end).
  { intros g. unfold genres, genre_count. rewrite get_tally. simpl.
    now destruct (List.length _). }
  pose proof (sort_desc_head_nat genres) as Hh.
  destruct (sort_desc gt_nat genres) as [|[g n] r].
  - exfalso. destruct collection as [|m0 r0]; [congruence|].
    specialize (Hget (genre m0)). rewrite Hh in Hget.
    unfold genre_count in Hget. simpl in Hget.
    rewrite String.eqb_refl in Hget. simpl in Hget. discriminate.
  - destruct Hh as [Hin Hmax].
    pose proof (In_get _ _ _ Hnd Hin) as Hg. rewrite Hget in Hg.
    split.
    + destruct (genre_count g collection) eqn:Ec; [discriminate|].
      unfold genre_count in Ec.
      destruct (filter (fun m => String.eqb (genre m) g) collection)
        as [|m r'] eqn:Ef; [discriminate|].
      assert (Hm : In m (filter (fun m => String.eqb (genre m) g) collection))
        by (rewrite Ef; now left).
      apply filter_In in Hm as [Hm Hg']. apply String.eqb_eq in Hg'.
      exists m. now split.
    + intros g'. destruct (genre_count g' collection) eqn:Ec'; [lia|].
      assert (Hin' : In (g', S n0) genres).
      { apply get_In. rewrite Hget, Ec'. reflexivity. }
      specialize (Hmax _ Hin'). simpl in Hmax.
      destruct (genre_count g collection); [discriminate|].
      injection Hg as <-. lia.
Qed.

Lemma topGenre_is_most_frequent_witness :
  (genre_count "Action" [two_directors; action_movie] <=
   genre_count (topGenre [two_directors; action_movie])
     [two_directors; action_movie])%nat.
Proof.
  assert (Hne : [two_directors; action_movie] <> []) by discriminate.
  exact (proj2 (topGenre_is_most_frequent [two_directors; action_movie] Hne)
           "Action").
Defined.

Lemma In_set {A} (e : string * A) k v (o : obj A) :
  In e (set k v o) -> e = (k, v) \/ In e o.
Proof.
  induction o as [|[k' v'] r IH]; simpl.
  - intros [<-|[]]. now left.
  - destruct (String.eqb k k') eqn:E; simpl.
    + apply String.eqb_eq in E; subst k'. intros [<-|H]; auto.
    + intros [<-|H]; auto. destruct (IH H); auto.
Qed.

Lemma directorCount_bound collection : forall o c,
  (forall e, In e o -> (snd e <= c)%nat) ->
  forall e,
    In e (fold_left
            (fun o m =>
               if Str.truthy (director m)
                  && negb (String.eqb (director m) "Unknown")
               then bump (Str.trim (hd "" (Str.split "," (director m)))) o
               else o)
            collection o) ->
    (snd e <= c + List.length collection)%nat.
Proof.
  induction collection as [|m r IH]; intros o c Ho e; simpl.
  - intros H. specialize (Ho e H). lia.
  - intros H. replace (c + S (List.length r))%nat
      with (S c + List.length r)%nat by lia.
    eapply IH; [|exact H]. intros e' He'.
    destruct (Str.truthy (director m)
              && negb (String.eqb (director m) "Unknown")).
    + unfold bump in He'. apply In_set in He' as [->|He'].
      * simpl. destruct (get _ o) as [n|] eqn:Eg; simpl; [|lia].
        apply get_In in Eg. specialize (Ho _ Eg). simpl in Ho. lia.
      * specialize (Ho _ He'). lia.
    + specialize (Ho _ He'). lia.
Qed.

(** X14: [getRecommendations] returns at most three suggestions, at most
    one of each of the kinds genre, director and similar and none of
    another kind, none with a confidence; and on a collection of fewer than
    two items it has no director suggestion. *)
Theorem getRecommendations_shape (collection : list movie) (r1 r2 : R) :
  let out := getRecommendations collection r1 r2 in
  (List.length out <= 3)%nat /\
  (kind_count "genre" out <= 1)%nat /\
  (kind_count "director" out <= 1)%nat /\
  (kind_count "similar" out <= 1)%nat /\
  (forall s, In s out ->
             confidence s = None /\
             (type s = "genre" \/ type s = "director" \/ type s = "similar"))
  /\ ((List.length collection < 2)%nat -> kind_count "director" out = O).
Proof.
  cbv zeta. unfold getRecommendations. fold (directorCount_of collection).
  pose proof (sort_desc_head_nat (directorCount_of collection)) as Hh.
  assert (Hb : forall e, In e (directorCount_of collection) ->
                         (snd e <= List.length collection)%nat).
  { intros e He.
    apply (directorCount_bound collection [] O) in He; [lia|].
    intros e' []. }
  destruct (sort_desc gt_nat (directorCount_of collection)) as [|[name n] rest].
  - repeat match goal with
           | |- context [if ?c then _ else _] => destruct c
           | |- context [match pick r2 ?l with _ => _ end] =>
               destruct (pick r2 l)
           end;
      unfold kind_count; simpl;
      (do 4 (split; [lia|]));
      (split; [|intros _; reflexivity]);
      intros s H; repeat (destruct H as [<-|H]; [simpl; auto|]);
      contradiction.
  - destruct Hh as [Hin _]. specialize (Hb _ Hin). simpl in Hb.
    destruct (2 <=? n)%nat eqn:E2;
      repeat match goal with
             | |- context [if ?c then _ else _] => destruct c
             | |- context [match pick r2 ?l with _ => _ end] =>
                 destruct (pick r2 l)
             end;
      unfold kind_count; simpl;
      (do 4 (split; [lia|]));
      (split;
       [|intros Hlen; try reflexivity; apply Nat.leb_le in E2; lia]);
      intros s H; repeat (destruct H as [<-|H]; [simpl; auto|]);
      contradiction.
Qed.

Lemma getRecommendations_shape_witness :
  kind_count "director" (getRecommendations [action_movie] 0 0) = O.
Proof.
  apply (getRecommendations_shape [action_movie] 0 0). simpl. lia.
Defined.

(** * The event bus *)

Lemma listeners_on ev' ev l b :
  listeners ev' (on ev l b) =
  if String.eqb ev' ev then listeners ev b ++ [l] else listeners ev' b.
Proof.
  unfold listeners, on. simpl.
  destruct (get ev (_events b)) as [ls|] eqn:E; simpl.
  - rewrite E, get_set. destruct (String.eqb ev' ev); reflexivity.
  - rewrite !get_set, String.eqb_refl.
    destruct (String.eqb ev' ev) eqn:Ee; reflexivity.
Qed.

Lemma listeners_off ev' ev l b :
  listeners ev' (off ev l b) =
  if String.eqb ev' ev
  then filter (fun cb => negb (same_listener cb l)) (listeners ev b)
  else listeners ev' b.
Proof.
  unfold listeners, off.
  destruct (get ev (_events b)) as [ls|] eqn:E; simpl.
  - rewrite get_set. destruct (String.eqb ev' ev); reflexivity.
  - destruct (String.eqb ev' ev) eqn:Ee; [|reflexivity].
    apply String.eqb_eq in Ee; subst. now rewrite E.
Qed.

Lemma listeners_once ev' ev f b :
  listeners ev' (once ev f b) =
  if String.eqb ev' ev
  then listeners ev b ++ [OnceWrapper (allocated b) ev f]
  else listeners ev' b.
Proof. unfold once. rewrite listeners_on. reflexivity. Qed.

Lemma same_listener_refl l : same_listener l l = true.
Proof. destruct l; simpl; apply Nat.eqb_refl. Qed.

Lemma same_listener_sym a b : same_listener a b = same_listener b a.
Proof. destruct a, b; simpl; try reflexivity; apply Nat.eqb_sym. Qed.

Lemma same_listener_trans a b c :
  same_listener a b = true -> same_listener b c = true ->
  same_listener a c = true.
Proof.
  destruct a, b, c; simpl; try discriminate;
    rewrite !Nat.eqb_eq; congruence.
Qed.

Lemma filter_length_split {A} (p : A -> bool) l :
  List.length (filter (fun x => negb (p x)) l) =
  (List.length l - List.length (filter p l))%nat.
Proof.
  induction l as [|x r IH]; [reflexivity|].
  pose proof (filter_length_le p r). cbn [filter].
  destruct (p x); cbn [negb List.length]; rewrite IH; lia.
Qed.

Lemma registrations_removed l l' ls :
  registrations l' (filter (fun cb => negb (same_listener cb l)) ls) =
  if same_listener l' l then O else registrations l' ls.
Proof.
  unfold registrations. induction ls as [|x r IH]; simpl.
  - now destruct (same_listener l' l).
  - destruct (same_listener x l) eqn:E1; simpl.
    + rewrite IH. destruct (same_listener l' l) eqn:E2; [reflexivity|].
      destruct (same_listener x l') eqn:E3; [|reflexivity].
      rewrite (same_listener_sym l' l) in E2.
      rewrite (same_listener_sym x l) in E1.
      pose proof (same_listener_trans l x l' E1 E3). congruence.
    + destruct (same_listener x l') eqn:E3; simpl; rewrite IH.
      * destruct (same_listener l' l) eqn:E2; [|reflexivity].
        pose proof (same_listener_trans x l' l E3 E2). congruence.
      * reflexivity.
Qed.

Lemma listenerCount_length ev b :
  listenerCount ev b = List.length (listeners ev b).
Proof.
  unfold listenerCount, listeners. now destruct (get ev (_events b)).
Qed.

(** X15: [off] removes every registration of the callback for the event at
    once, however often it was registered, and nothing else: the count of
    listeners of the event drops by the number of its registrations, the
    other listeners of the event and the other events keep theirs. *)
Theorem off_removes_every_registration
    (ev : string) (l : listener) (b : bus) :
  registrations l (listeners ev (off ev l b)) = O /\
  listenerCount ev (off ev l b) =
    (listenerCount ev b - registrations l (listeners ev b))%nat /\
  (forall l', same_listener l' l = false ->
              registrations l' (listeners ev (off ev l b)) =
              registrations l' (listeners ev b)) /\
  (forall ev', ev' <> ev -> listeners ev' (off ev l b) = listeners ev' b).
Proof.
  repeat split.
  - rewrite listeners_off, String.eqb_refl, registrations_removed.
    now rewrite same_listener_refl.
  - rewrite !listenerCount_length, listeners_off, String.eqb_refl.
    unfold registrations.
    rewrite (filter_length_split (fun cb => same_listener cb l)).
    reflexivity.
  - intros l' H. rewrite listeners_off, String.eqb_refl.
    now rewrite registrations_removed, H.
  - intros ev' H. rewrite listeners_off.
    apply String.eqb_neq in H. now rewrite H.
Qed.

Lemma off_removes_every_registration_witness :
  listeners "removed" (off "added" (Plain 0) (on "removed" (Plain 0) new_bus))
  = listeners "removed" (on "removed" (Plain 0) new_bus).
Proof.
  apply (off_removes_every_registration "added" (Plain 0)
           (on "removed" (Plain 0) new_bus)).
  discriminate.
Defined.

Lemma In_eventNames ev b :
  In ev (eventNames b) <-> get ev (_events b) <> None.
Proof.
  unfold eventNames. pose proof (get_None_iff ev (_events b)) as H.
  destruct (get ev (_events b)) eqn:E.
  - split; [congruence|]. intros _.
    destruct (in_dec string_dec ev (keys (_events b))) as [|n]; auto.
    apply H in n. congruence.
  - split; [|congruence]. intros Hin. apply H in Hin; tauto.
Qed.

Lemma eventNames_on ev' ev l b :
  In ev' (eventNames (on ev l b)) <-> ev' = ev \/ In ev' (eventNames b).
Proof.
  unfold eventNames, on. simpl.
  destruct (get ev (_events b)) eqn:E.
  - rewrite In_keys_set. reflexivity.
  - rewrite !In_keys_set. tauto.
Qed.

Lemma eventNames_off ev' ev l b :
  In ev' (eventNames (off ev l b)) <-> In ev' (eventNames b).
Proof.
  unfold eventNames, off.
  destruct (get ev (_events b)) eqn:E; [|reflexivity]. simpl.
  rewrite In_keys_set. split; [|tauto].
  intros [->|H]; [|assumption]. eapply get_Some_In; eauto.
Qed.

(** X16: an event name, once registered, is never forgotten: [on], [once]
    and [off] keep every known name, [on] and [once] make theirs known,
    and [emit] answers [true] exactly for the known names, so also for an
    event whose listeners have all been removed. *)
Theorem event_names_persist {D} (act : nat -> D -> bus -> bus * bool)
    (ev ev' : string) (l : listener) (f : nat) (d : D) (b : bus) :
  (In ev' (eventNames b) ->
   In ev' (eventNames (on ev l b)) /\
   In ev' (eventNames (once ev f b)) /\
   In ev' (eventNames (off ev l b))) /\
  In ev (eventNames (on ev l b)) /\
  In ev (eventNames (once ev f b)) /\
  In ev (eventNames (off ev l (on ev l b))) /\
  (fst (emit D act ev d b) = true <-> In ev (eventNames b)).
Proof.
  repeat split.
  - apply eventNames_on. now right.
  - unfold once. apply eventNames_on. now right.
  - now apply eventNames_off.
  - apply eventNames_on. now left.
  - unfold once. apply eventNames_on. now left.
  - apply eventNames_off, eventNames_on. now left.
  - rewrite In_eventNames. unfold emit.
    destruct (get ev (_events b)); simpl; congruence.
  - rewrite In_eventNames. unfold emit.
    destruct (get ev (_events b)); simpl; congruence.
Qed.

Lemma event_names_persist_witness :
  fst (emit unit silent "movie:added" tt
         (off "movie:added" (Plain 1) (on "movie:added" (Plain 1) new_bus)))
  = true /\
  listenerCount "movie:added"
    (off "movie:added" (Plain 1) (on "movie:added" (Plain 1) new_bus)) = O.
Proof.
  split; [|reflexivity].
  apply (proj2 (proj2 (proj2 (proj2
           (event_names_persist silent "movie:added" "movie:added"
              (Plain 1) 1 tt
              (off "movie:added" (Plain 1)
                 (on "movie:added" (Plain 1) new_bus))))))).
  apply (proj1 (proj2 (proj2 (proj2
           (event_names_persist silent "movie:added" "movie:added"
              (Plain 1) 1 tt new_bus))))).
Defined.

(** X17: a listener registered with [once] is not removed by [off] with
    the callback it was registered for: the closure stays, last among the
    listeners of the event; and two calls of [once] make two closures. *)
Theorem once_survives_off (ev : string) (f : nat) (b : bus) :
  listeners ev (off ev (Plain f) (once ev f b)) =
    filter (fun cb => negb (same_listener cb (Plain f))) (listeners ev b)
    ++ [OnceWrapper (allocated b) ev f] /\
  listeners ev (once ev f (once ev f b)) =
    listeners ev b ++ [OnceWrapper (allocated b) ev f;
                       OnceWrapper (S (allocated b)) ev f].
Proof.
  split.
  - rewrite listeners_off, String.eqb_refl, listeners_once.
    rewrite String.eqb_refl, filter_app. reflexivity.
  - rewrite !listeners_once, String.eqb_refl, <- app_assoc. reflexivity.
Qed.

(** *** Emitting to callbacks that leave the bus alone *)

Section QuietCallbacks.
Context {D : Type} (act : nat -> D -> bus -> bus * bool).
Hypothesis act_quiet : quiet act.

Lemma invoke_quiet l d b :
  fst (invoke D act l d b) =
  match l with
  | Plain _ => b
  | OnceWrapper _ ev f => if snd (act f d b) then b else off ev l b
  end.
Proof.
  destruct l as [f|w ev f]; simpl.
  - apply act_quiet.
  - pose proof (act_quiet f d b) as H.
    destruct (act f d b) as [b' threw]. simpl in *. subst b'.
    now destruct threw.
Qed.

(** What a property of the bus needs to survive the calls of [emit]. *)
Lemma calls_keep (P : bus -> Prop) d ls : forall b,
  (forall w ev f b, In (OnceWrapper w ev f) ls -> P b ->
                    P (off ev (OnceWrapper w ev f) b)) ->
  P b ->
  P (fold_left (fun b cb => fst (invoke D act cb d b)) ls b).
Proof.
  induction ls as [|l r IH]; intros b Hoff HP; simpl; [assumption|].
  apply IH.
  - intros w ev f b' Hin. apply Hoff. now right.
  - rewrite invoke_quiet. destruct l as [g|w ev f]; [assumption|].
    destruct (snd (act f d b)); [assumption|].
    apply Hoff; [now left | assumption].
Qed.

Lemma emit_listeners ev d b :
  snd (emit D act ev d b) =
  fold_left (fun b cb => fst (invoke D act cb d b)) (listeners ev b) b.
Proof.
  unfold emit, listeners. now destruct (get ev (_events b)).
Qed.

Lemma emit_keeps_plain ev ev' d g b :
  In (Plain g) (listeners ev' b) ->
  In (Plain g) (listeners ev' (snd (emit D act ev d b))).
Proof.
  intros H. rewrite emit_listeners.
  apply (calls_keep (fun b => In (Plain g) (listeners ev' b))); [|assumption].
  intros w e f b' _ Hin. rewrite listeners_off.
  destruct (String.eqb ev' e) eqn:E; [|assumption].
  apply String.eqb_eq in E; subst e. apply filter_In. now split.
Qed.

Lemma emit_adds_nothing ev ev' d b x :
  In x (listeners ev' (snd (emit D act ev d b))) -> In x (listeners ev' b).
Proof.
  rewrite emit_listeners.
  apply (calls_keep
           (fun b' => In x (listeners ev' b') -> In x (listeners ev' b)));
    [|tauto].
  intros w e f b' _ IH. rewrite listeners_off.
  destruct (String.eqb ev' e) eqn:E; [|assumption].
  apply String.eqb_eq in E; subst e.
  intros H. apply filter_In in H as [H _]. now apply IH.
Qed.

Lemma emit_allocated ev d b :
  allocated (snd (emit D act ev d b)) = allocated b.
Proof.
  rewrite emit_listeners.
  apply (calls_keep (fun b' => allocated b' = allocated b)); [|reflexivity].
  intros w e f b' _ IH. unfold off.
  now destruct (get e (_events b')).
Qed.

Lemma emit_keeps_wrapper ev d b W :
  (forall l, In l (listeners ev b) -> same_listener W l = true -> l = W) ->
  forall ls ev',
    (forall l, In l ls -> In l (listeners ev b)) ->
    ~ In W ls ->
    In W (listeners ev' b) ->
    In W (listeners ev'
            (fold_left (fun b cb => fst (invoke D act cb d b)) ls b)).
Proof.
  intros Huniq ls ev' Hsub Hnot HW.
  apply (calls_keep (fun b' => In W (listeners ev' b'))); [|assumption].
  intros w e f b' Hin IH. rewrite listeners_off.
  destruct (String.eqb ev' e) eqn:Ee; [|assumption].
  apply String.eqb_eq in Ee; subst e.
  apply filter_In. split; [assumption|].
  destruct (same_listener W (OnceWrapper w ev' f)) eqn:E; [|reflexivity].
  exfalso. apply Hnot.
  rewrite <- (Huniq _ (Hsub _ Hin) E). assumption.
Qed.
End QuietCallbacks.

Lemma quiet_silent : quiet silent /\ quiet thrower.
Proof. split; intros f d b; reflexivity. Qed.

Lemma new_bus_wf : bus_wf new_bus.
Proof. intros ev w e f []. Qed.

(** X18: with callbacks that leave the bus alone, a listener registered
    with [once] is gone after the next [emit] of its event when its
    callback returns, and is still registered when its callback throws. *)
Theorem once_fires_once {D} (act : nat -> D -> bus -> bus * bool)
    (ev : string) (f : nat) (d : D) (b : bus) :
  quiet act -> bus_wf b ->
  let W := OnceWrapper (allocated b) ev f in
  let b' := snd (emit D act ev d (once ev f b)) in
  ((forall s, snd (act f d s) = false) -> ~ In W (listeners ev b')) /\
  ((forall s, snd (act f d s) = true) -> In W (listeners ev b')).
Proof.
  intros Hq Hwf W b'.
  set (b1 := once ev f b). set (hs := listeners ev b).
  assert (E1 : listeners ev b1 = hs ++ [W]).
  { unfold b1. now rewrite listeners_once, String.eqb_refl. }
  assert (HnotW : ~ In W hs).
  { intros Hin. apply Hwf in Hin. lia. }
  set (bm := fold_left (fun b cb => fst (invoke D act cb d b)) hs b1).
  assert (Hb' : b' = fst (invoke D act W d bm)).
  { unfold b'. rewrite (emit_listeners act). fold b1. rewrite E1.
    now rewrite fold_left_app. }
  assert (HW : In W (listeners ev bm)).
  { unfold bm. apply (emit_keeps_wrapper act Hq ev d b1 W).
    - intros l Hl Hs. rewrite E1 in Hl.
      apply in_app_iff in Hl as [Hl|[<-|[]]]; [|reflexivity].
      destruct l as [g|w e g]; [discriminate|].
      apply Hwf in Hl. simpl in Hs. apply Nat.eqb_eq in Hs. lia.
    - intros l Hl. rewrite E1. apply in_app_iff. now left.
    - assumption.
    - rewrite E1. apply in_app_iff. right. now left. }
  rewrite Hb', (invoke_quiet act Hq). unfold W. cbv iota. fold W. split.
  - intros Hf. rewrite Hf, listeners_off, String.eqb_refl.
    intros Hin. apply filter_In in Hin as [_ Hs].
    now rewrite same_listener_refl in Hs.
  - intros Hf. now rewrite Hf.
Qed.

Lemma once_fires_once_witness :
  ~ In (OnceWrapper 0 "movie:added" 1)
      (listeners "movie:added"
         (snd (emit unit silent "movie:added" tt
                 (once "movie:added" 1 new_bus)))) /\
  In (OnceWrapper 0 "movie:added" 1)
    (listeners "movie:added"
       (snd (emit unit thrower "movie:added" tt
               (once "movie:added" 1 new_bus)))).
Proof.
  split.
  - exact (proj1 (once_fires_once silent "movie:added" 1 tt new_bus
                    (proj1 quiet_silent) new_bus_wf)
             (fun _ => eq_refl)).
  - exact (proj2 (once_fires_once thrower "movie:added" 1 tt new_bus
                    (proj2 quiet_silent) new_bus_wf)
             (fun _ => eq_refl)).
Defined.

(** X19: with callbacks that leave the bus alone, [emit] removes nothing
    but closures of [once]: every listener registered with [on] keeps its
    registrations for every event, no listener is added, and a bus whose
    closures are its own stays so. *)
Theorem emit_only_removes_once_closures {D}
    (act : nat -> D -> bus -> bus * bool)
    (ev ev' : string) (d : D) (b : bus) :
  quiet act ->
  let b' := snd (emit D act ev d b) in
  (forall g, In (Plain g) (listeners ev' b) -> In (Plain g) (listeners ev' b'))
  /\ (forall l, In l (listeners ev' b') -> In l (listeners ev' b))
  /\ allocated b' = allocated b
  /\ (bus_wf b -> bus_wf b').
Proof.
  intros Hq b'. split; [|split; [|split]].
  - intros g. apply (emit_keeps_plain act Hq).
  - intros l. apply (emit_adds_nothing act Hq).
  - apply (emit_allocated act Hq).
  - intros Hwf e w e0 f Hin. unfold b'.
    rewrite (emit_allocated act Hq).
    apply (emit_adds_nothing act Hq) in Hin. eapply Hwf; eauto.
Qed.

Lemma emit_only_removes_once_closures_witness :
  In (Plain 7)
    (listeners "movie:added"
       (snd (emit unit silent "movie:added" tt
               (once "movie:added" 1
                  (on "movie:added" (Plain 7) new_bus))))).
Proof.
  apply (proj1 (emit_only_removes_once_closures silent "movie:added"
                  "movie:added" tt
                  (once "movie:added" 1 (on "movie:added" (Plain 7) new_bus))
                  (proj1 quiet_silent))).
  simpl. now left.
Defined.

(** * The library of a user *)

Lemma take_first_Some p l x r :
  User.take_first p l = Some (x, r) ->
  exists l1 l2,
    l = l1 ++ x :: l2 /\ r = l1 ++ l2 /\ p x = true /\
    forall y, In y l1 -> p y = false.
Proof.
  revert x r. induction l as [|y t IH]; intros x r; simpl; [discriminate|].
  destruct (p y) eqn:E.
  - intros [= <- <-]. exists [], t. repeat split; auto. intros z [].
  - destruct (User.take_first p t) as [[z t']|]; [|discriminate].
    intros [= <- <-]. destruct (IH z t' eq_refl) as (l1 & l2 & -> & -> & Hp & Hn).
    exists (y :: l1), l2. repeat split; auto.
    intros w [<-|Hw]; auto.
Qed.

Lemma take_first_None p l :
  User.take_first p l = None <-> existsb p l = false.
Proof.
  induction l as [|y t IH]; simpl; [tauto|].
  destruct (p y); simpl.
  - split; discriminate.
  - rewrite <- IH. destruct (User.take_first p t) as [[z t']|];
      split; congruence.
Qed.

Lemma existsb_has_id id l :
  existsb (User.has_id id) l = true <-> In id (ids l).
Proof.
  unfold ids. rewrite existsb_exists, in_map_iff. unfold User.has_id.
  split; intros (m & H1 & H2).
  - apply String.eqb_eq in H2. eauto.
  - exists m. split; [assumption|]. now apply String.eqb_eq.
Qed.

Lemma existsb_has_id_false id l :
  existsb (User.has_id id) l = false <-> ~ In id (ids l).
Proof.
  rewrite <- existsb_has_id. destruct (existsb _ l); intuition congruence.
Qed.

Lemma ids_app l l' : ids (l ++ l') = ids l ++ ids l'.
Proof. unfold ids. apply map_app. Qed.

Lemma NoDup_snoc {A} (l : list A) x : NoDup l -> ~ In x l -> NoDup (l ++ [x]).
Proof.
  intros H Hx. apply NoDup_app; auto.
  - repeat constructor. simpl. tauto.
  - intros a Ha [<-|[]]. tauto.
Qed.

(** Taking a movie out of a list without duplicates. *)
Lemma take_first_ids id l m r :
  NoDup (ids l) -> User.take_first (User.has_id id) l = Some (m, r) ->
  imdbID (User.item m) = id /\ NoDup (ids r) /\ ~ In id (ids r) /\
  (forall x, In x (ids r) -> In x (ids l)).
Proof.
  intros Hnd H. apply take_first_Some in H as (l1 & l2 & -> & -> & Hp & _).
  unfold User.has_id in Hp. apply String.eqb_eq in Hp.
  rewrite ids_app in Hnd. simpl in Hnd. rewrite Hp in Hnd.
  apply NoDup_remove in Hnd as [Hnd Hnot]. rewrite !ids_app.
  repeat split; auto.
  intros x Hx. simpl. apply in_app_iff in Hx. apply in_app_iff.
  simpl. tauto.
Qed.

Lemma addToWatchlist_ok u m :
  library_ok u -> library_ok (user_after (User.addToWatchlist m u)).
Proof.
  intros (Hc & Hw & Hd). unfold user_after, User.addToWatchlist.
  destruct (existsb _ (User.collection u)) eqn:E1; simpl;
    [repeat split; assumption|].
  destruct (existsb _ (User.watchlist u)) eqn:E2; simpl;
    [repeat split; assumption|].
  split; [assumption|]. split.
  - simpl. rewrite ids_app. apply NoDup_snoc; auto.
    now apply existsb_has_id_false.
  - simpl. intros x Hx. rewrite ids_app in Hx.
    apply in_app_iff in Hx as [Hx|[<-|[]]]; auto.
    now apply existsb_has_id_false.
Qed.

Lemma removeMovie_ok u id :
  library_ok u -> library_ok (user_after (User.removeMovie id u)).
Proof.
  intros (Hc & Hw & Hd). unfold user_after, User.removeMovie.
  destruct (User.take_first _ (User.collection u)) as [[x r]|] eqn:E;
    simpl; [|repeat split; assumption].
  destruct (take_first_ids _ _ _ _ Hc E) as (_ & Hnd & _ & Hsub).
  split; [assumption|]. split; [assumption|].
  simpl. intros y Hy Hin. apply (Hd y Hy). now apply Hsub.
Qed.

Lemma removeFromWatchlist_ok u id :
  library_ok u -> library_ok (user_after (User.removeFromWatchlist id u)).
Proof.
  intros (Hc & Hw & Hd). unfold user_after, User.removeFromWatchlist.
  destruct (User.take_first _ (User.watchlist u)) as [[x r]|] eqn:E;
    simpl; [|repeat split; assumption].
  destruct (take_first_ids _ _ _ _ Hw E) as (_ & Hnd & _ & Hsub).
  split; [assumption|]. split; [assumption|].
  simpl. intros y Hy. apply Hd. now apply Hsub.
Qed.

Lemma moveToCollection_ok u id now :
  library_ok u -> library_ok (user_after (User.moveToCollection id now u)).
Proof.
  intros (Hc & Hw & Hd). unfold user_after, User.moveToCollection.
  destruct (User.take_first _ (User.watchlist u)) as [[x r]|] eqn:E;
    simpl; [|repeat split; assumption].
  destruct (take_first_ids _ _ _ _ Hw E) as (Hid & Hnd & Hnot & Hsub).
  assert (Hx : In id (ids (User.watchlist u))).
  { apply take_first_Some in E as (l1 & l2 & -> & _ & _ & _).
    rewrite ids_app. apply in_app_iff. right. left. exact Hid. }
  split; [|split; [assumption|]].
  - simpl. rewrite ids_app. simpl. apply NoDup_snoc; auto.
    rewrite Hid. now apply Hd.
  - simpl. intros y Hy. rewrite ids_app. simpl. intros Hin.
    apply in_app_iff in Hin as [Hin|[Hin|[]]].
    + apply (Hd y); auto.
    + rewrite Hid in Hin. subst y. tauto.
Qed.

Lemma addMovie_nodup u m :
  library_ok u ->
  NoDup (ids (User.collection (user_after (User.addMovie m u)))) /\
  NoDup (ids (User.watchlist (user_after (User.addMovie m u)))).
Proof.
  intros (Hc & Hw & Hd). unfold user_after, User.addMovie.
  destruct (existsb _ (User.collection u)) eqn:E1; simpl;
    [split; assumption|].
  split; [|assumption].
  rewrite ids_app. apply NoDup_snoc; auto.
  now apply existsb_has_id_false.
Qed.

(** X20: a library with no identifier twice in the collection, twice on
    the watchlist or in both stays so under [addToWatchlist],
    [removeMovie], [removeFromWatchlist] and [moveToCollection];
    [addMovie] keeps the collection and the watchlist free of duplicates
    (it does not look at the watchlist). *)
Theorem library_stays_ok (u : User.user) (m : User.entry) (id now : string) :
  library_ok u ->
  library_ok (user_after (User.addToWatchlist m u)) /\
  library_ok (user_after (User.removeMovie id u)) /\
  library_ok (user_after (User.removeFromWatchlist id u)) /\
  library_ok (user_after (User.moveToCollection id now u)) /\
  NoDup (ids (User.collection (user_after (User.addMovie m u)))) /\
  NoDup (ids (User.watchlist (user_after (User.addMovie m u)))).
Proof.
  intros H.
  split; [now apply addToWatchlist_ok|].
  split; [now apply removeMovie_ok|].
  split; [now apply removeFromWatchlist_ok|].
  split; [now apply moveToCollection_ok|].
  now apply addMovie_nodup.
Qed.

Lemma empty_library_ok : library_ok (User.Build [] []).
Proof. repeat split; simpl; try constructor. intros id []. Qed.

Lemma library_stays_ok_witness :
  library_ok (user_after (User.addToWatchlist heat (User.Build [] []))).
Proof.
  exact (proj1 (library_stays_ok (User.Build [] []) heat "tt0113277"
                  "2024-03-03" empty_library_ok)).
Defined.

(** X21: each of the five methods that change the library fails exactly
    when the identifier is where it must not be ([addMovie]: in the
    collection; [addToWatchlist]: in the collection or on the watchlist) or
    is not where it must be ([removeMovie]: in the collection;
    [removeFromWatchlist], [moveToCollection]: on the watchlist), and a
    call that fails leaves the user as it was, saves nothing and sends no
    event. *)
Theorem failed_call_changes_nothing
    (u : User.user) (m : User.entry) (id now : string) :
  let mid := imdbID (User.item m) in
  (succeeded (User.addMovie m u) = false <->
   In mid (ids (User.collection u))) /\
  (succeeded (User.addToWatchlist m u) = false <->
   In mid (ids (User.collection u)) \/ In mid (ids (User.watchlist u))) /\
  (succeeded (User.removeMovie id u) = false <->
   ~ In id (ids (User.collection u))) /\
  (succeeded (User.removeFromWatchlist id u) = false <->
   ~ In id (ids (User.watchlist u))) /\
  (succeeded (User.moveToCollection id now u) = false <->
   ~ In id (ids (User.watchlist u))) /\
  (succeeded (User.addMovie m u) = false ->
   nothing_done (User.addMovie m u) u) /\
  (succeeded (User.addToWatchlist m u) = false ->
   nothing_done (User.addToWatchlist m u) u) /\
  (succeeded (User.removeMovie id u) = false ->
   nothing_done (User.removeMovie id u) u) /\
  (succeeded (User.removeFromWatchlist id u) = false ->
   nothing_done (User.removeFromWatchlist id u) u) /\
  (succeeded (User.moveToCollection id now u) = false ->
   nothing_done (User.moveToCollection id now u) u).
Proof.
  cbv zeta. unfold succeeded, nothing_done, user_after, effects_of.
  split; [|split; [|split; [|split; [|split; [|split; [|split;
    [|split; [|split]]]]]]]].
  - unfold User.addMovie. rewrite <- existsb_has_id.
    destruct (existsb _ (User.collection u)); simpl; split; congruence.
  - unfold User.addToWatchlist. rewrite <- !existsb_has_id.
    destruct (existsb _ (User.collection u)); simpl; [tauto|].
    destruct (existsb _ (User.watchlist u)); simpl; [tauto|].
    split; [discriminate | intros [?|?]; discriminate].
  - unfold User.removeMovie. rewrite <- existsb_has_id_false.
    rewrite <- take_first_None.
    destruct (User.take_first _ (User.collection u)) as [[x r]|]; simpl;
      split; congruence.
  - unfold User.removeFromWatchlist. rewrite <- existsb_has_id_false.
    rewrite <- take_first_None.
    destruct (User.take_first _ (User.watchlist u)) as [[x r]|]; simpl;
      split; congruence.
  - unfold User.moveToCollection. rewrite <- existsb_has_id_false.
    rewrite <- take_first_None.
    destruct (User.take_first _ (User.watchlist u)) as [[x r]|]; simpl;
      split; congruence.
  - unfold User.addMovie.
    destruct (existsb _ (User.collection u)); simpl; [tauto|discriminate].
  - unfold User.addToWatchlist.
    destruct (existsb _ (User.collection u)); simpl; [tauto|].
    destruct (existsb _ (User.watchlist u)); simpl; [tauto|discriminate].
  - unfold User.removeMovie.
    destruct (User.take_first _ (User.collection u)) as [[x r]|]; simpl;
      [discriminate|tauto].
  - unfold User.removeFromWatchlist.
    destruct (User.take_first _ (User.watchlist u)) as [[x r]|]; simpl;
      [discriminate|tauto].
  - unfold User.moveToCollection.
    destruct (User.take_first _ (User.watchlist u)) as [[x r]|]; simpl;
      [discriminate|tauto].
Qed.

Lemma failed_call_changes_nothing_witness :
  nothing_done (User.removeMovie "tt0113277" (User.Build [] [heat]))
    (User.Build [] [heat]).
Proof.
  exact (proj1 (proj2 (proj2 (proj2 (proj2 (proj2 (proj2 (proj2
           (failed_call_changes_nothing (User.Build [] [heat]) heat
              "tt0113277" "2024-03-03")))))))) eq_refl).
Defined.

Lemma take_first_last p l m :
  existsb p l = false -> p m = true ->
  User.take_first p (l ++ [m]) = Some (m, l).
Proof.
  induction l as [|x r IH]; simpl; intros Hl Hm.
  - now rewrite Hm.
  - apply orb_false_elim in Hl as [Hx Hr]. rewrite Hx.
    now rewrite (IH Hr Hm).
Qed.

Lemma find_last p (l : list User.entry) m :
  existsb p l = false -> p m = true -> find p (l ++ [m]) = Some m.
Proof.
  induction l as [|x r IH]; simpl; intros Hl Hm.
  - now rewrite Hm.
  - apply orb_false_elim in Hl as [Hx Hr]. rewrite Hx. now apply IH.
Qed.

Lemma has_id_refl m : User.has_id (imdbID (User.item m)) m = true.
Proof. unfold User.has_id. apply String.eqb_refl. Qed.

(** X22: a movie whose identifier is new to the collection is found by
    [getMovie] once added, and removing it again gives back the user as it
    was; a movie new to the collection and to the watchlist that is put on
    the watchlist and then moved ends in the collection, dated at the move,
    with the watchlist as before; and in a collection without duplicates a
    removed identifier is no longer found. *)
Theorem add_get_remove (u : User.user) (m : User.entry) (now : string) :
  let mid := imdbID (User.item m) in
  ~ In mid (ids (User.collection u)) ->
  User.getMovie mid (user_after (User.addMovie m u)) = Some m /\
  user_after (User.removeMovie mid (user_after (User.addMovie m u))) = u /\
  (~ In mid (ids (User.watchlist u)) ->
   user_after (User.moveToCollection mid now
                 (user_after (User.addToWatchlist m u))) =
   User.Build
     (User.collection u ++ [User.Entry (User.item m) (User.reviews m) now])
     (User.watchlist u)) /\
  (forall id,
      NoDup (ids (User.collection u)) ->
      User.getMovie id (user_after (User.removeMovie id u)) = None).
Proof.
  cbv zeta. intros Hnew. apply existsb_has_id_false in Hnew.
  unfold user_after. split; [|split; [|split]].
  - unfold User.addMovie. rewrite Hnew. simpl. unfold User.getMovie. simpl.
    apply find_last; [assumption | apply has_id_refl].
  - unfold User.addMovie. rewrite Hnew. simpl. unfold User.removeMovie.
    simpl. rewrite (take_first_last _ _ _ Hnew (has_id_refl m)). simpl.
    now destruct u.
  - intros Hw. apply existsb_has_id_false in Hw.
    unfold User.addToWatchlist. rewrite Hnew, Hw. simpl.
    unfold User.moveToCollection. simpl.
    rewrite (take_first_last _ _ _ Hw (has_id_refl m)). reflexivity.
  - intros id Hnd. unfold User.removeMovie, User.getMovie.
    destruct (User.take_first _ (User.collection u)) as [[x r]|] eqn:E;
      simpl.
    + destruct (take_first_ids _ _ _ _ Hnd E) as (_ & _ & Hnot & _).
      apply existsb_has_id_false in Hnot.
      destruct (find (User.has_id id) r) eqn:Ef; [|reflexivity].
      apply find_some in Ef as [Hin Hp].
      assert (existsb (User.has_id id) r = true)
        by (apply existsb_exists; eauto).
      congruence.
    + apply take_first_None in E.
      destruct (find (User.has_id id) (User.collection u)) eqn:Ef;
        [|reflexivity].
      apply find_some in Ef as [Hin Hp].
      assert (existsb (User.has_id id) (User.collection u) = true)
        by (apply existsb_exists; eauto).
      congruence.
Qed.

Lemma add_get_remove_witness :
  User.getMovie "tt0113277"
    (user_after (User.addMovie heat (User.Build [] []))) = Some heat.
Proof.
  refine (proj1 (add_get_remove (User.Build [] []) heat "2024-03-03" _)).
  simpl. intros [].
Defined.

Lemma filter_length_cons {A} (p : A -> bool) x l :
  List.length (filter p (x :: l)) =
  ((if p x then 1 else 0) + List.length (filter p l))%nat.
Proof. simpl. now destruct (p x). Qed.

(** X23: the filters for "Action", "Comedy", "Drama", "Horror" and "Other"
    split the collection: every movie is in exactly one of the five lists,
    so their lengths add up to the size of the collection; and the filter
    "all" is the collection itself. *)
Theorem filterByGenre_partition (u : User.user) :
  (List.length (User.filterByGenre "Action" u)
   + List.length (User.filterByGenre "Comedy" u)
   + List.length (User.filterByGenre "Drama" u)
   + List.length (User.filterByGenre "Horror" u)
   + List.length (User.filterByGenre "Other" u))%nat =
  List.length (User.collection u) /\
  User.filterByGenre "all" u = User.collection u.
Proof.
  split; [|reflexivity].
  unfold User.filterByGenre. simpl String.eqb. cbv iota.
  induction (User.collection u) as [|m r IH]; [reflexivity|].
  rewrite !filter_length_cons. simpl List.length. rewrite <- IH.
  unfold User.named_genres. simpl existsb.
  destruct (String.eqb (genre (User.item m)) "Action") eqn:E1.
  { apply String.eqb_eq in E1. rewrite ?E1. simpl. lia. }
  destruct (String.eqb (genre (User.item m)) "Comedy") eqn:E2.
  { apply String.eqb_eq in E2. rewrite ?E2. simpl. lia. }
  destruct (String.eqb (genre (User.item m)) "Drama") eqn:E3.
  { apply String.eqb_eq in E3. rewrite ?E3. simpl. lia. }
  destruct (String.eqb (genre (User.item m)) "Horror") eqn:E4.
  { apply String.eqb_eq in E4. rewrite ?E4. simpl. lia. }
  simpl. lia.
Qed.

Lemma fold_bump_filter {A} (c : A -> bool) (key : A -> string) l : forall o,
  fold_left (fun o x => if c x then bump (key x) o else o) l o =
  fold_left (fun o x => bump (key x) o) (filter c l) o.
Proof.
  induction l as [|x r IH]; intros o; simpl; [reflexivity|].
  rewrite IH. now destruct (c x).
Qed.

(** X24: [getMoodStats] gives each mood the number of movies of the
    collection that have it, and has no entry for a mood that no movie has
    nor for the empty mood. *)
Theorem getMoodStats_counts (u : User.user) (g : string) :
  get "" (User.getMoodStats u) = None /\
  (g <> "" ->
   get g (User.getMoodStats u) =
   match mood_count g u with
   | O => None
   | S n => Some (S n)
   end).
Proof.
  unfold User.getMoodStats, mood_count.
  rewrite (fold_bump_filter (fun m => Str.truthy (mood (User.item m)))
             (fun m => mood (User.item m))).
  split.
  - rewrite get_tally. simpl get.
    replace (filter (fun x => String.eqb (mood (User.item x)) "")
               (filter (fun m => Str.truthy (mood (User.item m)))
                  (User.collection u))) with (@nil User.entry);
      [reflexivity|].
    induction (User.collection u) as [|m r IH]; [reflexivity|].
    simpl. destruct (mood (User.item m)) eqn:E; simpl; [assumption|].
    rewrite E. simpl. assumption.
  - intros Hg. rewrite get_tally. simpl get.
    replace (filter (fun x => String.eqb (mood (User.item x)) g)
               (filter (fun m => Str.truthy (mood (User.item m)))
                  (User.collection u)))
      with (filter (fun m => String.eqb (mood (User.item m)) g)
              (User.collection u)).
    + now destruct (List.length _).
    + induction (User.collection u) as [|m r IH]; [reflexivity|].
      simpl. destruct (String.eqb (mood (User.item m)) g) eqn:E.
      * apply String.eqb_eq in E.
        destruct (mood (User.item m)) eqn:Em; [congruence|].
        cbn [Str.truthy filter]. rewrite Em, E, String.eqb_refl.
        f_equal. exact IH.
      * destruct (Str.truthy (mood (User.item m))); simpl;
          rewrite ?E; assumption.
Qed.

Lemma getMoodStats_counts_witness :
  get "happy"
    (User.getMoodStats
       (User.Build
          [User.Entry (Movie "Up" "Comedy" "" "" "2009" 4 "happy" "tt1")
             [] "2024-01-01"] [])) = Some 1%nat.
Proof.
  refine (proj2 (getMoodStats_counts _ "happy") _). discriminate.
Defined.

(** X25: with a random number in [0, 1), [getRandomMovie] returns a movie
    of the collection, and [null] only when the collection is empty. *)
Theorem getRandomMovie_in_collection (r : R) (u : User.user) :
  0 <= r < 1 ->
  match User.getRandomMovie r u with
  | Some m => In m (User.collection u)
  | None => User.collection u = []
  end.
Proof.
  intros Hr. unfold User.getRandomMovie.
  destruct (User.collection u) as [|m0 l] eqn:E; [reflexivity|].
  simpl Nat.eqb. cbv iota.
  destruct (pick_in_range r (m0 :: l) Hr) as (x & -> & Hx); [discriminate|].
  assumption.
Qed.

Lemma getRandomMovie_in_collection_witness :
  match User.getRandomMovie 0 (User.Build [heat] []) with
  | Some m => In m [heat]
  | None => [heat] = []
  end.
Proof.
  assert (H : 0 <= 0 < 1) by lra.
  exact (getRandomMovie_in_collection 0 (User.Build [heat] []) H).
Defined.

(** * Achievements *)

Lemma check_twice now now' user a :
  Achievement.check now' user (snd (Achievement.check now user a)) =
  (false, snd (Achievement.check now user a)).
Proof.
  unfold Achievement.check.
  destruct (Achievement.unlocked a) eqn:Eu; simpl; [now rewrite Eu|].
  destruct (Achievement.condition a user) eqn:Ec; simpl;
    [reflexivity | now rewrite Eu, Ec].
Qed.

Lemma checkAll_from_twice now now' user achievements : forall i j,
  Achievement.checkAll_from j now' user
    (snd (Achievement.checkAll_from i now user achievements)) =
  ([], snd (Achievement.checkAll_from i now user achievements)).
Proof.
  induction achievements as [|a r IH]; intros i j; [reflexivity|].
  simpl.
  pose proof (check_twice (now i) (now' j) user a) as Hc.
  destruct (Achievement.check (now i) user a) as [fresh a'].
  specialize (IH (S i) (S j)).
  destruct (Achievement.checkAll_from (S i) now user r) as [new r'].
  simpl in *. rewrite Hc, IH. reflexivity.
Qed.

(** X26: a second pass of [checkAll] for the same user, at any later time,
    unlocks nothing and changes nothing. *)
Theorem checkAll_settles (now now' : nat -> string) (user : User.user)
    (achievements : list Achievement.achievement) :
  Achievement.checkAll now' user
    (snd (Achievement.checkAll now user achievements)) =
  ([], snd (Achievement.checkAll now user achievements)).
Proof. apply checkAll_from_twice. Qed.

Lemma check_checked now user a :
  checked user a (snd (Achievement.check now user a)) /\
  fst (Achievement.check now user a) = due user a.
Proof.
  unfold Achievement.check, checked, due.
  destruct (Achievement.unlocked a) eqn:Eu; simpl.
  - rewrite ?Eu. repeat split; auto.
  - destruct (Achievement.condition a user) eqn:Ec; simpl.
    + repeat split; auto. intros [H|H]; discriminate.
    + rewrite ?Eu, ?Ec. repeat split; auto.
Qed.

Lemma checkAll_from_checked i now user achievements :
  Forall2 (checked user) achievements
    (snd (Achievement.checkAll_from i now user achievements)) /\
  fst (Achievement.checkAll_from i now user achievements) =
    map snd
      (filter (fun p => due user (fst p))
         (combine achievements
            (snd (Achievement.checkAll_from i now user achievements)))).
Proof.
  revert i. induction achievements as [|a r IH]; intros i; simpl.
  - split; constructor.
  - destruct (check_checked (now i) user a) as [Hc Hf].
    destruct (Achievement.check (now i) user a) as [fresh a'].
    destruct (IH (S i)) as [IH1 IH2].
    destruct (Achievement.checkAll_from (S i) now user r) as [new r'].
    simpl in *. split; [now constructor|].
    rewrite <- Hf. destruct fresh; simpl; now rewrite IH2.
Qed.

(** X27: a pass of [checkAll] keeps the list of achievements, their
    identifiers, titles and conditions; it unlocks exactly those that were
    locked and whose condition the user meets, leaves every other one as
    it was (an unlocked one keeps its date), and returns the ones it
    unlocked, in order. *)
Theorem checkAll_pass (now : nat -> string) (user : User.user)
    (achievements : list Achievement.achievement) :
  let after := snd (Achievement.checkAll now user achievements) in
  Forall2 (checked user) achievements after /\
  fst (Achievement.checkAll now user achievements) =
    map snd (filter (fun p => due user (fst p)) (combine achievements after)).
Proof.
  cbv zeta. unfold Achievement.checkAll. apply checkAll_from_checked.
Qed.

Lemma change_first_skip i f done l :
  ~ In i (map Achievement.id done) ->
  Achievement.change_first i f (done ++ l) =
  done ++ Achievement.change_first i f l.
Proof.
  induction done as [|a r IH]; simpl; [reflexivity|].
  intros H. destruct (String.eqb (Achievement.id a) i) eqn:E.
  - apply String.eqb_eq in E. tauto.
  - rewrite IH; tauto.
Qed.

Lemma loadState_restores todo : forall done,
  NoDup (map Achievement.id (done ++ todo)) ->
  Forall dated_when_unlocked todo ->
  Achievement.loadState (Some (Achievement.toJSON_all todo))
    (done ++ map relocked todo) = done ++ todo.
Proof.
  induction todo as [|a t IH]; intros done Hnd Hd; [reflexivity|].
  inversion Hd as [|? ? Ha Ht]; subst.
  assert (Hnew : ~ In (Achievement.id a) (map Achievement.id done)).
  { rewrite map_app in Hnd. simpl in Hnd.
    apply NoDup_remove_2 in Hnd. rewrite in_app_iff in Hnd. tauto. }
  assert (Hstep :
            (if Achievement.unlocked a
             then Achievement.change_first (Achievement.id a)
                    (Achievement.forceUnlock (Achievement.unlockedDate a))
                    (done ++ map relocked (a :: t))
             else done ++ map relocked (a :: t)) =
            (done ++ [a]) ++ map relocked t).
  { rewrite <- app_assoc. simpl.
    destruct (Achievement.unlocked a) eqn:Eu.
    - rewrite change_first_skip by assumption. simpl.
      rewrite String.eqb_refl. f_equal. f_equal.
      destruct a; simpl in *. now subst.
    - f_equal. f_equal. specialize (Ha Eu).
      destruct a; simpl in *. now subst. }
  unfold Achievement.loadState, Achievement.toJSON_all in *.
  simpl map. simpl fold_left.
  change (Achievement.saved_unlocked (Achievement.toJSON a))
    with (Achievement.unlocked a).
  change (Achievement.saved_id (Achievement.toJSON a))
    with (Achievement.id a).
  change (Achievement.saved_unlockedDate (Achievement.toJSON a))
    with (Achievement.unlockedDate a).
  change (relocked a :: map relocked t) with (map relocked (a :: t)).
  rewrite Hstep. rewrite IH; [now rewrite <- app_assoc | | assumption].
  now rewrite <- app_assoc.
Qed.

(** X28: saving the achievements with [toJSON] and loading them with
    [loadState] into freshly made achievements restores every one, its
    date included, when the identifiers are distinct and no locked
    achievement has a date. *)
Theorem loadState_toJSON (achievements : list Achievement.achievement) :
  NoDup (map Achievement.id achievements) ->
  Forall dated_when_unlocked achievements ->
  Achievement.loadState (Some (Achievement.toJSON_all achievements))
    (map relocked achievements) = achievements.
Proof.
  intros Hnd Hd. exact (loadState_restores achievements [] Hnd Hd).
Qed.

Lemma loadState_toJSON_witness :
  let achievements :=
    [Achievement.forceUnlock (Some "2024-03-03")
       (Achievement.create "first_movie" "First Steps" (fun _ => true));
     Achievement.create "five_movies" "Getting Started" (fun _ => false)] in
  Achievement.loadState (Some (Achievement.toJSON_all achievements))
    (map relocked achievements) = achievements.
Proof.
  cbv zeta. apply loadState_toJSON.
  - simpl. repeat constructor; simpl; intuition discriminate.
  - repeat constructor; intros H; try discriminate; reflexivity.
Defined.

Lemma ACHIEVEMENTS_distinct :
  NoDup (map Achievement.id Achievement.ACHIEVEMENTS) /\
  Forall dated_when_unlocked Achievement.ACHIEVEMENTS /\
  List.length Achievement.ACHIEVEMENTS = 15%nat.
Proof.
  split; [|split; [|reflexivity]].
  - simpl. repeat (constructor; [simpl; intuition discriminate|]).
    constructor.
  - repeat constructor.
Qed.

Lemma unlocked_count_checked user l l' :
  Forall2 (checked user) l l' ->
  (List.length (filter Achievement.unlocked l) <=
   List.length (filter Achievement.unlocked l'))%nat.
Proof.
  induction 1 as [|a a' r r' Hc _ IH]; simpl; [lia|].
  destruct Hc as (_ & _ & _ & Hu & _). rewrite Hu.
  destruct (Achievement.unlocked a), (Achievement.condition a user);
    simpl; lia.
Qed.

(** X29: for a list of achievements that is not empty, [getProgress]
    counts at most as many unlocked as there are, gives a percentage
    between 0 and 100, 0 when none is unlocked and 100 when all are; and a
    pass of [checkAll] never lowers the count. *)
Theorem getProgress_bounds (now : nat -> string) (user : User.user)
    (achievements : list Achievement.achievement) :
  achievements <> [] ->
  let p := Achievement.getProgress achievements in
  let p' := Achievement.getProgress
              (snd (Achievement.checkAll now user achievements)) in
  Achievement.total p = List.length achievements /\
  (Achievement.unlocked_count p <= Achievement.total p)%nat /\
  (0 <= Achievement.percentage p <= 100)%Z /\
  (Achievement.unlocked_count p = O -> Achievement.percentage p = 0%Z) /\
  (Achievement.unlocked_count p = Achievement.total p ->
   Achievement.percentage p = 100%Z) /\
  Achievement.total p' = Achievement.total p /\
  (Achievement.unlocked_count p <= Achievement.unlocked_count p')%nat.
Proof.
  intros Hne. cbv zeta. unfold Achievement.getProgress. simpl.
  set (t := List.length achievements).
  set (n := List.length (filter Achievement.unlocked achievements)).
  assert (Ht : (0 < t)%nat).
  { unfold t. destruct achievements; [congruence | simpl; lia]. }
  assert (Hn : (n <= t)%nat) by apply filter_length_le.
  assert (HtR : 0 < INR t) by now apply lt_0_INR.
  assert (HnR : 0 <= INR n <= INR t).
  { split; [apply pos_INR | now apply le_INR]. }
  assert (Hq : 0 <= INR n / INR t <= 1).
  { split.
    - apply Rmult_le_pos; [tauto|]. left. now apply Rinv_0_lt_compat.
    - apply Rmult_le_reg_r with (INR t); [assumption|].
      unfold Rdiv. rewrite Rmult_assoc, Rinv_l by lra. lra. }
  pose proof (proj1 (checkAll_from_checked 0 now user achievements)) as Hc.
  fold (Achievement.checkAll now user achievements) in Hc.
  split; [reflexivity|]. split; [assumption|]. split.
  { apply round_range. simpl. lra. }
  split.
  { intros ->. apply round_integer. simpl. unfold Rdiv. lra. }
  split.
  { intros E. apply round_integer. rewrite E. unfold Rdiv.
    rewrite Rinv_r by lra. simpl. lra. }
  split.
  { symmetry. unfold t. eapply Forall2_length; eauto. }
  exact (unlocked_count_checked user _ _ Hc).
Qed.

Lemma getProgress_bounds_witness :
  (0 <= Achievement.percentage
          (Achievement.getProgress Achievement.ACHIEVEMENTS) <= 100)%Z.
Proof.
  assert (Hne : Achievement.ACHIEVEMENTS <> []) by discriminate.
  exact (proj1 (proj2 (proj2
           (getProgress_bounds noon (User.Build [] [])
              Achievement.ACHIEVEMENTS Hne)))).
Defined.

(** ** Accounts *)

Lemma lower_ascii_idem c :
  Str.lower_ascii (Str.lower_ascii c) = Str.lower_ascii c.
Proof. destruct c as [[] [] [] [] [] [] [] []]; reflexivity. Qed.

Lemma is_space_lower_ascii c :
  Str.is_space (Str.lower_ascii c) = Str.is_space c.
Proof. destruct c as [[] [] [] [] [] [] [] []]; reflexivity. Qed.

Lemma toLowerCase_idem s :
  Str.toLowerCase (Str.toLowerCase s) = Str.toLowerCase s.
Proof.
  induction s as [|c r IH]; simpl; [reflexivity|].
  now rewrite lower_ascii_idem, IH.
Qed.

Lemma toLowerCase_app a b :
  Str.toLowerCase (a ++ b) = (Str.toLowerCase a ++ Str.toLowerCase b)%string.
Proof. induction a as [|c r IH]; simpl; [reflexivity | now rewrite IH]. Qed.

Lemma toLowerCase_rev s :
  Str.toLowerCase (Str.rev s) = Str.rev (Str.toLowerCase s).
Proof.
  induction s as [|c r IH]; simpl; [reflexivity|].
  now rewrite toLowerCase_app, IH.
Qed.

Lemma toLowerCase_trimStart s :
  Str.toLowerCase (Str.trimStart s) = Str.trimStart (Str.toLowerCase s).
Proof.
  induction s as [|c r IH]; simpl; [reflexivity|].
  rewrite is_space_lower_ascii. destruct (Str.is_space c); [exact IH|].
  reflexivity.
Qed.

Lemma toLowerCase_trim s :
  Str.toLowerCase (Str.trim s) = Str.trim (Str.toLowerCase s).
Proof.
  unfold Str.trim, Str.trimEnd.
  now rewrite toLowerCase_rev, toLowerCase_trimStart, toLowerCase_rev,
    toLowerCase_trimStart.
Qed.

Lemma string_app_nil s : (s ++ "")%string = s.
Proof. induction s as [|c r IH]; simpl; [reflexivity | now rewrite IH]. Qed.

Lemma string_app_assoc a b c : ((a ++ b) ++ c)%string = (a ++ (b ++ c))%string.
Proof. induction a as [|x r IH]; simpl; [reflexivity | now rewrite IH]. Qed.

Lemma rev_app a b : Str.rev (a ++ b) = (Str.rev b ++ Str.rev a)%string.
Proof.
  induction a as [|x r IH]; simpl.
  - now rewrite string_app_nil.
  - now rewrite IH, string_app_assoc.
Qed.

Lemma rev_rev s : Str.rev (Str.rev s) = s.
Proof.
  induction s as [|c r IH]; simpl; [reflexivity|].
  now rewrite rev_app, IH.
Qed.

Lemma trimStart_idem s : Str.trimStart (Str.trimStart s) = Str.trimStart s.
Proof.
  induction s as [|c r IH]; simpl; [reflexivity|].
  destruct (Str.is_space c) eqn:E; [exact IH|]. simpl. now rewrite E.
Qed.

Lemma trimEnd_idem s : Str.trimEnd (Str.trimEnd s) = Str.trimEnd s.
Proof. unfold Str.trimEnd. now rewrite rev_rev, trimStart_idem. Qed.

(** Blanks cut at the start of a string leave its last character where it
    is, when that is not a blank. *)
Lemma trimStart_keeps_last p c :
  Str.is_space c = false ->
  exists q, Str.trimStart (p ++ String c "") = (q ++ String c "")%string.
Proof.
  intros Hc. induction p as [|d p IH]; simpl.
  - rewrite Hc. now exists ""%string.
  - destruct (Str.is_space d); [exact IH|]. now exists (String d p).
Qed.

Lemma trimStart_head s c r :
  Str.trimStart s = String c r -> Str.is_space c = false.
Proof.
  induction s as [|x s IH]; simpl; [discriminate|].
  destruct (Str.is_space x) eqn:E; [exact IH|].
  intros H. injection H as -> _. exact E.
Qed.

Lemma trimStart_trimEnd s :
  Str.trimStart (Str.trimEnd (Str.trimStart s)) =
  Str.trimEnd (Str.trimStart s).
Proof.
  destruct (Str.trimStart s) as [|c r] eqn:E; [reflexivity|].
  pose proof (trimStart_head _ _ _ E) as Hc.
  unfold Str.trimEnd. simpl Str.rev.
  destruct (trimStart_keeps_last (Str.rev r) c Hc) as [q ->].
  rewrite rev_app. simpl. now rewrite Hc.
Qed.

Lemma trim_idem s : Str.trim (Str.trim s) = Str.trim s.
Proof.
  unfold Str.trim. now rewrite trimStart_trimEnd, trimEnd_idem.
Qed.

Lemma clean_idem email : clean (clean email) = clean email.
Proof.
  unfold clean. now rewrite toLowerCase_trim, toLowerCase_idem, trim_idem.
Qed.

Lemma toLowerCase_clean email : Str.toLowerCase (clean email) = clean email.
Proof. unfold clean. now rewrite toLowerCase_trim, toLowerCase_idem. Qed.

Lemma find_snoc {A} (p : A -> bool) l x :
  find p l = None -> find p (l ++ [x]) = if p x then Some x else None.
Proof.
  induction l as [|y l IH]; simpl; [reflexivity|].
  destruct (p y); [discriminate | exact IH].
Qed.

(** What a successful [signup] leaves: the account is stored under the
    clean e-mail, and that is the key a search for the e-mail finds. *)
Lemma signup_stores name email password q a now mgr s u s1 :
  Accounts.signup name email password q a now mgr s
    = (Accounts.Success u, s1) ->
  u = Accounts.constructor name (clean email) password q a now /\
  Accounts.email u = clean email /\
  Accounts.find_key (clean email) (Accounts.movieLibraryUsers s1)
    = Some (clean email) /\
  get (clean email) (Accounts.movieLibraryUsers s1)
    = Some (Accounts.toJSON mgr u) /\
  Accounts.movieLibraryRememberMe s1 = Accounts.movieLibraryRememberMe s.
Proof.
  unfold Accounts.signup. fold (clean email).
  set (c := clean email).
  assert (Ec : Accounts.email (Accounts.constructor name c password q a now)
               = c).
  { simpl. apply clean_idem. }
  destruct (Accounts.find_key c (Accounts.movieLibraryUsers s)) as [k|] eqn:F.
  - destruct (Str.truthy k) eqn:T; [discriminate|].
    intros H. injection H as <- <-.
    destruct k; [|discriminate].
    apply find_some in F. destruct F as [Hin Hk].
    cbn [Str.toLowerCase] in Hk. apply String.eqb_eq in Hk.
    split; [reflexivity|]. split; [exact Ec|].
    unfold Accounts.saveToStorage. rewrite Ec.
    cbn [Accounts.movieLibraryUsers Accounts.movieLibraryRememberMe].
    split; [|split; [apply get_set_eq | reflexivity]].
    unfold Accounts.find_key. rewrite <- Hk.
    rewrite keys_set_in by assumption.
    clear - Hin.
    induction (keys (Accounts.movieLibraryUsers s)) as [|x l IH];
      [destruct Hin|].
    simpl. destruct (String.eqb (Str.toLowerCase x) "") eqn:E.
    + destruct x; [reflexivity | discriminate].
    + destruct Hin as [->|Hin]; [discriminate | now apply IH].
  - intros H. injection H as <- <-.
    split; [reflexivity|]. split; [exact Ec|].
    unfold Accounts.saveToStorage. rewrite Ec.
    cbn [Accounts.movieLibraryUsers Accounts.movieLibraryRememberMe].
    split; [|split; [apply get_set_eq | reflexivity]].
    unfold Accounts.find_key in *.
    assert (Hn : ~ In c (keys (Accounts.movieLibraryUsers s))).
    { intros Hin. pose proof (find_none _ _ F _ Hin) as E. simpl in E.
      unfold c in E. rewrite toLowerCase_clean, String.eqb_refl in E.
      discriminate. }
    rewrite keys_set_notin by assumption.
    rewrite find_snoc by assumption.
    unfold c. now rewrite toLowerCase_clean, String.eqb_refl.
Qed.

(** X30: an account that [signup] created can be logged into with its
    e-mail in any case and with blanks around it: with the password given
    at sign-up [login] returns the very user [signup] returned, keeps the
    accounts as they are, makes the clean e-mail the session and reloads the
    achievements saved at sign-up; with another password it replies
    [Incorrect password] and changes nothing.  Unless the e-mail is blank,
    signing up again with it is refused and changes nothing. *)
Theorem signup_then_login name email password q a now mgr s u s1 :
  Accounts.signup name email password q a now mgr s
    = (Accounts.Success u, s1) ->
  forall email' attempt now' mgr',
    clean email' = clean email ->
    let x := Accounts.login email' attempt now' mgr' s1 in
    (attempt = password ->
     reply_of x = Accounts.Success u /\
     Accounts.movieLibraryUsers (storage_of x)
       = Accounts.movieLibraryUsers s1 /\
     Accounts.movieLibraryCurrentUser (storage_of x) = Some (clean email) /\
     manager_of x
       = Achievement.loadState (Some (Achievement.toJSON_all mgr)) mgr') /\
    (attempt <> password ->
     x = (Accounts.Failure Accounts.IncorrectPassword, s1, mgr')) /\
    (clean email <> "" ->
     forall name2 password2 q2 a2 now2 mgr2,
       Accounts.signup name2 email' password2 q2 a2 now2 mgr2 s1
         = (Accounts.Failure Accounts.AccountExists, s1)).
Proof.
  intros H email' attempt now' mgr' He x.
  destruct (signup_stores _ _ _ _ _ _ _ _ _ _ H) as (Hu & Hm & Hf & Hg & _).
  unfold x, Accounts.login, Accounts.signup. fold (clean email').
  rewrite He, Hf. cbn [Accounts.property]. rewrite Hg.
  rewrite String.eqb_refl. cbn [negb].
  assert (Hp : Accounts.password (Accounts.toJSON mgr u) = password).
  { rewrite Hu. reflexivity. }
  rewrite Hp.
  split; [|split].
  - intros ->. rewrite String.eqb_refl. cbn [negb].
    unfold Accounts.fromJSON.
    cbn [Accounts.achievements Accounts.toJSON reply_of storage_of manager_of
         fst snd Accounts.movieLibraryUsers Accounts.movieLibraryCurrentUser].
    split; [|split; [reflexivity | split; reflexivity]].
    f_equal. rewrite Hu. unfold Accounts.constructor, Accounts.toJSON.
    cbn [Accounts.name Accounts.email Accounts.password
         Accounts.securityQuestion Accounts.securityAnswer Accounts.library
         Accounts.joinDate Accounts.achievements Accounts.theme Str.truthy].
    repeat match goal with
    | |- context [Str.trim (Str.toLowerCase ?e)] =>
        change (Str.trim (Str.toLowerCase e)) with (clean e)
    end.
    now rewrite !clean_idem.
  - intros Hne. apply String.eqb_neq in Hne.
    rewrite String.eqb_sym, Hne. reflexivity.
  - intros Hc name2 password2 q2 a2 now2 mgr2.
    destruct (clean email) eqn:E; [congruence | reflexivity].
Qed.

Lemma signup_then_login_witness :
  reply_of
    (Accounts.login "ANN@example.com  " "secret1" "2024-03-04" []
       (snd (Accounts.signup "Ann" " Ann@Example.COM" "secret1" "" ""
               "2024-03-03" Achievement.ACHIEVEMENTS fresh_storage)))
  = Accounts.Success
      (Accounts.constructor "Ann" "ann@example.com" "secret1" "" ""
         "2024-03-03").
Proof.
  exact (proj1 (proj1
    (signup_then_login "Ann" " Ann@Example.COM" "secret1" "" "" "2024-03-03"
       Achievement.ACHIEVEMENTS fresh_storage _ _ eq_refl
       "ANN@example.com  " "secret1" "2024-03-04" [] eq_refl) eq_refl)).
Defined.
